(** * cmlibs.exporter.flatmapsvg: a shallow embedding and its properties

    The development follows [src/cmlibs/exporter/flatmapsvg.py] function by
    function.  Python floats are modelled by exact rationals ([Q]); Python
    exceptions by the [Raise] outcome of a small result monad; loops whose
    termination depends on the data carry a fuel argument and answer
    [Timeout] when it runs out.  Diagnostics written with [print] are not
    part of the model. *)

From Stdlib Require Import ZArith QArith Qminmax Lqa String Ascii List Lia.
From stdpp Require Import base gmap strings list.
Import ListNotations.

Open Scope string_scope.
Open Scope list_scope.
Open Scope nat_scope.

(* ===================================================================== *)
(** ** Outcomes of Python code *)
(* ===================================================================== *)

Inductive exn :=
  IndexError | KeyError | TypeError | AttributeError | UnboundLocalError.

Inductive res (A : Type) : Type :=
| Ok (a : A)
| Raise (e : exn)
| Timeout.
Arguments Ok {A} a.
Arguments Raise {A} e.
Arguments Timeout {A}.

Definition res_bind {A B} (m : res A) (k : A → res B) : res B :=
  match m with
  | Ok a => k a
  | Raise e => Raise e
  | Timeout => Timeout
  end.

Notation "x ←? m ; k" := (res_bind m (λ x, k))
  (at level 20, m at level 100, k at level 200, only parsing).
Notation "' p ←? m ; k" := (res_bind m (λ x, let 'p := x in k))
  (at level 20, p pattern, m at level 100, k at level 200, only parsing).

Definition is_Ok {A} (m : res A) : Prop := ∃ a, m = Ok a.

(** [l[i]] for a non-negative index. *)
Definition py_index {A} (l : list A) (i : nat) : res A :=
  match l !! i with
  | Some x => Ok x
  | None => Raise IndexError
  end.

(** A left-to-right loop over a list threading an accumulator, stopping
    at the first exception. *)
Fixpoint for_each {A S} (body : S → A → res S) (l : list A) (s : S) : res S :=
  match l with
  | [] => Ok s
  | x :: l' => s' ←? body s x; for_each body l' s'
  end.

(** [enumerate(l)] starting the count at [i]. *)
Fixpoint enumerate_from {A} (i : nat) (l : list A) : list (nat * A) :=
  match l with
  | [] => []
  | x :: l' => (i, x) :: enumerate_from (S i) l'
  end.
Definition enumerate {A} (l : list A) : list (nat * A) := enumerate_from 0 l.

(* ===================================================================== *)
(** ** Python strings *)
(* ===================================================================== *)

Definition digit_char (d : nat) : ascii := ascii_of_nat (48 + d).

Fixpoint str_go (fuel n : nat) (acc : string) : string :=
  match fuel with
  | 0 => acc
  | S fuel' =>
      let acc' := String (digit_char (n mod 10)) acc in
      if (n / 10 =? 0)%nat then acc' else str_go fuel' (n / 10) acc'
  end.

(** [str(n)] and [f"{n}"] for a non-negative integer. *)
Definition py_str (n : nat) : string := str_go (S n) n "".

Fixpoint str_repeat (c : ascii) (k : nat) : string :=
  match k with
  | 0 => ""
  | S k' => String c (str_repeat c k')
  end.

(** [s.rjust(width, fill)]. *)
Definition rjust (s : string) (width : nat) (fill : ascii) : string :=
  str_repeat fill (width - String.length s) +:+ s.

Fixpoint replace_empty (new s : string) : string :=
  match s with
  | "" => new
  | String c s' => new +:+ String c (replace_empty new s')
  end.

Fixpoint replace_go (skip : nat) (old new s : string) : string :=
  match s with
  | "" => ""
  | String c s' =>
      match skip with
      | S k => replace_go k old new s'
      | 0 =>
          if String.prefix old s
          then new +:+ replace_go (String.length old - 1) old new s'
          else String c (replace_go 0 old new s')
      end
  end.

(** [s.replace(old, new)]: every non-overlapping occurrence, left to right. *)
Definition replace (s old new : string) : string :=
  match old with
  | "" => replace_empty new s
  | _ => replace_go 0 old new s
  end.

(** [s.startswith(p)]. *)
Definition startswith (s p : string) : bool := String.prefix p s.

(* ===================================================================== *)
(** ** Insertion-ordered dictionaries *)
(* ===================================================================== *)

Section odict.
Context {K : Type} `{EqDecision K} {V : Type}.

Definition odict := list (K * V).

Fixpoint od_get (d : odict) (k : K) : option V :=
  match d with
  | [] => None
  | (k', v) :: d' => if decide (k = k') then Some v else od_get d' k
  end.

(** [d[k] = v]: an existing key keeps its place. *)
Fixpoint od_set (d : odict) (k : K) (v : V) : odict :=
  match d with
  | [] => [(k, v)]
  | (k', v') :: d' =>
      if decide (k = k') then (k, v) :: d' else (k', v') :: od_set d' k v
  end.

Definition od_keys (d : odict) : list K := map fst d.
End odict.
Arguments odict K V : clear implicits.

(* ===================================================================== *)
(** ** Group labels *)
(* ===================================================================== *)

Definition _group_svg_id (group_name : string) : string :=
  replace group_name "group_" "nerve_feature_".

Definition _is_group_svg_id (name : string) : bool :=
  startswith name "nerve_feature_".

Definition _group_number (index size_of_digits : nat) : string :=
  rjust (py_str (index + 1)) size_of_digits "0".

(** The expression [f"group_{_group_number(group_index, size_of_digits)}"]
    used by both loops of [_analyze_elements]. *)
Definition group_label (group_index size_of_digits : nat) : string :=
  "group_" +:+ _group_number group_index size_of_digits.

(* ===================================================================== *)
(** ** The scene: fields, groups, mesh and datapoints

    The Zinc field module is external to the repository.  It reports a
    failed evaluation through a result code and a value list, never through
    an exception; [_evaluate_field_data] tests that code against
    [RESULT_OK].  A name that denotes no field yields a field object whose
    [isValid] is false. *)
(* ===================================================================== *)

Definition vec := list Q.

Inductive location :=
| MeshLocation (element : nat) (xi : vec)
| NodeLocation (node : nat).

(** [evaluateReal] is taken to give a list of values whatever the number
    of components asked for. *)
Record Field := {
  isValid : bool;
  getNumberOfComponents : nat;
  evaluateReal : location → nat → Z * vec;
  evaluateString : location → option string
}.

Record Group := {
  getName : string;
  containsElement : nat → bool
}.

Record Region := {
  findFieldByName : string → Field;
  createFieldDerivative : Field → nat → Field;
  (** [findMeshByDimension(3)]: the element identifiers in iteration order. *)
  findMeshByDimension3 : option (list nat);
  get_group_list : list Group;
  (** The datapoints of the group field of that name, in iteration order;
      [None] when no field has the name. *)
  findDatapointGroup : string → option (list nat)
}.

Definition RESULT_OK : Z := 1.

(** One element sample: [[(values_1, derivatives_1), (values_2, derivatives_2)]]. *)
Definition line_path_points : Type := (vec * vec) * (vec * vec).

(** What a key of the sampler's dictionary holds: the samples of a group,
    or the display name recorded under the SVG identifier. *)
Inductive pp_value :=
| PathList (l : list line_path_points)
| GroupName (name : string).

(** Truthiness of what [_evaluate_field_data] returns. *)
Definition truthy (v : option vec) : bool :=
  match v with
  | Some (_ :: _) => true
  | _ => false
  end.

Definition _evaluate_field_data (element : nat) (xi : vec) (data_field : Field)
  : option vec :=
  let components_count := getNumberOfComponents data_field in
  let '(result, values) :=
    evaluateReal data_field (MeshLocation element xi) components_count in
  if (result =? RESULT_OK)%Z then Some values else None.

Definition xi_0 : vec := [0; 1 # 2; 1 # 2]%Q.
Definition xi_1 : vec := [1; 1 # 2; 1 # 2]%Q.

(** The first loop of [_analyze_elements]: one labelled entry and one name
    entry for every group that is not called "marker". *)
Fixpoint declare_groups (size_of_digits group_index : nat) (groups : list Group)
    (grouped_path_points : odict string pp_value) : odict string pp_value :=
  match groups with
  | [] => grouped_path_points
  | group :: groups' =>
      let group_name := getName group in
      let grouped_path_points :=
        if decide (group_name ≠ "marker") then
          let label := group_label group_index size_of_digits in
          let d1 := od_set grouped_path_points label (PathList []) in
          od_set d1 (_group_svg_id label) (GroupName group_name)
        else grouped_path_points in
      declare_groups size_of_digits (S group_index) groups' grouped_path_points
  end.

(** [d[key].append(x)]. *)
Definition od_append (d : odict string pp_value) (key : string)
    (x : line_path_points) : res (odict string pp_value) :=
  match od_get d key with
  | None => Raise KeyError
  | Some (PathList l) => Ok (od_set d key (PathList (l ++ [x])))
  | Some (GroupName _) => Raise AttributeError
  end.

(** The inner loop over the groups for one sampled element; the state is
    the dictionary and the flag [in_group]. *)
Fixpoint place_element (size_of_digits group_index : nat) (groups : list Group)
    (element : nat) (x : line_path_points)
    (st : odict string pp_value * bool) : res (odict string pp_value * bool) :=
  match groups with
  | [] => Ok st
  | group :: groups' =>
      st' ←? (if containsElement group element then
                d ←? od_append st.1 (group_label group_index size_of_digits) x;
                Ok (d, true)
              else Ok st);
      place_element size_of_digits (S group_index) groups' element x st'
  end.

Definition sample_element (coordinates xi_1_derivative : Field) (element : nat)
  : option line_path_points :=
  let values_1 := _evaluate_field_data element xi_0 coordinates in
  let values_2 := _evaluate_field_data element xi_1 coordinates in
  let derivatives_1 := _evaluate_field_data element xi_0 xi_1_derivative in
  let derivatives_2 := _evaluate_field_data element xi_1 xi_1_derivative in
  match values_1, values_2, derivatives_1, derivatives_2 with
  | Some v1, Some v2, Some d1, Some d2 =>
      if truthy values_1 && truthy values_2
         && truthy derivatives_1 && truthy derivatives_2
      then Some ((v1, d1), (v2, d2)) else None
  | _, _, _, _ => None
  end.

(** One turn of the loop over the elements.  The state is the dictionary
    and whether the local variable [mesh_group] has been assigned, which the
    inner loop does at each of its turns. *)
Definition analyze_element (coordinates xi_1_derivative : Field)
    (size_of_digits : nat) (groups : list Group)
    (st : odict string pp_value * bool) (element : nat)
  : res (odict string pp_value * bool) :=
  match sample_element coordinates xi_1_derivative element with
  | None => Ok st
  | Some x =>
      '(d, in_group) ←?
        place_element size_of_digits 0 groups element x (st.1, false);
      d ←? (if in_group then Ok d else od_append d "ungrouped" x);
      Ok (d, st.2 || negb (bool_decide (groups = [])))
  end.

(** The sampler.  The empty list returned for an absent or empty mesh is
    the empty dictionary here: every consumer only iterates over it.  The
    closing [del mesh_group] raises when [mesh_group] was never assigned,
    that is when no sampled element met a group. *)
Definition _analyze_elements (region : Region) (coordinate_field_name : string)
  : res (odict string pp_value) :=
  let coordinates := findFieldByName region coordinate_field_name in
  match findMeshByDimension3 region with
  | None => Ok []
  | Some [] => Ok []
  | Some elements =>
      let group_list := get_group_list region in
      let grouped_path_points := [("ungrouped", PathList [])] in
      let size_of_digits := String.length (py_str (length group_list)) in
      let grouped_path_points :=
        declare_groups size_of_digits 0 group_list grouped_path_points in
      let xi_1_derivative := createFieldDerivative region coordinates 1 in
      '(grouped_path_points, mesh_group_assigned) ←?
        for_each (analyze_element coordinates xi_1_derivative
                    size_of_digits group_list)
          elements (grouped_path_points, false);
      if mesh_group_assigned then Ok grouped_path_points
      else Raise UnboundLocalError
  end.

(* ===================================================================== *)
(** ** Bezier conversion *)
(* ===================================================================== *)

(** [cmlibs.maths.vectorops]: component-wise over the indices of the first
    argument. *)
Fixpoint vec_zip (op : Q → Q → Q) (u v : vec) : res vec :=
  match u with
  | [] => Ok []
  | a :: u' =>
      match v with
      | [] => Raise IndexError
      | b :: v' => w ←? vec_zip op u' v'; Ok (op a b :: w)
      end
  end.
Definition add (u v : vec) : res vec := vec_zip Qplus u v.
Definition sub (u v : vec) : res vec := vec_zip Qminus u v.
Definition div (u : vec) (f : Q) : vec := map (λ c, (c / f)%Q) u.

(** The tuple [(b0, b1, b2, b3)]. *)
Record bezier := { b0 : vec; b1 : vec; b2 : vec; b3 : vec }.

Definition _calculate_bezier_curve (pt_1 pt_2 : vec * vec) : res bezier :=
  let h0 := take 2 pt_1.1 in
  let v0 := take 2 pt_1.2 in
  let h1 := take 2 pt_2.1 in
  let v1 := take 2 pt_2.2 in
  c1 ←? add h0 (div v0 3);
  c2 ←? sub h1 (div v1 3);
  Ok {| b0 := h0; b1 := c1; b2 := c2; b3 := h1 |}.

Definition bezier_of_samples (l : list line_path_points) : res (list bezier) :=
  for_each (λ acc curve_pts,
              b ←? _calculate_bezier_curve curve_pts.1 curve_pts.2;
              Ok (acc ++ [b]))
    l [].

(** One turn of the loop of [_calculate_bezier_control_points]: only a
    non-empty list gets an entry. *)
Definition bezier_body (bez : odict string (list bezier))
    (entry : string * pp_value) : res (odict string (list bezier)) :=
  match entry.2 with
  | PathList (x :: l) =>
      bs ←? bezier_of_samples (x :: l);
      Ok (od_set bez entry.1 bs)
  | _ => Ok bez
  end.

Definition _calculate_bezier_control_points (point_data : odict string pp_value)
  : res (odict string (list bezier)) :=
  for_each bezier_body point_data [].

(* ===================================================================== *)
(** ** Path stitching *)
(* ===================================================================== *)

(** [l[i]] and [l[i] = x] for a Python integer index, negative indices
    counting from the end. *)
Definition py_getitem {A} (l : list A) (i : Z) : res A :=
  if (0 <=? i)%Z then py_index l (Z.to_nat i)
  else if (- Z.of_nat (length l) <=? i)%Z
       then py_index l (Z.to_nat (Z.of_nat (length l) + i))
       else Raise IndexError.

Definition py_setitem {A} (l : list A) (i : Z) (x : A) : res (list A) :=
  if (0 <=? i)%Z then
    if (i <? Z.of_nat (length l))%Z then Ok (<[Z.to_nat i := x]> l)
    else Raise IndexError
  else if (- Z.of_nat (length l) <=? i)%Z
       then Ok (<[Z.to_nat (Z.of_nat (length l) + i) := x]> l)
       else Raise IndexError.

(** [int(x)]: truncation towards zero. *)
Definition py_int (x : Q) : Z := Z.quot (Qnum x) (Z.pos (Qden x)).

Module UnionFind.
(** The attribute [parent]. *)
Definition t := list Z.

Definition init (v : nat) : t := repeat (-1)%Z v.

Fixpoint find (fuel : nat) (parent : t) (i : Z) : res (Z * t) :=
  match fuel with
  | 0 => Timeout
  | S fuel' =>
      p ←? py_getitem parent i;
      if decide (p = (-1)%Z) then Ok (i, parent)
      else
        '(r, parent) ←? find fuel' parent p;
        parent ←? py_setitem parent i r;
        r' ←? py_getitem parent i;
        Ok (r', parent)
  end.

Definition union (fuel : nat) (parent : t) (i j : Z) : res (Z * t) :=
  '(root_i, parent) ←? find fuel parent i;
  '(root_j, parent) ←? find fuel parent j;
  if decide (root_i ≠ root_j) then
    parent ←? py_setitem parent root_i root_j;
    Ok (root_j, parent)
  else Ok (root_i, parent).
End UnionFind.

Definition tolerance : Q := 1000000000000.

Definition _create_key (pt : vec) : res (Z * Z) :=
  x ←? py_index pt 0;
  y ←? py_index pt 1;
  Ok (py_int (x * tolerance), py_int (y * tolerance)).

(** First loop: the start key of every segment, the last index winning. *)
Definition begin_hash_body (begin_hash : gmap (Z * Z) nat) (ic : nat * bezier)
  : res (gmap (Z * Z) nat) :=
  key ←? _create_key (b0 ic.2);
  Ok (<[key := ic.1]> begin_hash).

Definition build_begin_hash (curve : list bezier) : res (gmap (Z * Z) nat) :=
  for_each begin_hash_body (enumerate curve) ∅.

(** Second loop: join every segment with the one starting where it ends. *)
Definition link_body (fuel : nat) (begin_hash : gmap (Z * Z) nat)
    (uf : UnionFind.t) (ic : nat * bezier) : res UnionFind.t :=
  y_cur ←? _create_key (b3 ic.2);
  match begin_hash !! y_cur with
  | Some s =>
      '(_, uf) ←? UnionFind.union fuel uf (Z.of_nat s) (Z.of_nat ic.1);
      Ok uf
  | None => Ok uf
  end.

Definition link_segments (fuel : nat) (begin_hash : gmap (Z * Z) nat)
    (curve : list bezier) (uf : UnionFind.t) : res UnionFind.t :=
  for_each (link_body fuel begin_hash) (enumerate curve) uf.

(** Third loop: the members of every root, roots in order of first
    appearance. *)
Definition collect_body (fuel : nat) (st : odict Z (list nat) * UnionFind.t)
    (i : nat) : res (odict Z (list nat) * UnionFind.t) :=
  '(root, uf) ←? UnionFind.find fuel st.2 (Z.of_nat i);
  let sets :=
    match od_get st.1 root with
    | None => od_set st.1 root []
    | Some _ => st.1
    end in
  match od_get sets root with
  | Some members => Ok (od_set sets root (members ++ [i]), uf)
  | None => Raise KeyError
  end.

Definition collect_sets (fuel : nat) (curve_size : nat) (uf : UnionFind.t)
  : res (odict Z (list nat) * UnionFind.t) :=
  for_each (collect_body fuel) (seq 0 curve_size) ([], uf).

(** The [while key in begin_hash] loop. *)
Fixpoint follow (fuel : nat) (curve : list bezier)
    (begin_hash : gmap (Z * Z) nat) (key : Z * Z) (seg : list bezier)
  : res (list bezier) :=
  match fuel with
  | 0 => Timeout
  | S fuel' =>
      match begin_hash !! key with
      | None => Ok seg
      | Some s =>
          c ←? py_index curve s;
          let seg := seg ++ [c] in
          let old_key := key in
          key ←? _create_key (b3 c);
          if decide (old_key = key) then Ok seg
          else follow fuel' curve begin_hash key seg
      end
  end.

(** Fourth loop: one path per root, walked from the root's segment. *)
Definition path_body (fuel : nat) (curve : list bezier)
    (begin_hash : gmap (Z * Z) nat) (segments : list (list bezier)) (s : Z)
  : res (list (list bezier)) :=
  c ←? py_getitem curve s;
  key ←? _create_key (b3 c);
  seg ←? follow fuel curve begin_hash key [c];
  Ok (segments ++ [seg]).

Definition _connected_segments (fuel : nat) (curve : list bezier)
  : res (list (list bezier)) :=
  begin_hash ←? build_begin_hash curve;
  let curve_size := length curve in
  let uf := UnionFind.init (length curve) in
  uf ←? link_segments fuel begin_hash curve uf;
  '(sets, uf) ←? collect_sets fuel curve_size uf;
  for_each (path_body fuel curve begin_hash) (od_keys sets) [].

(* ===================================================================== *)
(** ** SVG output

    The document is kept as the sequence of elements written between the
    [<svg>] tags; the textual form of the numbers is not modelled. *)
(* ===================================================================== *)

Inductive path_cmd :=
| MoveTo (x y : Q)
| CurveTo (x1 y1 x2 y2 x3 y3 : Q).

Inductive svg_element :=
| SvgPath (d : list path_cmd) (stroke : string) (title : option string)
| SvgCircle (cx cy : Q) (r : Z) (title : string).

(** The tuple [(svg id, values[:2], name, onto_id)]. *)
Record marker := {
  marker_id : string;
  marker_values : vec;
  marker_name : option string;
  marker_onto_id : option string
}.

(** The title a named group's path carries. *)
Definition centreline_title (group_name : string) : string :=
  ".centreline id(" +:+ _group_svg_id group_name +:+ ")".

Definition write_section (bezier_section : list bezier) (d : list path_cmd)
  : res (list path_cmd) :=
  for_each (λ (d : list path_cmd) (jb : nat * bezier),
              let b := jb.2 in
              d ←? (if decide (jb.1 = 0) then
                      x ←? py_index (b0 b) 0; y ←? py_index (b0 b) 1;
                      Ok (d ++ [MoveTo x y])
                    else Ok d);
              x1 ←? py_index (b1 b) 0; y1 ←? py_index (b1 b) 1;
              x2 ←? py_index (b2 b) 0; y2 ←? py_index (b2 b) 1;
              x3 ←? py_index (b3 b) 0; y3 ←? py_index (b3 b) 1;
              Ok (d ++ [CurveTo x1 y1 x2 y2 x3 y3]))
    (enumerate bezier_section) d.

Definition _write_connected_svg_bezier_path (bezier_path : list (list bezier))
    (group_name : option string) : res svg_element :=
  let stroke := match group_name with None => "grey" | Some _ => "#01136e" end in
  d ←? for_each (λ d bezier_section, write_section bezier_section d)
         bezier_path [];
  Ok (SvgPath d stroke
        match group_name with
        | None => None
        | Some g => Some (centreline_title g)
        end).

(** One marker of the second loop, with its [try]/[except IndexError]. *)
Definition write_marker (svg : list svg_element) (m : marker) : list svg_element :=
  match (cx ←? py_index (marker_values m) 0;
         cy ←? py_index (marker_values m) 1;
         Ok (SvgCircle cx cy 3 (".id(" +:+ marker_id m +:+ ")"))) with
  | Ok circle => svg ++ [circle]
  | _ => svg
  end.

(** One group of the first loop. *)
Definition write_group (fuel : nat) (svg : list svg_element)
    (entry : string * list bezier) : res (list svg_element) :=
  let group_name := entry.1 in
  connected_paths ←? _connected_segments fuel entry.2;
  e ←? _write_connected_svg_bezier_path connected_paths
         (if decide (group_name ≠ "ungrouped") then Some group_name else None);
  Ok (svg ++ [e]).

Definition _write_into_svg_format (fuel : nat)
    (bezier_data : odict string (list bezier)) (markers : list marker)
  : res (list svg_element) :=
  svg ←? for_each (write_group fuel) bezier_data [];
  Ok (foldl write_marker svg markers).

(* ===================================================================== *)
(** ** Markers *)
(* ===================================================================== *)

(** [f"{rand_num:0=5}"] for a non-negative integer. *)
Definition format_0_5 (rand_num : nat) : string := rjust (py_str rand_num) 5 "0".

(** The loop over the marker datapoints.  [randint k] is what the [k]-th
    call of [random.randint(1, 99999)] returns; the state is the ordinal
    [i], the number of draws made so far and the markers collected. *)
Fixpoint marker_loop (randint : nat → nat)
    (coordinate_field name_field id_field : Field) (components_count : nat)
    (nodes : list nat) (i draws : nat) (marker_data : list marker)
  : list marker :=
  match nodes with
  | [] => marker_data
  | node :: nodes' =>
      let '(result, values) :=
        evaluateReal coordinate_field (NodeLocation node) components_count in
      let name :=
        if isValid name_field then evaluateString name_field (NodeLocation node)
        else Some ("Unnamed marker " +:+ py_str (i + 1)) in
      let '(onto_id, draws) :=
        if isValid id_field
        then (evaluateString id_field (NodeLocation node), draws)
        else (Some ("UBERON:99" +:+ format_0_5 (randint draws)), S draws) in
      marker_loop randint coordinate_field name_field id_field components_count
        nodes' (S i) draws
        (marker_data ++ [{| marker_id := "marker_" +:+ py_str node;
                            marker_values := take 2 values;
                            marker_name := name;
                            marker_onto_id := onto_id |}])
  end.

Definition _calculate_markers (randint : nat → nat) (region : Region)
  : list marker :=
  let coordinate_field := findFieldByName region "marker_data_coordinates" in
  let name_field := findFieldByName region "marker_data_name" in
  let id_field := findFieldByName region "marker_data_id" in
  let markers_group :=
    match findDatapointGroup region "marker" with
    | Some nodes => Some nodes
    | None => findDatapointGroup region "markers"
    end in
  match markers_group with
  | Some nodes =>
      let components_count := getNumberOfComponents coordinate_field in
      marker_loop randint coordinate_field name_field id_field components_count
        nodes 0 0 []
  | None => []
  end.

(* ===================================================================== *)
(** ** Annotation files *)
(* ===================================================================== *)

(** The rows a [csv.reader] yields. *)
Definition csv_rows := list (list string).

(** One turn of the loop of [_reverse_map_annotations]; the state is
    the map and the flag [first]. *)
Definition reverse_body (st : gmap string string * bool) (row : list string)
  : res (gmap string string * bool) :=
  if st.2 then Ok (st.1, false)
  else k ←? py_index row 1; v ←? py_index row 0; Ok (<[k := v]> st.1, false).

Definition _reverse_map_annotations (csv_reader : csv_rows)
  : res (gmap string string) :=
  '(reverse_map, _) ←? for_each reverse_body csv_reader (∅, true);
  Ok reverse_map.

(** [entry in annotation_map and annotation_map[entry]], as a truth value. *)
Definition _label_has_annotations (entry : string)
    (annotation_map : gmap string string) : bool :=
  match annotation_map !! entry with
  | Some v => negb (String.eqb v "")
  | None => false
  end.

(** The loop over the rows; the state is the flag [first]. *)
Fixpoint annotation_rows_ok (first : bool) (rows : csv_rows) : bool :=
  match rows with
  | [] => true
  | row :: rows' =>
      if first then
        match row with
        | [c0; c1] =>
            if String.eqb c0 "Term ID" && String.eqb c1 "Group name"
            then annotation_rows_ok false rows'
            else false
        | _ => false
        end
      else if decide (length row ≠ 2) then false
      else annotation_rows_ok first rows'
  end.

(** A reader object is always true, so the guard [if csv_reader] is. *)
Definition _is_annotation_csv_file (csv_reader : csv_rows) : bool :=
  annotation_rows_ok true csv_reader.

(* ===================================================================== *)
(** ** The export *)
(* ===================================================================== *)

Inductive feature :=
| Centreline (label : pp_value) (models : option string)
| MarkerFeature (name : option string) (models : option string) (colour : string).

Record properties := {
  features : gmap string feature;
  networks : list (list string)
}.

Definition bbox_t : Type := Q * Q * Q * Q.

Definition bbox_init : bbox_t :=
  (999999999, - (999999999), 999999999, - (999999999))%Q.

(** One turn of the loop over the parsed paths; a path's box is
    [(xmin, xmax, ymin, ymax)]. *)
Definition bbox_step (bbox path_bbox : bbox_t) : bbox_t :=
  let '(a0, a1, a2, a3) := bbox in
  let '(p0, p1, p2, p3) := path_bbox in
  (Qmin p0 a0, Qmax p1 a1, Qmin p2 a2, Qmax p3 a3).

Definition view_margin : Z := 10.

Definition view_box_of (bbox : bbox_t) : Z * Z * Z * Z :=
  let '(a0, a1, a2, a3) := bbox in
  ((py_int (a0 + (1 # 2)) - view_margin,
    py_int (a2 + (1 # 2)) - view_margin,
    py_int (a1 - a0 + (1 # 2)) + 2 * view_margin,
    py_int (a3 - a2 + (1 # 2)) + 2 * view_margin))%Z.

Definition view_box (path_bboxes : list bbox_t) : Z * Z * Z * Z :=
  view_box_of (foldl bbox_step bbox_init path_bboxes).

(** The reverse map in use: [None] without a file or with a rejected one. *)
Definition load_annotations (annotations_csv_file : option csv_rows)
  : res (option (gmap string string)) :=
  match annotations_csv_file with
  | None => Ok None
  | Some result =>
      if _is_annotation_csv_file result then
        m ←? _reverse_map_annotations result; Ok (Some m)
      else Ok None
  end.

(** One turn of the loop over the sampler's keys that builds the
    centreline features; the state is [features] and [centreline_names]. *)
Definition centreline_body (path_points : odict string pp_value)
    (reversed_map : option (gmap string string))
    (st : gmap string feature * list string) (entry : string * pp_value)
  : res (gmap string feature * list string) :=
  let path_key := entry.1 in
  if _is_group_svg_id path_key then
    match od_get path_points path_key with
    | None => Raise KeyError
    | Some label =>
        let names := st.2 ++ [path_key] in
        match reversed_map with
        | None => Ok (<[path_key := Centreline label None]> st.1, names)
        | Some m =>
            match label with
            | PathList _ => Raise TypeError
            | GroupName name =>
                if _label_has_annotations name m
                then Ok (<[path_key := Centreline label (m !! name)]> st.1, names)
                else Ok (<[path_key := Centreline label None]> st.1, names)
            end
        end
    end
  else Ok st.

Definition centreline_features (path_points : odict string pp_value)
    (reversed_map : option (gmap string string))
  : res (gmap string feature * list string) :=
  for_each (centreline_body path_points reversed_map) path_points (∅, []).

Definition marker_features (fs : gmap string feature) (markers : list marker)
  : gmap string feature :=
  foldl (λ fs m,
           <[marker_id m := MarkerFeature (marker_name m) (marker_onto_id m) "orange"]> fs)
    fs markers.

Record export_result := {
  exported_svg : list svg_element;
  exported_view_box : Z * Z * Z * Z;
  exported_properties : properties
}.

Section export.
(** [svg2paths] followed by [bbox()] on every path it returns: the
    geometry is computed by an external library. *)
Variable svg_path_bboxes : list svg_element → list bbox_t.
Variable randint : nat → nat.

Definition export_flatmapsvg_from_scene (fuel : nat) (region : Region)
    (annotations_csv_file : option csv_rows) : res export_result :=
  path_points ←? _analyze_elements region "coordinates";
  bezier ←? _calculate_bezier_control_points path_points;
  let markers := _calculate_markers randint region in
  svg ←? _write_into_svg_format fuel bezier markers;
  let vb := view_box (svg_path_bboxes svg) in
  reversed_map ←? load_annotations annotations_csv_file;
  '(fs, centreline_names) ←? centreline_features path_points reversed_map;
  let fs := marker_features fs markers in
  Ok {| exported_svg := svg;
        exported_view_box := vb;
        exported_properties := {| features := fs; networks := [] |} |}.
End export.

(* ===================================================================== *)
(** ** Notions used to state the properties *)
(* ===================================================================== *)

(** The [w] low decimal digits of [n], most significant first. *)
Fixpoint fixed_go (w n : nat) (acc : string) : string :=
  match w with
  | 0 => acc
  | S w' => fixed_go w' (n / 10) (String (digit_char (n mod 10)) acc)
  end.
Definition fixed (w n : nat) : string := fixed_go w n "".

(** The number a string of decimal digits denotes. *)
Fixpoint parse_go (s : string) (acc : nat) : nat :=
  match s with
  | "" => acc
  | String c s' => parse_go s' (10 * acc + (nat_of_ascii c - 48))
  end.
Definition parse_nat (s : string) : nat := parse_go s 0.

Definition is_digit (c : ascii) : bool :=
  (48 <=? nat_of_ascii c)%nat && (nat_of_ascii c <=? 57)%nat.

Fixpoint digits_only (s : string) : bool :=
  match s with
  | "" => true
  | String c s' => is_digit c && digits_only s'
  end.




(** The edges of a box [(xmin, xmax, ymin, ymax)]. *)
Definition xmin (b : bbox_t) : Q := b.1.1.1.
Definition xmax (b : bbox_t) : Q := b.1.1.2.
Definition ymin (b : bbox_t) : Q := b.1.2.
Definition ymax (b : bbox_t) : Q := b.2.

(** The marker made for the datapoint [node] met as the [i]-th one, when
    [draws] random numbers have been drawn before it. *)
Definition marker_at (randint : nat → nat)
    (coordinate_field name_field id_field : Field) (components_count : nat)
    (i draws node : nat) : marker :=
  {| marker_id := "marker_" +:+ py_str node;
     marker_values :=
       take 2 (evaluateReal coordinate_field (NodeLocation node) components_count).2;
     marker_name :=
       if isValid name_field then evaluateString name_field (NodeLocation node)
       else Some ("Unnamed marker " +:+ py_str (i + 1));
     marker_onto_id :=
       if isValid id_field then evaluateString id_field (NodeLocation node)
       else Some ("UBERON:99" +:+ format_0_5 (randint draws)) |}.

(** The marker subset the extractor settles on. *)
Definition markers_group (region : Region) : option (list nat) :=
  match findDatapointGroup region "marker" with
  | Some nodes => Some nodes
  | None => findDatapointGroup region "markers"
  end.

(** The same scene with no marker subset. *)
Definition without_markers (region : Region) : Region :=
  {| findFieldByName := findFieldByName region;
     createFieldDerivative := createFieldDerivative region;
     findMeshByDimension3 := findMeshByDimension3 region;
     get_group_list := get_group_list region;
     findDatapointGroup := λ _, None |}.

(** The header row of an annotation file. *)
Definition annotation_header : list string := ["Term ID"; "Group name"].

(** The first column of the last row whose second column is [k]. *)
Fixpoint last_term_for (k : string) (rows : csv_rows) (found : option string)
  : option string :=
  match rows with
  | [] => found
  | [v; k'] :: rows' =>
      last_term_for k rows' (if decide (k' = k) then Some v else found)
  | _ :: rows' => last_term_for k rows' found
  end.

(** What the feature of a centreline records as [models]. *)
Definition models_of (reversed_map : option (gmap string string))
    (label : pp_value) : option string :=
  match reversed_map, label with
  | Some m, GroupName name => if _label_has_annotations name m then m !! name else None
  | _, _ => None
  end.

(** Two dictionaries with the same keys, the same names under them and
    lists where the other has lists. *)
Definition same_shape (d d' : odict string pp_value) : Prop :=
  ∀ key,
    match od_get d key, od_get d' key with
    | None, None => True
    | Some (GroupName a), Some (GroupName b) => a = b
    | Some (PathList _), Some (PathList _) => True
    | _, _ => False
    end.

Definition keeps (d d' : odict string pp_value) : Prop :=
  same_shape d d' ∧ (NoDup (od_keys d) → NoDup (od_keys d')).


(** Each segment of the path starts at the key where the one before it
    ends. *)
Definition chained (path : list bezier) : Prop :=
  ∀ i c c', path !! i = Some c → path !! S i = Some c' →
            ∃ k, _create_key (b3 c) = Ok k ∧ _create_key (b0 c') = Ok k.

(** What a path under construction satisfies: it is not empty, made of
    segments of the curve, chained, and [key] is the end key of its last
    segment. *)
Definition path_inv (curve : list bezier) (key : Z * Z) (seg : list bezier) : Prop :=
  (∃ c, last seg = Some c ∧ _create_key (b3 c) = Ok key)
  ∧ Forall (λ c, c ∈ curve) seg ∧ chained seg.

(** The parent array of [n] segments in a row once the first [i] links are
    made: segment 0 is the root of segments 1 to [i]. *)
Definition chain_uf (n i : nat) : UnionFind.t :=
  (-1)%Z :: replicate i 0%Z ++ replicate (n - 1 - i) (-1)%Z.

(** The sets of a union-find in which nothing was joined. *)
Definition singleton_sets (j : nat) : odict Z (list nat) :=
  map (λ i, (Z.of_nat i, [i])) (seq 0 j).

(** Every entry is -1 or an index of the array. *)
Definition uf_wf (parent : list Z) : Prop :=
  ∀ k p, parent !! k = Some p → p = (-1)%Z ∨ (0 ≤ p < Z.of_nat (length parent))%Z.

(** Following the parents from [i] leads to the root [r]. *)
Inductive reaches (parent : list Z) : nat → nat → Prop :=
| reaches_root i : parent !! i = Some (-1)%Z → reaches parent i i
| reaches_step i p r :
    parent !! i = Some (Z.of_nat p) → reaches parent p r → reaches parent i r.

(** The samples of the elements that [member] accepts, in mesh order. *)
Definition samples_of (coordinates xi_1_derivative : Field)
    (member : nat → bool) (elements : list nat) : list line_path_points :=
  omap (λ element, if member element
                   then sample_element coordinates xi_1_derivative element
                   else None) elements.

(** Whether some group of the list contains the element. *)
Definition in_some_group (groups : list Group) (element : nat) : bool :=
  existsb (λ g, containsElement g element) groups.

(** Whether the four evaluations of the element give values. *)
Definition is_sampled (coordinates xi_1_derivative : Field) (element : nat) : bool :=
  match sample_element coordinates xi_1_derivative element with
  | Some _ => true
  | None => false
  end.

(** Whether a group called "marker" contains the element. *)
Definition in_marker_group (groups : list Group) (element : nat) : bool :=
  existsb (λ g, containsElement g element && bool_decide (getName g = "marker"))
    groups.

(** The keys the first loop of the sampler declares for the groups from
    [group_index] on: a label and an SVG identifier for every group not
    called "marker". *)
Fixpoint group_keys (size_of_digits group_index : nat) (groups : list Group)
  : list string :=
  match groups with
  | [] => []
  | group :: groups' =>
      (if decide (getName group ≠ "marker") then
         [group_label group_index size_of_digits;
          _group_svg_id (group_label group_index size_of_digits)]
       else [])
      ++ group_keys size_of_digits (S group_index) groups'
  end.

(** An entry of the sampler's dictionary that holds at least one sample. *)
Definition has_samples (entry : string * pp_value) : bool :=
  match entry.2 with
  | PathList (_ :: _) => true
  | _ => false
  end.

(** The circle of a marker that has two coordinates. *)
Definition marker_circle (m : marker) : option svg_element :=
  match marker_values m with
  | cx :: cy :: _ => Some (SvgCircle cx cy 3 (".id(" +:+ marker_id m +:+ ")"))
  | _ => None
  end.

(** The move to the start of a segment. *)
Definition move_to (b : bezier) : option path_cmd :=
  match b0 b with
  | x :: y :: _ => Some (MoveTo x y)
  | _ => None
  end.

(** The curve of a segment. *)
Definition curve_to (b : bezier) : option path_cmd :=
  match b1 b, b2 b, b3 b with
  | x1 :: y1 :: _, x2 :: y2 :: _, x3 :: y3 :: _ => Some (CurveTo x1 y1 x2 y2 x3 y3)
  | _, _, _ => None
  end.

(** The commands of one connected path: a move to the start of its first
    segment, then one curve for every segment. *)
Definition section_commands (bezier_section : list bezier) (cmds : list path_cmd)
  : Prop :=
  match bezier_section with
  | [] => cmds = []
  | b :: _ =>
      ∃ m curves, move_to b = Some m
                  ∧ Forall2 (λ b c, curve_to b = Some c) bezier_section curves
                  ∧ cmds = m :: curves
  end.

(** The map [_reverse_map_annotations] builds from the rows after the
    first one. *)
Definition reverse_map_of (data : csv_rows) : gmap string string :=
  foldl (λ m row, match row with
                  | v :: k :: _ => <[k := v]> m
                  | _ => m
                  end) ∅ data.

(* ===================================================================== *)
(** ** Example scenes and segments *)
(* ===================================================================== *)

(** What a name that denotes no field gives: it is not valid, has no
    components, and its evaluation fails without values. *)
Definition invalid_field : Field :=
  {| isValid := false;
     getNumberOfComponents := 0;
     evaluateReal := λ _ _, (0%Z, []);
     evaluateString := λ _, None |}.

(** Coordinates along the x axis: element [e] runs from x = e to x = e + 1. *)
Definition line_field : Field :=
  {| isValid := true;
     getNumberOfComponents := 3;
     evaluateReal := λ loc _,
       match loc with
       | MeshLocation e xi => (RESULT_OK, [inject_Z (Z.of_nat e) + hd 0 xi; 0; 0]%Q)
       | NodeLocation _ => (0%Z, [])
       end;
     evaluateString := λ _, None |}.

Definition unit_derivative : Field :=
  {| isValid := true;
     getNumberOfComponents := 3;
     evaluateReal := λ _ _, (RESULT_OK, [1; 0; 0]%Q);
     evaluateString := λ _, None |}.

Definition group_of (name : string) (elements : list nat) : Group :=
  {| getName := name;
     containsElement := λ e, bool_decide (e ∈ elements) |}.

(** One element in the group "vagus", a group "marker" and a group without
    elements; one marker datapoint and no marker fields at all. *)
Definition example_scene : Region :=
  {| findFieldByName := λ name,
       if decide (name = "coordinates") then line_field else invalid_field;
     createFieldDerivative := λ _ _, unit_derivative;
     findMeshByDimension3 := Some [1];
     get_group_list :=
       [group_of "vagus" [1]; group_of "marker" []; group_of "empty branch" []];
     findDatapointGroup := λ name,
       if decide (name = "marker") then Some [7] else None |}.

(** The boxes of the paths of the example scene's document: its only path
    runs along the x axis from x = 1 to x = 2. *)
Definition example_bboxes (svg : list svg_element) : list bbox_t :=
  [(1, 2, 0, 0)%Q].

(** A straight segment from [(x0, y0)] to [(x1, y1)]. *)
Definition straight (x0 y0 x1 y1 : Q) : bezier :=
  {| b0 := [x0; y0]; b1 := [x0; y0]; b2 := [x1; y1]; b3 := [x1; y1] |}.

(** Two segments that end where a third one starts. *)
Definition fan_in : list bezier :=
  [straight 0 0 1 0; straight 0 1 1 0; straight 1 0 2 0].

(** A segment that ends where it starts. *)
Definition self_loop : list bezier := [straight 0 0 0 0].

(** Two segments each ending where the other starts. *)
Definition two_cycle : list bezier := [straight 0 0 1 0; straight 1 0 0 0].

(** The start keys of the two-segment cycle. *)
Definition two_cycle_hash : gmap (Z * Z) nat :=
  <[(1000000000000%Z, 0%Z) := 1]> (<[(0%Z, 0%Z) := 0]> ∅).

(** Three segments in a row along the x axis. *)
Definition chain_of_three : list bezier :=
  [straight 0 0 1 0; straight 1 0 2 0; straight 2 0 3 0].

(** Two segments that do not touch. *)
Definition apart : list bezier := [straight 0 0 1 0; straight 2 0 3 0].

(** Three elements: 1 and 3 in "vagus", 3 also in "branch", 2 in no group. *)
Definition three_element_scene : Region :=
  {| findFieldByName := λ name,
       if decide (name = "coordinates") then line_field else invalid_field;
     createFieldDerivative := λ _ _, unit_derivative;
     findMeshByDimension3 := Some [1; 2; 3];
     get_group_list := [group_of "vagus" [1; 3]; group_of "branch" [3]];
     findDatapointGroup := λ name,
       if decide (name = "marker") then Some [7; 8] else None |}.

(** One element that belongs to a group called "marker". *)
Definition marker_element_scene : Region :=
  {| findFieldByName := λ name,
       if decide (name = "coordinates") then line_field else invalid_field;
     createFieldDerivative := λ _ _, unit_derivative;
     findMeshByDimension3 := Some [1];
     get_group_list := [group_of "marker" [1]];
     findDatapointGroup := λ _, None |}.

(** One element and no group. *)
Definition no_group_scene : Region :=
  {| findFieldByName := λ name,
       if decide (name = "coordinates") then line_field else invalid_field;
     createFieldDerivative := λ _ _, unit_derivative;
     findMeshByDimension3 := Some [1];
     get_group_list := [];
     findDatapointGroup := λ _, None |}.

(** The boxes of the three paths of that scene's document: the elements
    no group has, then "vagus", then "branch". *)
Definition three_element_bboxes (svg : list svg_element) : list bbox_t :=
  [(2, 3, 0, 0); (1, 4, 0, 0); (3, 4, 0, 0)]%Q.

(** A sampler dictionary with one sampled group and no ungrouped element. *)
Definition example_path_points : odict string pp_value :=
  [("ungrouped", PathList []);
   ("group_1", PathList [(([1; 0; 0], [1; 0; 0]), ([2; 0; 0], [1; 0; 0]))]%Q);
   ("nerve_feature_1", GroupName "vagus")].

Definition example_marker : marker :=
  {| marker_id := "marker_7";
     marker_values := [1; 2]%Q;
     marker_name := Some "Unnamed marker 1";
     marker_onto_id := Some "UBERON:9900042" |}.

(* ===================================================================== *)
(** * Properties *)
(* ===================================================================== *)

(** ** The result monad and loops *)

Lemma res_bind_Ok {A B} (m : res A) (k : A → res B) (b : B) :
  res_bind m k = Ok b → ∃ a, m = Ok a ∧ k a = Ok b.
Proof. destruct m; simpl; intros H; try discriminate. eauto. Qed.

Lemma for_each_app {A S} (body : S → A → res S) (l1 l2 : list A) (s : S) :
  for_each body (l1 ++ l2) s = res_bind (for_each body l1 s) (for_each body l2).
Proof.
  revert s. induction l1 as [|x l1 IH]; intros s; simpl; [done|].
  destruct (body s x); simpl; auto.
Qed.

(** A relation kept by every turn of a loop is kept by the loop. *)
Lemma for_each_preserves {A S} (R : S → S → Prop) (body : S → A → res S)
    (l : list A) (s s' : S) :
  (∀ s, R s s) →
  (∀ s1 s2 s3, R s1 s2 → R s2 s3 → R s1 s3) →
  (∀ s x s', x ∈ l → body s x = Ok s' → R s s') →
  for_each body l s = Ok s' → R s s'.
Proof.
  intros Hrefl Htrans. revert s.
  induction l as [|x l IH]; intros s Hbody H; simpl in H.
  - injection H as <-. apply Hrefl.
  - apply res_bind_Ok in H as (s1 & H1 & H2).
    apply Htrans with s1.
    + eapply Hbody; [left|done].
    + apply IH; [|done]. intros ? ? ? Hin. apply Hbody. by right.
Qed.

(** A loop whose turns all succeed under more fuel gives the same result. *)
Lemma for_each_mono {A S} (body1 body2 : S → A → res S) (l : list A) (s r : S) :
  (∀ s x r, body1 s x = Ok r → body2 s x = Ok r) →
  for_each body1 l s = Ok r → for_each body2 l s = Ok r.
Proof.
  intros Hb. revert s. induction l as [|x l IH]; intros s H; simpl in *; [done|].
  apply res_bind_Ok in H as (s1 & H1 & H2).
  rewrite (Hb _ _ _ H1). simpl. auto.
Qed.

(** ** C3: the Bezier converter *)

(** C3. For an element sample pair ((P0, T0), (P1, T1)) whose vectors have
    at least two components, the converter succeeds and returns b0 = P0,
    b1 = P0 + T0/3, b2 = P1 - T1/3, b3 = P1 on the first two components;
    the anchors are the positions themselves and further components are
    ignored. *)
Theorem C3_bezier_formula (x0 y0 tx0 ty0 x1 y1 tx1 ty1 : Q) (p0 t0 p1 t1 : vec) :
  _calculate_bezier_curve (x0 :: y0 :: p0, tx0 :: ty0 :: t0)
                          (x1 :: y1 :: p1, tx1 :: ty1 :: t1)
  = Ok {| b0 := [x0; y0];
          b1 := [x0 + tx0 / 3; y0 + ty0 / 3]%Q;
          b2 := [x1 - tx1 / 3; y1 - ty1 / 3]%Q;
          b3 := [x1; y1] |}.
Proof. reflexivity. Qed.

(** ** C4: the view box *)


Lemma bbox_fold_bounds (l : list bbox_t) (a : bbox_t) :
  let r := foldl bbox_step a l in
  (xmin r <= xmin a ∧ xmax a <= xmax r ∧ ymin r <= ymin a ∧ ymax a <= ymax r)%Q
  ∧ ∀ p, p ∈ l →
      (xmin r <= xmin p ∧ xmax p <= xmax r ∧ ymin r <= ymin p ∧ ymax p <= ymax r)%Q.
Proof.
  revert a. induction l as [|q l IH]; intros a; simpl.
  - split; [repeat split; apply Qle_refl|]. intros p Hp. inversion Hp.
  - destruct (IH (bbox_step a q)) as [(H0 & H1 & H2 & H3) Hl].
    destruct a as [[[a0 a1] a2] a3], q as [[[q0 q1] q2] q3].
    unfold xmin, xmax, ymin, ymax in *. simpl in *.
    pose proof (Q.le_min_l q0 a0). pose proof (Q.le_min_r q0 a0).
    pose proof (Q.le_max_l q1 a1). pose proof (Q.le_max_r q1 a1).
    pose proof (Q.le_min_l q2 a2). pose proof (Q.le_min_r q2 a2).
    pose proof (Q.le_max_l q3 a3). pose proof (Q.le_max_r q3 a3).
    split; [repeat split; lra|].
    intros p Hp. apply elem_of_cons in Hp as [->|Hp]; [|by apply Hl].
    simpl. repeat split; lra.
Qed.





(** ** C6: annotation files *)

Lemma od_get_Some_key {V} (d : odict string V) (k : string) (v : V) :
  od_get d k = Some v → k ∈ od_keys d.
Proof.
  induction d as [|[k' v'] d IH]; simpl; [done|].
  destruct (decide (k = k')) as [->|]; intros H.
  - left.
  - right. by apply IH.
Qed.

Lemma annotation_data_rows_ok (rows : csv_rows) :
  annotation_rows_ok false rows = true ↔ Forall (λ r, length r = 2) rows.
Proof.
  induction rows as [|row rows IH]; simpl.
  - split; [constructor|done].
  - destruct (decide (length row ≠ 2)) as [Hne|He].
    + split; [done|]. intros H. inversion H; subst. contradiction.
    + rewrite IH. split.
      * intros H. constructor; [|done]. destruct (decide (length row = 2)); tauto.
      * intros H. by inversion H.
Qed.

Lemma annotation_file_shape (rows : csv_rows) :
  _is_annotation_csv_file rows = true ↔
  rows = [] ∨ ∃ data, rows = annotation_header :: data
                       ∧ Forall (λ r, length r = 2) data.
Proof.
  unfold _is_annotation_csv_file. destruct rows as [|row rows]; simpl.
  - split; auto.
  - split.
    + intros H. right.
      destruct row as [|c0 [|c1 [|]]]; try discriminate.
      destruct (String.eqb c0 "Term ID") eqn:E0; [|discriminate].
      destruct (String.eqb c1 "Group name") eqn:E1; [|discriminate].
      apply String.eqb_eq in E0, E1. subst. simpl in H.
      exists rows. split; [done|]. by apply annotation_data_rows_ok.
    + intros [?|(data & E & Hd)]; [discriminate|].
      injection E as -> ->. simpl. by apply annotation_data_rows_ok.
Qed.

Lemma reverse_map_data (data : csv_rows) (m : gmap string string) :
  Forall (λ r, length r = 2) data →
  ∃ m', for_each reverse_body data (m, false) = Ok (m', false)
        ∧ ∀ k, m' !! k = last_term_for k data (m !! k).
Proof.
  revert m. induction data as [|row data IH]; intros m H; simpl.
  - eauto.
  - inversion H as [|? ? Hrow Hdata]; subst.
    destruct row as [|v [|k [|]]]; try discriminate. simpl.
    destruct (IH (<[k := v]> m) Hdata) as (m' & -> & Hm').
    exists m'. split; [done|]. intros k0. rewrite Hm'. f_equal.
    destruct (decide (k = k0)) as [->|Hne].
    + by rewrite lookup_insert_eq.
    + by rewrite lookup_insert_ne.
Qed.

Lemma reverse_map_accepted (rows : csv_rows) :
  _is_annotation_csv_file rows = true →
  ∃ m, _reverse_map_annotations rows = Ok m
       ∧ ∀ k, m !! k = last_term_for k (tail rows) None.
Proof.
  intros H. apply annotation_file_shape in H as [->|(data & -> & Hd)].
  - exists ∅. split; [reflexivity|]. intros k. apply lookup_empty.
  - destruct (reverse_map_data data ∅ Hd) as (m & Hm & Hk).
    exists m. split.
    + unfold _reverse_map_annotations. simpl.
      by rewrite Hm.
    + intros k. rewrite Hk. by rewrite lookup_empty.
Qed.

Lemma centreline_body_Ok pp rm st entry st' :
  centreline_body pp rm st entry = Ok st' →
  (_is_group_svg_id entry.1 = false ∧ st' = st)
  ∨ (_is_group_svg_id entry.1 = true
     ∧ ∃ label, od_get pp entry.1 = Some label
                ∧ st'.1 = <[entry.1 := Centreline label (models_of rm label)]> st.1).
Proof.
  unfold centreline_body. destruct (_is_group_svg_id entry.1); [|intros [= <-]; auto].
  intros H. right. split; [done|].
  destruct (od_get pp entry.1) as [label|]; [|discriminate].
  exists label. split; [done|].
  destruct rm as [m|]; [|by injection H as <-].
  destruct label as [l|name]; [discriminate|]. simpl.
  destruct (_label_has_annotations name m); by injection H as <-.
Qed.

Lemma centreline_loop_lookup pp rm (l : odict string pp_value) st st' :
  for_each (centreline_body pp rm) l st = Ok st' →
  ∀ key,
    (key ∈ od_keys l → _is_group_svg_id key = true →
     ∃ label, od_get pp key = Some label
              ∧ st'.1 !! key = Some (Centreline label (models_of rm label)))
    ∧ (st'.1 !! key = st.1 !! key
       ∨ ∃ label, od_get pp key = Some label
                  ∧ st'.1 !! key = Some (Centreline label (models_of rm label))).
Proof.
  revert st. induction l as [|[k v] l IH]; intros st H key; simpl in H.
  - injection H as <-. split; [intros Hin; inversion Hin|by left].
  - apply res_bind_Ok in H as (st1 & H1 & H2).
    destruct (IH _ H2 key) as [IHin IHor].
    apply centreline_body_Ok in H1. simpl in H1.
    assert (Hstep : st1.1 !! key = st.1 !! key
                    ∨ (key = k ∧ _is_group_svg_id k = true
                       ∧ ∃ label, od_get pp key = Some label
                            ∧ st1.1 !! key = Some (Centreline label (models_of rm label)))).
    { destruct H1 as [[_ ->]|(Hsvg & label & Hl & ->)]; [by left|].
      destruct (decide (k = key)) as [->|Hne].
      - right. repeat split; [done|]. exists label. by rewrite lookup_insert_eq.
      - left. by rewrite lookup_insert_ne. }
    assert (Hor : st'.1 !! key = st.1 !! key
       ∨ ∃ label, od_get pp key = Some label
                  ∧ st'.1 !! key = Some (Centreline label (models_of rm label))).
    { destruct IHor as [E|?]; [|by right]. rewrite E.
      destruct Hstep as [?|(_ & _ & ?)]; [by left|by right]. }
    split; [|done].
    intros Hin Hsvg. destruct IHor as [E|?]; [|done].
    destruct Hstep as [E'|(_ & _ & ?)]; [|by rewrite E].
    unfold od_keys in Hin. simpl in Hin. apply elem_of_cons in Hin as [->|Hin].
    + destruct H1 as [[Hf _]|(_ & label & Hl & Hst)]; [congruence|].
      exists label. split; [done|]. rewrite E, Hst. by rewrite lookup_insert_eq.
    + by apply IHin.
Qed.

Lemma centreline_features_unfold pp rm :
  centreline_features pp rm = for_each (centreline_body pp rm) pp (∅, []).
Proof. reflexivity. Qed.

Lemma centreline_features_lookup pp rm fs names key label :
  centreline_features pp rm = Ok (fs, names) →
  od_get pp key = Some label → _is_group_svg_id key = true →
  fs !! key = Some (Centreline label (models_of rm label)).
Proof.
  rewrite centreline_features_unfold. intros H Hget Hsvg.
  destruct (centreline_loop_lookup _ _ _ _ _ H key) as [Hin _].
  destruct Hin as (label' & Hl & Hfs); [by eapply od_get_Some_key|done|].
  simpl in Hfs. congruence.
Qed.

Lemma centreline_features_only pp rm fs names key f :
  centreline_features pp rm = Ok (fs, names) → fs !! key = Some f →
  ∃ label, od_get pp key = Some label ∧ f = Centreline label (models_of rm label).
Proof.
  rewrite centreline_features_unfold. intros H Hf.
  destruct (centreline_loop_lookup _ _ _ _ _ H key) as [_ [E|(label & Hl & E)]];
    simpl in E; rewrite E in Hf.
  - by rewrite lookup_empty in Hf.
  - exists label. split; [done|congruence].
Qed.

(** C6 (amended). An annotation file is accepted if and only if it has no
    rows at all, or its header row is exactly "Term ID", "Group name" and
    every later row has exactly two columns.  A rejected file is ignored as
    a whole and no centreline feature gains a models field.  An accepted
    file yields the reverse map taking the second column of a row to the
    first column of the last row with that second column, and a centreline
    group whose display name is mapped to a non-empty value gains that value
    as its models field. *)
Theorem C6_annotation_file (rows : csv_rows) :
  (_is_annotation_csv_file rows = true ↔
   rows = [] ∨ ∃ data, rows = annotation_header :: data
                        ∧ Forall (λ r, length r = 2) data)
  ∧ (_is_annotation_csv_file rows = false →
     load_annotations (Some rows) = Ok None
     ∧ ∀ pp fs names key label models,
         centreline_features pp None = Ok (fs, names) →
         fs !! key = Some (Centreline label models) → models = None)
  ∧ (_is_annotation_csv_file rows = true →
     ∃ m, load_annotations (Some rows) = Ok (Some m)
          ∧ (∀ k, m !! k = last_term_for k (tail rows) None)
          ∧ ∀ pp fs names key name v,
              centreline_features pp (Some m) = Ok (fs, names) →
              od_get pp key = Some (GroupName name) →
              _is_group_svg_id key = true →
              m !! name = Some v → v ≠ "" →
              fs !! key = Some (Centreline (GroupName name) (Some v))).
Proof.
  split; [apply annotation_file_shape|]. split.
  - intros Hrej. split; [unfold load_annotations; by rewrite Hrej|].
    intros pp fs names key label models Hcf Hf.
    destruct (centreline_features_only _ _ _ _ _ _ Hcf Hf) as (label' & _ & E).
    by injection E as _ ->.
  - intros Hacc. destruct (reverse_map_accepted rows Hacc) as (m & Hm & Hk).
    exists m. split; [unfold load_annotations; by rewrite Hacc, Hm|].
    split; [done|].
    intros pp fs names key name v Hcf Hget Hsvg Hv Hne.
    rewrite (centreline_features_lookup _ _ _ _ _ _ Hcf Hget Hsvg).
    simpl. unfold _label_has_annotations. rewrite Hv.
    destruct (String.eqb v "") eqn:E; [apply String.eqb_eq in E; contradiction|done].
Qed.

Lemma C6_annotation_file_witness :
  _is_annotation_csv_file [annotation_header; ["UBERON:0001255"; "ureter"]] = true
  ∧ ∃ m, load_annotations (Some [annotation_header; ["UBERON:0001255"; "ureter"]])
         = Ok (Some m)
         ∧ m !! "ureter" = Some "UBERON:0001255".
Proof.
  destruct (C6_annotation_file [annotation_header; ["UBERON:0001255"; "ureter"]])
    as (_ & _ & Hacc).
  split; [reflexivity|].
  destruct (Hacc eq_refl) as (m & Hload & Hm & _).
  exists m. split; [exact Hload|]. rewrite Hm. reflexivity.
Defined.

(** C6 as stated fails: a file without any row, hence without the header
    row, is accepted. *)
Lemma C6_counterexample :
  _is_annotation_csv_file [] = true
  ∧ ¬ ∃ data, ([] : csv_rows) = annotation_header :: data
              ∧ Forall (λ r, length r = 2) data.
Proof. split; [reflexivity|]. intros (data & H & _). discriminate. Qed.

(** ** Decimal numerals *)

Lemma string_app_nil_l (t : string) : "" +:+ t = t.
Proof. reflexivity. Qed.

Lemma string_app_cons (a : ascii) (s t : string) :
  String a s +:+ t = String a (s +:+ t).
Proof. reflexivity. Qed.

Ltac string_app := rewrite ?string_app_cons, ?string_app_nil_l.

Lemma string_app_length (s t : string) :
  String.length (s +:+ t) = String.length s + String.length t.
Proof. induction s as [|a s IH]; string_app; simpl; auto. Qed.

Lemma string_app_assoc (s t u : string) : (s +:+ t) +:+ u = s +:+ (t +:+ u).
Proof. induction s as [|a s IH]; string_app; [done|]. by rewrite IH. Qed.

Lemma string_app_nil_r (s : string) : s +:+ "" = s.
Proof. induction s as [|a s IH]; string_app; [done|]. by rewrite IH. Qed.

Lemma string_app_inv_head (s t u : string) : s +:+ t = s +:+ u → t = u.
Proof. induction s as [|a s IH]; string_app; [done|]. intros [= H]. auto. Qed.

Lemma fixed_go_acc (w n : nat) (acc : string) :
  fixed_go w n acc = fixed w n +:+ acc.
Proof.
  unfold fixed. revert n acc. induction w as [|w IH]; intros n acc; simpl; [done|].
  rewrite IH. rewrite (IH (n / 10) (String _ "")).
  by rewrite string_app_assoc.
Qed.

Lemma fixed_S (w n : nat) :
  fixed (S w) n = fixed w (n / 10) +:+ String (digit_char (n mod 10)) "".
Proof. unfold fixed at 1. simpl. apply fixed_go_acc. Qed.

Lemma fixed_length (w n : nat) : String.length (fixed w n) = w.
Proof.
  revert n. induction w as [|w IH]; intros n; [done|].
  rewrite fixed_S, string_app_length, IH. simpl. lia.
Qed.

Lemma str_repeat_snoc (c : ascii) (k : nat) :
  str_repeat c k +:+ String c "" = String c (str_repeat c k).
Proof. induction k as [|k IH]; simpl; string_app; [done|]. by rewrite IH. Qed.

Lemma fixed_zero (w : nat) : fixed w 0 = str_repeat "0" w.
Proof.
  induction w as [|w IH]; [done|].
  rewrite fixed_S. change (0 / 10) with 0. rewrite IH.
  change (digit_char (0 mod 10)) with "0"%char. apply str_repeat_snoc.
Qed.

Lemma fixed_add (j k n : nat) :
  fixed (j + k) n = fixed j (n / 10 ^ k) +:+ fixed k n.
Proof.
  revert n. induction k as [|k IH]; intros n.
  - rewrite Nat.add_0_r, Nat.pow_0_r, Nat.div_1_r. by rewrite string_app_nil_r.
  - replace (j + S k) with (S (j + k)) by lia.
    rewrite !fixed_S, IH, string_app_assoc. do 2 f_equal.
    rewrite Nat.Div0.div_div. done.
Qed.

(** The number of decimal digits of [n]. *)
Lemma decimal_width (n : nat) :
  ∃ k : nat, 1 ≤ k ∧ k ≤ S n ∧ n < 10 ^ k ∧ (k = 1 ∨ 10 ^ (k - 1) ≤ n).
Proof.
  induction n as [n IH] using lt_wf_ind.
  destruct (le_lt_dec 10 n) as [Hge|Hlt].
  - destruct (IH (n / 10)) as (k & H1 & H2 & H3 & H4).
    { apply Nat.div_lt; lia. }
    pose proof (Nat.div_mod_eq n 10) as Hdm.
    pose proof (Nat.mod_upper_bound n 10 ltac:(lia)) as Hm.
    exists (S k). split; [lia|]. split; [lia|]. split.
    + rewrite Nat.pow_succ_r'. lia.
    + right. replace (S k - 1) with k by lia.
      destruct H4 as [->|H4]; [simpl; lia|].
      replace k with (S (k - 1)) by lia. rewrite Nat.pow_succ_r'. lia.
  - exists 1. split; [lia|]. split; [lia|]. split; [simpl; lia|by left].
Qed.

Lemma str_go_S (fuel n : nat) (acc : string) :
  str_go (S fuel) n acc =
  if n / 10 =? 0 then String (digit_char (n mod 10)) acc
  else str_go fuel (n / 10) (String (digit_char (n mod 10)) acc).
Proof. reflexivity. Qed.

Lemma str_go_fixed (fuel n k : nat) (acc : string) :
  1 ≤ k → k ≤ fuel → n < 10 ^ k → (k = 1 ∨ 10 ^ (k - 1) ≤ n) →
  str_go fuel n acc = fixed_go k n acc.
Proof.
  revert n k acc. induction fuel as [|fuel IH]; intros n k acc Hk Hf Hub Hlb; [lia|].
  rewrite str_go_S. pose proof (Nat.div_mod_eq n 10) as Hdm.
  pose proof (Nat.mod_upper_bound n 10 ltac:(lia)) as Hm.
  destruct (Nat.eqb_spec (n / 10) 0) as [E|E].
  - assert (k = 1) as ->.
    { destruct Hlb as [?|Hlb]; [done|].
      destruct k as [|[|k]]; [lia|done|].
      replace (S (S k) - 1) with (S k) in Hlb by lia.
      rewrite Nat.pow_succ_r' in Hlb.
      assert (1 ≤ 10 ^ k) by (apply Nat.neq_0_lt_0, Nat.pow_nonzero; lia). lia. }
    reflexivity.
  - destruct k as [|k]; [lia|].
    destruct k as [|k]; [change (10 ^ 1) with 10 in Hub; lia|].
    change (fixed_go (S (S k)) n acc)
      with (fixed_go (S k) (n / 10) (String (digit_char (n mod 10)) acc)).
    rewrite Nat.pow_succ_r' in Hub.
    apply IH; try lia.
    destruct Hlb as [?|Hlb]; [lia|]. right.
    replace (S (S k) - 1) with (S k) in Hlb by lia.
    replace (S k - 1) with k by lia. rewrite Nat.pow_succ_r' in Hlb. lia.
Qed.

Lemma py_str_fixed (n : nat) :
  ∃ k : nat, 1 ≤ k ∧ n < 10 ^ k ∧ (k = 1 ∨ 10 ^ (k - 1) ≤ n) ∧ py_str n = fixed k n.
Proof.
  destruct (decimal_width n) as (k & H1 & H2 & H3 & H4).
  exists k. repeat split; try done.
  unfold py_str, fixed. by apply str_go_fixed.
Qed.

(** The width of [str(n)] for [n >= 1]. *)
Lemma py_str_length_bounds (n : nat) :
  1 ≤ n →
  10 ^ (String.length (py_str n) - 1) ≤ n < 10 ^ String.length (py_str n).
Proof.
  intros Hn. destruct (py_str_fixed n) as (k & H1 & H2 & H3 & ->).
  rewrite fixed_length. split; [|done].
  destruct H3 as [->|]; [simpl; lia|done].
Qed.

Lemma pow10_lt_inv (a b : nat) : 10 ^ a < 10 ^ b → a < b.
Proof. apply Nat.pow_lt_mono_r_iff. lia. Qed.

(** Right-justifying [str(n)] with zeros gives the fixed-width numeral. *)
Lemma rjust_py_str (n w : nat) :
  1 ≤ n → n < 10 ^ w → rjust (py_str n) w "0" = fixed w n.
Proof.
  intros Hn Hw. destruct (py_str_fixed n) as (k & H1 & H2 & H3 & E).
  unfold rjust. rewrite E, fixed_length.
  assert (k ≤ w).
  { destruct H3 as [->|H3].
    - destruct w; [simpl in Hw; lia|lia].
    - assert (10 ^ (k - 1) < 10 ^ w) by lia.
      apply pow10_lt_inv in H. lia. }
  replace w with ((w - k) + k) at 2 by lia.
  rewrite fixed_add, Nat.div_small by done. by rewrite fixed_zero.
Qed.

Lemma digit_char_code (d : nat) : d < 10 → nat_of_ascii (digit_char d) = 48 + d.
Proof. intros H. unfold digit_char. apply nat_ascii_embedding. lia. Qed.

Lemma is_digit_digit_char (d : nat) : d < 10 → is_digit (digit_char d) = true.
Proof.
  intros H. unfold is_digit. rewrite digit_char_code by done.
  apply andb_true_intro. split; apply Nat.leb_le; lia.
Qed.

Lemma digits_only_cons (c : ascii) (s : string) :
  digits_only (String c s) = is_digit c && digits_only s.
Proof. reflexivity. Qed.

Lemma digits_only_app (s t : string) :
  digits_only (s +:+ t) = digits_only s && digits_only t.
Proof.
  induction s as [|a s IH]; string_app; [done|].
  rewrite !digits_only_cons, IH. by rewrite andb_assoc.
Qed.

Lemma fixed_digits_only (w n : nat) : digits_only (fixed w n) = true.
Proof.
  revert n. induction w as [|w IH]; intros n; [done|].
  rewrite fixed_S, digits_only_app, IH, digits_only_cons.
  rewrite is_digit_digit_char; [done|]. apply Nat.mod_upper_bound. lia.
Qed.

Lemma parse_go_app (s t : string) (acc : nat) :
  parse_go (s +:+ t) acc = parse_go t (parse_go s acc).
Proof.
  revert acc. induction s as [|a s IH]; intros acc; string_app; simpl; [done|].
  apply IH.
Qed.

(** Reading a fixed-width numeral gives the number back. *)
Lemma parse_fixed (w n : nat) : n < 10 ^ w → parse_nat (fixed w n) = n.
Proof.
  unfold parse_nat. revert n. induction w as [|w IH]; intros n Hn.
  - simpl in *. lia.
  - rewrite Nat.pow_succ_r' in Hn.
    pose proof (Nat.div_mod_eq n 10) as Hdm.
    pose proof (Nat.mod_upper_bound n 10 ltac:(lia)) as Hm.
    rewrite fixed_S, parse_go_app, IH by lia.
    change (parse_go (String ?c "") ?a) with (10 * a + (nat_of_ascii c - 48)).
    rewrite digit_char_code by done. lia.
Qed.

Lemma fixed_inj (w n m : nat) :
  n < 10 ^ w → m < 10 ^ w → fixed w n = fixed w m → n = m.
Proof.
  intros Hn Hm E. rewrite <- (parse_fixed w n Hn), <- (parse_fixed w m Hm).
  by rewrite E.
Qed.

(** ** Lexical order of numerals *)





(** ** The ceiling of the decimal logarithm *)






(** ** Group labels *)

Lemma group_number_fixed (n i : nat) :
  i < n → _group_number i (String.length (py_str n)) = fixed (String.length (py_str n)) (i + 1).
Proof.
  intros Hi. unfold _group_number.
  destruct (py_str_length_bounds n ltac:(lia)) as [_ Hhi].
  apply rjust_py_str; lia.
Qed.

Lemma prefix_cons (a b : ascii) (s1 s2 : string) :
  String.prefix (String a s1) (String b s2)
  = if ascii_dec a b then String.prefix s1 s2 else false.
Proof. reflexivity. Qed.

Lemma prefix_empty (s : string) : String.prefix "" s = true.
Proof. by destruct s. Qed.

Lemma prefix_app_both (p a b : string) :
  String.prefix (p +:+ a) (p +:+ b) = String.prefix a b.
Proof.
  induction p as [|c p IH]; string_app; [done|].
  rewrite prefix_cons. by destruct (ascii_dec c c).
Qed.

Lemma prefix_app (p s : string) : String.prefix p (p +:+ s) = true.
Proof.
  rewrite <- (string_app_nil_r p) at 1. rewrite prefix_app_both. apply prefix_empty.
Qed.

Lemma replace_go_0 (old new : string) (c : ascii) (s : string) :
  replace_go 0 old new (String c s)
  = if String.prefix old (String c s)
    then new +:+ replace_go (String.length old - 1) old new s
    else String c (replace_go 0 old new s).
Proof. reflexivity. Qed.

Lemma replace_go_S (k : nat) (old new : string) (c : ascii) (s : string) :
  replace_go (S k) old new (String c s) = replace_go k old new s.
Proof. reflexivity. Qed.

Lemma replace_group_prefix (s : string) :
  replace_go 0 "group_" "nerve_feature_" ("group_" +:+ s)
  = "nerve_feature_" +:+ replace_go 0 "group_" "nerve_feature_" s.
Proof.
  change ("group_" +:+ s) with (String "g" ("roup_" +:+ s)).
  rewrite replace_go_0.
  change (String "g" ("roup_" +:+ s)) with ("group_" +:+ s).
  rewrite prefix_app.
  change (String.length "group_" - 1) with 5.
  change ("roup_" +:+ s)
    with (String "r" (String "o" (String "u" (String "p" (String "_" s))))).
  by rewrite !replace_go_S.
Qed.

Lemma is_digit_not_g (c : ascii) : is_digit c = true → c ≠ "g"%char.
Proof. intros H ->. discriminate. Qed.

Lemma prefix_group_digits (s : string) :
  digits_only s = true → String.prefix "group_" s = false.
Proof.
  destruct s as [|c s]; [done|]. rewrite digits_only_cons.
  intros [Hc _]%andb_true_iff. apply is_digit_not_g in Hc.
  rewrite prefix_cons. destruct (ascii_dec "g" c); congruence.
Qed.

Lemma replace_digits (s : string) :
  digits_only s = true → replace_go 0 "group_" "nerve_feature_" s = s.
Proof.
  induction s as [|c s IH]; [done|]. intros H.
  rewrite replace_go_0, prefix_group_digits by done.
  rewrite digits_only_cons in H. apply andb_true_iff in H as [_ H].
  by rewrite IH.
Qed.

Lemma group_svg_id_digits (s : string) :
  digits_only s = true → _group_svg_id ("group_" +:+ s) = "nerve_feature_" +:+ s.
Proof.
  intros H. unfold _group_svg_id, replace.
  rewrite replace_group_prefix. by rewrite replace_digits.
Qed.

Section labels.
Variable n : nat.

Lemma group_label_fixed (i : nat) :
  i < n →
  group_label i (String.length (py_str n))
  = "group_" +:+ fixed (String.length (py_str n)) (i + 1).
Proof. intros Hi. unfold group_label. by rewrite group_number_fixed. Qed.

Lemma group_svg_id_fixed (i : nat) :
  i < n →
  _group_svg_id (group_label i (String.length (py_str n)))
  = "nerve_feature_" +:+ fixed (String.length (py_str n)) (i + 1).
Proof.
  intros Hi. rewrite group_label_fixed by done.
  apply group_svg_id_digits, fixed_digits_only.
Qed.

Lemma fixed_index_inj (i j : nat) :
  i < n → j < n →
  fixed (String.length (py_str n)) (i + 1) = fixed (String.length (py_str n)) (j + 1) →
  i = j.
Proof.
  intros Hi Hj E.
  destruct (py_str_length_bounds n ltac:(lia)) as [_ Hhi].
  apply fixed_inj in E; lia.
Qed.

Lemma group_label_inj (i j : nat) :
  i < n → j < n →
  group_label i (String.length (py_str n)) = group_label j (String.length (py_str n)) →
  i = j.
Proof.
  intros Hi Hj. rewrite !group_label_fixed by done.
  intros E%string_app_inv_head. by apply fixed_index_inj.
Qed.

Lemma group_svg_id_inj (i j : nat) :
  i < n → j < n →
  _group_svg_id (group_label i (String.length (py_str n)))
  = _group_svg_id (group_label j (String.length (py_str n))) →
  i = j.
Proof.
  intros Hi Hj. rewrite !group_svg_id_fixed by done.
  intros E%string_app_inv_head. by apply fixed_index_inj.
Qed.

Lemma group_label_not_svg_id (i j : nat) :
  i < n → j < n →
  group_label i (String.length (py_str n))
  ≠ _group_svg_id (group_label j (String.length (py_str n))).
Proof.
  intros Hi Hj. rewrite group_label_fixed, group_svg_id_fixed by done. discriminate.
Qed.

Lemma group_label_not_ungrouped (i : nat) :
  group_label i (String.length (py_str n)) ≠ "ungrouped".
Proof. unfold group_label. discriminate. Qed.

Lemma group_svg_id_not_ungrouped (i : nat) :
  i < n → _group_svg_id (group_label i (String.length (py_str n))) ≠ "ungrouped".
Proof. intros Hi. rewrite group_svg_id_fixed by done. discriminate. Qed.

Lemma group_svg_id_is_svg_id (i : nat) :
  i < n → _is_group_svg_id (_group_svg_id (group_label i (String.length (py_str n)))) = true.
Proof.
  intros Hi. rewrite group_svg_id_fixed by done. apply prefix_app.
Qed.

Lemma group_label_is_not_svg_id (i : nat) :
  _is_group_svg_id (group_label i (String.length (py_str n))) = false.
Proof. reflexivity. Qed.

Lemma group_svg_id_no_group_infix (i : nat) :
  i < n →
  startswith (_group_svg_id (group_label i (String.length (py_str n))))
    "nerve_feature_group_" = false.
Proof.
  intros Hi. rewrite group_svg_id_fixed by done.
  unfold startswith.
  change "nerve_feature_group_" with ("nerve_feature_" +:+ "group_").
  rewrite prefix_app_both.
  apply prefix_group_digits, fixed_digits_only.
Qed.

End labels.

(** ** Ordered dictionaries *)

Section odict_facts.
Context {K : Type} `{EqDecision K} {V : Type}.
Implicit Types (d : odict K V) (k : K) (v : V).

Lemma od_get_set d k v k' :
  od_get (od_set d k v) k' = if decide (k' = k) then Some v else od_get d k'.
Proof.
  induction d as [|[k0 v0] d IH]; simpl.
  - by destruct (decide (k' = k)).
  - destruct (decide (k = k0)) as [->|Hne]; simpl.
    + by destruct (decide (k' = k0)).
    + destruct (decide (k' = k0)) as [->|Hne'].
      * destruct (decide (k0 = k)); [congruence|done].
      * apply IH.
Qed.

Lemma od_get_set_eq d k v : od_get (od_set d k v) k = Some v.
Proof. rewrite od_get_set. by destruct (decide (k = k)). Qed.

Lemma od_get_set_ne d k v k' : k' ≠ k → od_get (od_set d k v) k' = od_get d k'.
Proof. intros H. rewrite od_get_set. by destruct (decide (k' = k)). Qed.

Lemma od_get_None d k : od_get d k = None ↔ k ∉ od_keys d.
Proof.
  induction d as [|[k0 v0] d IH]; simpl.
  - split; [intros _ H; inversion H|done].
  - destruct (decide (k = k0)) as [->|Hne].
    + split; [done|]. intros H. exfalso. apply H. left.
    + rewrite IH. unfold od_keys. simpl. rewrite not_elem_of_cons. tauto.
Qed.

Lemma od_get_Some_elem d k v : od_get d k = Some v → (k, v) ∈ d.
Proof.
  induction d as [|[k0 v0] d IH]; simpl; [done|].
  destruct (decide (k = k0)) as [->|Hne].
  - intros [= ->]. left.
  - intros H. right. auto.
Qed.

Lemma od_elem_get d k v : NoDup (od_keys d) → (k, v) ∈ d → od_get d k = Some v.
Proof.
  induction d as [|[k0 v0] d IH]; simpl; intros Hnd Hin; [inversion Hin|].
  apply NoDup_cons in Hnd as [Hk0 Hnd].
  apply elem_of_cons in Hin as [[= -> ->]|Hin].
  - by destruct (decide (k0 = k0)).
  - destruct (decide (k = k0)) as [->|Hne]; [|auto].
    exfalso. apply Hk0. apply list_elem_of_fmap. by exists (k0, v).
Qed.

Lemma od_keys_set d k v k' :
  k' ∈ od_keys (od_set d k v) ↔ k' = k ∨ k' ∈ od_keys d.
Proof.
  unfold od_keys. induction d as [|[k0 v0] d IH]; simpl.
  - rewrite list_elem_of_singleton, elem_of_nil. tauto.
  - destruct (decide (k = k0)) as [->|Hne]; simpl.
    + rewrite !elem_of_cons. tauto.
    + rewrite !elem_of_cons, IH. tauto.
Qed.

Lemma od_set_NoDup d k v : NoDup (od_keys d) → NoDup (od_keys (od_set d k v)).
Proof.
  induction d as [|[k0 v0] d IH]; simpl; intros Hnd.
  - apply NoDup_singleton.
  - apply NoDup_cons in Hnd as [Hk0 Hnd].
    destruct (decide (k = k0)) as [->|Hne]; simpl.
    + by apply NoDup_cons.
    + apply NoDup_cons. split; [|auto].
      intros [?|?]%od_keys_set; [congruence|done].
Qed.
End odict_facts.

(** ** The sampler *)

Lemma keeps_refl d : keeps d d.
Proof.
  split; [|done]. intros key. by destruct (od_get d key) as [[]|].
Qed.

Lemma keeps_trans d1 d2 d3 : keeps d1 d2 → keeps d2 d3 → keeps d1 d3.
Proof.
  intros [H12 N12] [H23 N23]. split; [|auto].
  intros key. specialize (H12 key). specialize (H23 key).
  destruct (od_get d1 key) as [[]|], (od_get d2 key) as [[]|],
    (od_get d3 key) as [[]|]; try done. congruence.
Qed.

Lemma od_append_keeps d key x d' : od_append d key x = Ok d' → keeps d d'.
Proof.
  unfold od_append. destruct (od_get d key) as [[l|name]|] eqn:E; try discriminate.
  intros [= <-]. split; [|apply od_set_NoDup].
  intros k. rewrite od_get_set. destruct (decide (k = key)) as [->|].
  - by rewrite E.
  - by destruct (od_get d k) as [[]|].
Qed.

Lemma place_element_keeps sod idx groups element x st st' :
  place_element sod idx groups element x st = Ok st' → keeps st.1 st'.1.
Proof.
  revert idx st. induction groups as [|g groups IH]; intros idx st H; simpl in H.
  - injection H as <-. apply keeps_refl.
  - apply res_bind_Ok in H as (st1 & H1 & H2).
    apply keeps_trans with st1.1; [|by eapply IH].
    destruct (containsElement g element).
    + apply res_bind_Ok in H1 as (d1 & Ha & [= <-]). by eapply od_append_keeps.
    + injection H1 as <-. apply keeps_refl.
Qed.

Lemma analyze_element_keeps coordinates derivative sod groups st element st' :
  analyze_element coordinates derivative sod groups st element = Ok st' →
  keeps st.1 st'.1.
Proof.
  unfold analyze_element.
  destruct (sample_element coordinates derivative element) as [x|];
    [|intros [= <-]; apply keeps_refl].
  intros H. apply res_bind_Ok in H as ([d1 in_group] & H1 & H2).
  apply place_element_keeps in H1. simpl in H1.
  apply res_bind_Ok in H2 as (d2 & H2 & [= <-]). simpl.
  destruct in_group.
  - by injection H2 as <-.
  - eapply keeps_trans; [done|]. by eapply od_append_keeps.
Qed.

Lemma analyze_loop_keeps coordinates derivative sod groups elements st st' :
  for_each (analyze_element coordinates derivative sod groups) elements st = Ok st' →
  keeps st.1 st'.1.
Proof.
  apply (for_each_preserves (λ st st', keeps st.1 st'.1)).
  - intros ?. apply keeps_refl.
  - intros ? ? ?. apply keeps_trans.
  - intros ? ? ? _. apply analyze_element_keeps.
Qed.

Section declare.
Variable n : nat.

Lemma declare_groups_other groups idx d0 key :
  (∀ j g, groups !! j = Some g → getName g ≠ "marker" →
          key ≠ group_label (idx + j) (String.length (py_str n))
          ∧ key ≠ _group_svg_id (group_label (idx + j) (String.length (py_str n)))) →
  od_get (declare_groups (String.length (py_str n)) idx groups d0) key = od_get d0 key.
Proof.
  revert idx d0. induction groups as [|g groups IH]; intros idx d0 H; simpl; [done|].
  rewrite IH.
  - destruct (decide (getName g ≠ "marker")) as [Hg|]; [|done].
    destruct (H 0 g eq_refl Hg) as [HL HN]. rewrite Nat.add_0_r in HL, HN.
    by rewrite !od_get_set_ne.
  - intros j g' Hj Hg'. replace (S idx + j) with (idx + S j) by lia.
    by apply (H (S j) g').
Qed.

Lemma declare_groups_entry groups idx d0 j g :
  idx + length groups ≤ n → groups !! j = Some g → getName g ≠ "marker" →
  od_get (declare_groups (String.length (py_str n)) idx groups d0)
    (group_label (idx + j) (String.length (py_str n)))
  = Some (PathList [])
  ∧ od_get (declare_groups (String.length (py_str n)) idx groups d0)
      (_group_svg_id (group_label (idx + j) (String.length (py_str n))))
    = Some (GroupName (getName g)).
Proof.
  revert idx d0 j. induction groups as [|g0 groups IH]; intros idx d0 j Hlen Hj Hg;
    [done|]. simpl in Hlen.
  destruct j as [|j]; simpl in Hj |- *.
  - injection Hj as ->. rewrite Nat.add_0_r.
    destruct (decide (getName g ≠ "marker")); [|done].
    assert (Hj' : ∀ j g', groups !! j = Some g' → idx < n ∧ S idx + j < n).
    { intros j g' Hj'%lookup_lt_Some. lia. }
    split.
    + rewrite declare_groups_other.
      * rewrite od_get_set_ne, od_get_set_eq; [done|].
        apply group_label_not_svg_id; lia.
      * intros j g' Hg' _. destruct (Hj' _ _ Hg'). split.
        -- intros E%group_label_inj; lia.
        -- by apply group_label_not_svg_id.
    + rewrite declare_groups_other; [by rewrite od_get_set_eq|].
      intros j g' Hg' _. destruct (Hj' _ _ Hg'). split.
      * intros E. symmetry in E. revert E. by apply group_label_not_svg_id.
      * intros E%group_svg_id_inj; lia.
  - replace (idx + S j) with (S idx + j) by lia. apply IH; [lia|done..].
Qed.

Lemma declare_groups_origin groups idx d0 key v :
  od_get (declare_groups (String.length (py_str n)) idx groups d0) key = Some v →
  od_get d0 key = Some v
  ∨ ∃ j g, groups !! j = Some g ∧ getName g ≠ "marker"
           ∧ ((key = group_label (idx + j) (String.length (py_str n))
               ∧ v = PathList [])
              ∨ (key = _group_svg_id (group_label (idx + j) (String.length (py_str n)))
                 ∧ v = GroupName (getName g))).
Proof.
  revert idx d0. induction groups as [|g groups IH]; intros idx d0 H; simpl in H;
    [by left|].
  apply IH in H as [H|(j & g' & Hj & Hg' & Hkey)].
  - destruct (decide (getName g ≠ "marker")) as [Hg|]; [|by left].
    rewrite !od_get_set in H.
    destruct (decide (key = _group_svg_id (group_label idx (String.length (py_str n)))))
      as [->|].
    { injection H as <-. right. exists 0, g. rewrite Nat.add_0_r. auto. }
    destruct (decide (key = group_label idx (String.length (py_str n)))) as [->|];
      [|by left].
    injection H as <-. right. exists 0, g. rewrite Nat.add_0_r. auto.
  - right. exists (S j), g'. replace (idx + S j) with (S idx + j) by lia. auto.
Qed.

Lemma declare_groups_NoDup groups idx d0 :
  NoDup (od_keys d0) →
  NoDup (od_keys (declare_groups (String.length (py_str n)) idx groups d0)).
Proof.
  revert idx d0. induction groups as [|g groups IH]; intros idx d0 H; simpl; [done|].
  apply IH. destruct (decide (getName g ≠ "marker")); [|done].
  by do 2 apply od_set_NoDup.
Qed.
End declare.

Lemma od_get_ungrouped_only (key : string) (v : pp_value) :
  od_get [("ungrouped", PathList [])] key = Some v →
  key = "ungrouped" ∧ v = PathList [].
Proof.
  simpl. destruct (decide (key = "ungrouped")); [|done]. by intros [= <-].
Qed.

(** What the sampler's dictionary holds when the mesh has elements. *)
Lemma analyze_elements_shape (region : Region) (cf : string)
    (pp : odict string pp_value) (e : nat) (es : list nat) :
  findMeshByDimension3 region = Some (e :: es) →
  _analyze_elements region cf = Ok pp →
  let gl := get_group_list region in
  let sod := String.length (py_str (length gl)) in
  NoDup (od_keys pp)
  ∧ (∀ i g, gl !! i = Some g → getName g ≠ "marker" →
       (∃ l, od_get pp (group_label i sod) = Some (PathList l))
       ∧ od_get pp (_group_svg_id (group_label i sod)) = Some (GroupName (getName g)))
  ∧ (∀ i g, gl !! i = Some g → getName g = "marker" →
       od_get pp (group_label i sod) = None
       ∧ od_get pp (_group_svg_id (group_label i sod)) = None)
  ∧ (∀ key v, od_get pp key = Some v →
       (key = "ungrouped" ∧ ∃ l, v = PathList l)
       ∨ ∃ i g, gl !! i = Some g ∧ getName g ≠ "marker"
                ∧ ((key = group_label i sod ∧ ∃ l, v = PathList l)
                   ∨ (key = _group_svg_id (group_label i sod)
                      ∧ v = GroupName (getName g)))).
Proof.
  intros Hmesh H gl sod. unfold _analyze_elements in H. rewrite Hmesh in H.
  fold gl sod in H.
  set (D := declare_groups sod 0 gl [("ungrouped", PathList [])]) in H.
  apply res_bind_Ok in H as ([pp' assigned] & H & Hdel).
  assert (pp' = pp) as -> by (by destruct assigned; [injection Hdel|]).
  apply analyze_loop_keeps in H as [Hshape Hnd]. simpl in Hshape, Hnd.
  assert (HD : NoDup (od_keys D)).
  { apply declare_groups_NoDup. apply NoDup_singleton. }
  split; [auto|]. split; [|split].
  - intros i g Hi Hg.
    destruct (declare_groups_entry (length gl) gl 0 [("ungrouped", PathList [])]
                i g ltac:(simpl; lia) Hi Hg) as [HL HN].
    simpl in HL, HN. fold sod D in HL, HN.
    pose proof (Hshape (group_label i sod)) as SL. rewrite HL in SL.
    pose proof (Hshape (_group_svg_id (group_label i sod))) as SN. rewrite HN in SN.
    split.
    + destruct (od_get pp (group_label i sod)) as [[l|]|]; try done. by exists l.
    + destruct (od_get pp (_group_svg_id (group_label i sod))) as [[l|]|]; try done.
      by subst.
  - intros i g Hi Hg.
    assert (Hother : ∀ j g', gl !! j = Some g' → getName g' ≠ "marker" →
                     i < length gl ∧ j < length gl ∧ i ≠ j).
    { intros j g' Hj Hg'. pose proof (lookup_lt_Some _ _ _ Hi).
      pose proof (lookup_lt_Some _ _ _ Hj). repeat split; try done.
      intros ->. congruence. }
    assert (HL : od_get D (group_label i sod) = None).
    { unfold D, sod. rewrite (declare_groups_other (length gl)).
      - simpl. destruct (decide (group_label i sod = "ungrouped")) as [E|]; [|done].
        by apply group_label_not_ungrouped in E.
      - intros j g' Hj Hg'. destruct (Hother _ _ Hj Hg') as (? & ? & ?). simpl. split.
        + intros E%group_label_inj; done.
        + by apply group_label_not_svg_id. }
    assert (HN : od_get D (_group_svg_id (group_label i sod)) = None).
    { unfold D, sod. rewrite (declare_groups_other (length gl)).
      - simpl. destruct (decide (_ = "ungrouped")) as [E|]; [|done].
        apply group_svg_id_not_ungrouped in E; [done|].
        by eapply lookup_lt_Some.
      - intros j g' Hj Hg'. destruct (Hother _ _ Hj Hg') as (? & ? & ?). simpl. split.
        + intros E. symmetry in E. revert E. by apply group_label_not_svg_id.
        + intros E%group_svg_id_inj; done. }
    pose proof (Hshape (group_label i sod)) as SL. rewrite HL in SL.
    pose proof (Hshape (_group_svg_id (group_label i sod))) as SN. rewrite HN in SN.
    split.
    + by destruct (od_get pp (group_label i sod)).
    + by destruct (od_get pp (_group_svg_id (group_label i sod))).
  - intros key v Hv. pose proof (Hshape key) as S. rewrite Hv in S.
    destruct (od_get D key) as [v'|] eqn:HD'; [|done].
    apply declare_groups_origin in HD' as [H0|(j & g & Hj & Hg & Hkey)].
    + apply od_get_ungrouped_only in H0 as [-> ->]. left. split; [done|].
      destruct v as [l|]; [by exists l|done].
    + right. exists j, g. split; [done|]. split; [done|]. simpl in Hkey.
      destruct Hkey as [[-> ->]|[-> ->]].
      * left. split; [done|]. destruct v as [l|]; [by exists l|done].
      * right. split; [done|]. destruct v as [l|]; [done|]. by subst.
Qed.

(** ** C7: the width of the labels *)



(** ** C2: the SVG identifier of a group *)

(** C2 (amended). For every group not called "marker" of a scene whose
    mesh has elements, the SVG identifier is "nerve_feature_" followed by
    the zero-padded number NNN of the group (the text "group_" is replaced,
    not kept); it is recognised as a group identifier, it is what the
    path's title carries and the key of the group's feature, and the
    sampler's dictionary maps it to the group's display name. *)
Theorem C2_svg_identifier (region : Region) (cf : string)
    (pp : odict string pp_value) (e : nat) (es : list nat) (i : nat) (g : Group) :
  findMeshByDimension3 region = Some (e :: es) →
  _analyze_elements region cf = Ok pp →
  get_group_list region !! i = Some g →
  getName g ≠ "marker" →
  let size_of_digits := String.length (py_str (length (get_group_list region))) in
  let number := _group_number i size_of_digits in
  let id := _group_svg_id (group_label i size_of_digits) in
  id = "nerve_feature_" +:+ number
  ∧ String.length number = size_of_digits
  ∧ digits_only number = true
  ∧ _is_group_svg_id id = true
  ∧ centreline_title (group_label i size_of_digits) = ".centreline id(" +:+ id +:+ ")"
  ∧ od_get pp id = Some (GroupName (getName g))
  ∧ ∀ reversed_map fs names,
      centreline_features pp reversed_map = Ok (fs, names) →
      ∃ models, fs !! id = Some (Centreline (GroupName (getName g)) models).
Proof.
  intros Hmesh Hpp Hi Hg sod number id.
  pose proof (lookup_lt_Some _ _ _ Hi) as Hlt.
  destruct (analyze_elements_shape _ _ _ _ _ Hmesh Hpp) as (_ & Hnamed & _).
  destruct (Hnamed i g Hi Hg) as [_ Hname]. fold sod id in Hname.
  assert (Hid : id = "nerve_feature_" +:+ number).
  { unfold id, number, sod. rewrite group_svg_id_fixed, group_number_fixed; done. }
  assert (Hsvg : _is_group_svg_id id = true) by by apply group_svg_id_is_svg_id.
  split; [done|]. unfold number, sod. rewrite group_number_fixed by done.
  split; [apply fixed_length|]. split; [apply fixed_digits_only|].
  split; [done|]. split; [done|]. split; [done|].
  intros rm fs names Hcf. eexists.
  by apply (centreline_features_lookup _ _ _ _ _ _ Hcf Hname).
Qed.

(** ** Markers *)

Lemma marker_loop_spec randint cfield nfield ifield cc nodes i draws acc :
  marker_loop randint cfield nfield ifield cc nodes i draws acc
  = acc ++ imap (λ j node,
                   marker_at randint cfield nfield ifield cc (i + j)
                     (if isValid ifield then draws else draws + j) node)
             nodes.
Proof.
  revert i draws acc. induction nodes as [|node nodes IH]; intros i draws acc; simpl.
  - by rewrite app_nil_r.
  - destruct (evaluateReal cfield (NodeLocation node) cc) as [result values] eqn:E.
    assert (Hhead : marker_at randint cfield nfield ifield cc (i + 0)
                      (if isValid ifield then draws else draws + 0) node
                    = {| marker_id := "marker_" +:+ py_str node;
                         marker_values := take 2 values;
                         marker_name :=
                           if isValid nfield
                           then evaluateString nfield (NodeLocation node)
                           else Some ("Unnamed marker " +:+ py_str (i + 1));
                         marker_onto_id :=
                           (if isValid ifield
                            then (evaluateString ifield (NodeLocation node), draws)
                            else (Some ("UBERON:99" +:+ format_0_5 (randint draws)),
                                  S draws)).1 |}).
    { unfold marker_at. rewrite E, !Nat.add_0_r. by destruct (isValid ifield). }
    rewrite Hhead.
    destruct (isValid ifield) eqn:Ev; simpl; rewrite IH; rewrite <- app_assoc; simpl;
      do 2 f_equal; apply imap_ext; intros j node' _; simpl; rewrite ?Ev;
      f_equal; lia.
Qed.

Lemma calculate_markers_spec randint region nodes :
  markers_group region = Some nodes →
  _calculate_markers randint region
  = imap (λ j node,
            marker_at randint (findFieldByName region "marker_data_coordinates")
              (findFieldByName region "marker_data_name")
              (findFieldByName region "marker_data_id")
              (getNumberOfComponents (findFieldByName region "marker_data_coordinates"))
              j (if isValid (findFieldByName region "marker_data_id") then 0 else j)
              node)
      nodes.
Proof.
  intros H. unfold _calculate_markers. unfold markers_group in H. rewrite H.
  by rewrite marker_loop_spec.
Qed.

Lemma calculate_markers_none randint region :
  markers_group region = None → _calculate_markers randint region = [].
Proof.
  intros H. unfold _calculate_markers. unfold markers_group in H. by rewrite H.
Qed.

(** Every marker identifier is "marker_" followed by a number. *)
Lemma calculate_markers_ids randint region m :
  m ∈ _calculate_markers randint region →
  ∃ node, marker_id m = "marker_" +:+ py_str node.
Proof.
  destruct (markers_group region) as [nodes|] eqn:E.
  - rewrite (calculate_markers_spec _ _ _ E).
    intros (j & node & -> & _)%elem_of_lookup_imap_1.
    by exists node.
  - rewrite (calculate_markers_none _ _ E). intros H. inversion H.
Qed.

Lemma lt_pow5 (r : nat) : (Z.of_nat r ≤ 99999)%Z → r < 10 ^ 5.
Proof.
  intros H. apply Nat2Z.inj_lt. rewrite Nat2Z.inj_pow.
  change (Z.of_nat 10 ^ Z.of_nat 5)%Z with 100000%Z. lia.
Qed.

(** C8. For the [i]-th datapoint [node] of the marker subset (counting
    from 0), when every random draw lies in [1, 99999]: the marker's SVG
    identifier is "marker_" followed by the datapoint's identifier; without
    a name field its name is "Unnamed marker" followed by [i + 1]; without
    an identifier field its ontology identifier is "UBERON:99" followed by
    five decimal digits denoting a number in [1, 99999]. *)
Theorem C8_marker_defaults (randint : nat → nat) (region : Region)
    (nodes : list nat) (i node : nat) :
  (∀ k, (1 ≤ Z.of_nat (randint k) ≤ 99999)%Z) →
  markers_group region = Some nodes →
  nodes !! i = Some node →
  ∃ m, _calculate_markers randint region !! i = Some m
       ∧ marker_id m = "marker_" +:+ py_str node
       ∧ (isValid (findFieldByName region "marker_data_name") = false →
          marker_name m = Some ("Unnamed marker " +:+ py_str (i + 1)))
       ∧ (isValid (findFieldByName region "marker_data_id") = false →
          ∃ digits, marker_onto_id m = Some ("UBERON:99" +:+ digits)
                    ∧ String.length digits = 5
                    ∧ digits_only digits = true
                    ∧ (1 ≤ Z.of_nat (parse_nat digits) ≤ 99999)%Z).
Proof.
  intros Hrand Hgroup Hnode. rewrite (calculate_markers_spec _ _ _ Hgroup).
  eexists. split; [rewrite list_lookup_imap, Hnode; reflexivity|].
  split; [done|]. split.
  - intros Hname. simpl. by rewrite Hname.
  - intros Hid. simpl. rewrite Hid. eexists. split; [done|].
    unfold format_0_5. destruct (Hrand i) as [Hlo Hhi].
    rewrite rjust_py_str by (by apply lt_pow5 || lia).
    split; [apply fixed_length|]. split; [apply fixed_digits_only|].
    rewrite parse_fixed by by apply lt_pow5. done.
Qed.

Lemma C8_marker_defaults_witness :
  let region :=
    {| findFieldByName := λ _, {| isValid := false; getNumberOfComponents := 0;
                                  evaluateReal := λ _ _, (0%Z, []);
                                  evaluateString := λ _, None |};
       createFieldDerivative := λ f _, f;
       findMeshByDimension3 := Some [];
       get_group_list := [];
       findDatapointGroup := λ name, if decide (name = "marker") then Some [7] else None |} in
  ∃ m, _calculate_markers (λ _, 42) region !! 0 = Some m
       ∧ marker_id m = "marker_7"
       ∧ marker_name m = Some "Unnamed marker 1"
       ∧ marker_onto_id m = Some "UBERON:9900042".
Proof.
  intros region.
  destruct (C8_marker_defaults (λ _, 42) region [7] 0 7
              ltac:(intros; simpl; lia) eq_refl eq_refl)
    as (m & Hm & Hid & Hname & Honto).
  exists m. split; [done|]. split; [done|]. split; [by apply Hname|].
  injection Hm as <-. reflexivity.
Defined.

(** ** Bezier data and SVG elements *)



Lemma bezier_loop_keys (l : odict string pp_value) (bez0 bez : odict string (list bezier)) :
  for_each bezier_body l bez0 = Ok bez →
  ∀ key, key ∈ od_keys bez →
         key ∈ od_keys bez0 ∨ ∃ x xs, (key, PathList (x :: xs)) ∈ l.
Proof.
  revert bez0. induction l as [|[k v] l IH]; intros bez0 H key Hkey; simpl in H.
  - injection H as <-. by left.
  - apply res_bind_Ok in H as (bez1 & H1 & H2).
    destruct (IH _ H2 key Hkey) as [Hin|(x & xs & Hin)].
    + unfold bezier_body in H1. simpl in H1.
      destruct v as [[|x xs]|name]; try (injection H1 as <-; by left).
      apply res_bind_Ok in H1 as (bs & _ & [= <-]).
      apply od_keys_set in Hin as [->|Hin]; [|by left].
      right. exists x, xs. left.
    + right. exists x, xs. by right.
Qed.

Lemma bezier_keys (pp : odict string pp_value) (bez : odict string (list bezier)) (key : string) :
  _calculate_bezier_control_points pp = Ok bez → key ∈ od_keys bez →
  ∃ x xs, (key, PathList (x :: xs)) ∈ pp.
Proof.
  intros H Hkey. destruct (bezier_loop_keys _ _ _ H key Hkey) as [Hin|?]; [|done].
  inversion Hin.
Qed.







Lemma marker_features_other (fs : gmap string feature) (markers : list marker) (key : string) :
  (∀ m, m ∈ markers → marker_id m ≠ key) →
  marker_features fs markers !! key = fs !! key.
Proof.
  unfold marker_features. revert fs.
  induction markers as [|m markers IH]; intros fs H; simpl; [done|].
  rewrite IH.
  - apply lookup_insert_ne. apply H. left.
  - intros m' Hm'. apply H. by right.
Qed.

Lemma marker_features_marker (fs : gmap string feature) (markers : list marker) (m : marker) :
  m ∈ markers →
  ∃ m', m' ∈ markers ∧ marker_id m' = marker_id m
        ∧ marker_features fs markers !! marker_id m
          = Some (MarkerFeature (marker_name m') (marker_onto_id m') "orange").
Proof.
  unfold marker_features.
  induction markers as [|m0 markers IH] using rev_ind; intros Hin; [inversion Hin|].
  rewrite foldl_app. simpl.
  destruct (decide (marker_id m0 = marker_id m)) as [E|Hne].
  - exists m0. split; [apply elem_of_app; right; left|]. split; [done|].
    rewrite <- E. by rewrite lookup_insert_eq.
  - apply elem_of_app in Hin as [Hin|Hin].
    + destruct (IH Hin) as (m' & Hm' & Hid & Hl).
      exists m'. split; [apply elem_of_app; by left|]. split; [done|].
      by rewrite lookup_insert_ne.
    + apply list_elem_of_singleton in Hin as ->. done.
Qed.

(** ** C10: the position taken by the group "marker" *)

(** C10. When the group at position [k] of the group list is called
    "marker" and the mesh has elements, the sampler gives it no label entry
    and no name entry, it gets no Bezier data and no centreline feature;
    yet every later group that is not called "marker" is labelled with its
    own position: the number in its label group_NNN reads [j + 1], the
    1-based position in the full list, so the number [k + 1] is skipped. *)
Theorem C10_marker_group_index (region : Region) (cf : string)
    (pp : odict string pp_value) (e : nat) (es : list nat) (k : nat) (m : Group) :
  findMeshByDimension3 region = Some (e :: es) →
  _analyze_elements region cf = Ok pp →
  get_group_list region !! k = Some m →
  getName m = "marker" →
  let size_of_digits := String.length (py_str (length (get_group_list region))) in
  (od_get pp (group_label k size_of_digits) = None
   ∧ od_get pp (_group_svg_id (group_label k size_of_digits)) = None
   ∧ (∀ bez, _calculate_bezier_control_points pp = Ok bez →
             od_get bez (group_label k size_of_digits) = None)
   ∧ (∀ reversed_map fs names,
         centreline_features pp reversed_map = Ok (fs, names) →
         fs !! (_group_svg_id (group_label k size_of_digits)) = None))
  ∧ ∀ j g, k < j → get_group_list region !! j = Some g → getName g ≠ "marker" →
      (∃ l, od_get pp (group_label j size_of_digits) = Some (PathList l))
      ∧ od_get pp (_group_svg_id (group_label j size_of_digits))
        = Some (GroupName (getName g))
      ∧ group_label j size_of_digits = "group_" +:+ _group_number j size_of_digits
      ∧ String.length (_group_number j size_of_digits) = size_of_digits
      ∧ parse_nat (_group_number j size_of_digits) = j + 1.
Proof.
  intros Hmesh Hpp Hk Hm sod.
  destruct (analyze_elements_shape _ _ _ _ _ Hmesh Hpp) as (Hnd & Hnamed & Hmarker & _).
  destruct (Hmarker k m Hk Hm) as [HL HN]. fold sod in HL, HN.
  split.
  - split; [done|]. split; [done|]. split.
    + intros bez Hbez.
      destruct (od_get bez (group_label k sod)) eqn:E; [|done].
      apply od_get_Some_key in E.
      destruct (bezier_keys _ _ _ Hbez E) as (x & xs & Hin).
      apply (od_elem_get _ _ _ Hnd) in Hin. congruence.
    + intros rm fs names Hcf.
      destruct (fs !! (_group_svg_id (group_label k sod))) as [f|] eqn:E; [|done].
      destruct (centreline_features_only _ _ _ _ _ _ Hcf E) as (label & Hl & _).
      congruence.
  - intros j g Hkj Hj Hg. destruct (Hnamed j g Hj Hg) as [HLj HNj].
    pose proof (lookup_lt_Some _ _ _ Hj) as Hlt.
    split; [done|]. split; [done|]. split; [done|].
    unfold sod. rewrite group_number_fixed by done.
    split; [apply fixed_length|].
    destruct (py_str_length_bounds (length (get_group_list region)) ltac:(lia)) as [_ Hhi].
    apply parse_fixed. lia.
Qed.

Lemma C10_marker_group_index_witness :
  od_get [("ungrouped", PathList []);
          ("group_1", PathList [(([1; 0; 0], [1; 0; 0]), ([2; 0; 0], [1; 0; 0]))]%Q);
          ("nerve_feature_1", GroupName "vagus");
          ("group_3", PathList []);
          ("nerve_feature_3", GroupName "empty branch")]
    (group_label 1 1) = None
  ∧ parse_nat (_group_number 2 1) = 3.
Proof.
  destruct (C10_marker_group_index example_scene "coordinates" _ 1 [] 1
              (group_of "marker" []) eq_refl eq_refl eq_refl eq_refl)
    as [(H1 & _) H2].
  split; [exact H1|].
  destruct (H2 2 (group_of "empty branch" []) ltac:(lia) eq_refl ltac:(discriminate))
    as (_ & _ & _ & _ & H).
  exact H.
Defined.

(** ** C9: a declared group without samples *)

Section export_facts.
Variable svg_path_bboxes : list svg_element → list bbox_t.
Variable randint : nat → nat.

Lemma export_Ok fuel region csv r :
  export_flatmapsvg_from_scene svg_path_bboxes randint fuel region csv = Ok r →
  ∃ pp bez reversed_map fs names,
    _analyze_elements region "coordinates" = Ok pp
    ∧ _calculate_bezier_control_points pp = Ok bez
    ∧ _write_into_svg_format fuel bez (_calculate_markers randint region)
      = Ok (exported_svg r)
    ∧ exported_view_box r = view_box (svg_path_bboxes (exported_svg r))
    ∧ load_annotations csv = Ok reversed_map
    ∧ centreline_features pp reversed_map = Ok (fs, names)
    ∧ features (exported_properties r)
      = marker_features fs (_calculate_markers randint region)
    ∧ networks (exported_properties r) = [].
Proof.
  unfold export_flatmapsvg_from_scene. intros H.
  apply res_bind_Ok in H as (pp & Hpp & H).
  apply res_bind_Ok in H as (bez & Hbez & H).
  apply res_bind_Ok in H as (svg & Hsvg & H).
  apply res_bind_Ok in H as (rm & Hrm & H).
  apply res_bind_Ok in H as ([fs names] & Hcf & H).
  injection H as <-. exists pp, bez, rm, fs, names. by repeat split.
Qed.

End export_facts.


(** ** C5: markers without a coordinate field *)

Lemma write_marker_short svg m :
  length (marker_values m) < 2 → write_marker svg m = svg.
Proof.
  unfold write_marker, py_index. destruct (marker_values m) as [|x [|y v]]; simpl; [done..|lia].
Qed.

Lemma write_markers_short markers svg :
  (∀ m, m ∈ markers → length (marker_values m) < 2) →
  foldl write_marker svg markers = svg.
Proof.
  revert svg. induction markers as [|m markers IH]; intros svg H; simpl; [done|].
  rewrite write_marker_short by (apply H; left). apply IH.
  intros m' Hm'. apply H. by right.
Qed.

Lemma calculate_markers_values randint region m :
  m ∈ _calculate_markers randint region →
  ∃ node count,
    marker_values m
    = take 2 (evaluateReal (findFieldByName region "marker_data_coordinates")
                (NodeLocation node) count).2.
Proof.
  destruct (markers_group region) as [nodes|] eqn:E.
  - rewrite (calculate_markers_spec _ _ _ E).
    intros (j & node & -> & _)%elem_of_lookup_imap_1. by eexists _, _.
  - rewrite (calculate_markers_none _ _ E). intros H. inversion H.
Qed.

Lemma analyze_without_markers region cf :
  _analyze_elements (without_markers region) cf = _analyze_elements region cf.
Proof. reflexivity. Qed.

Lemma calculate_markers_without randint region :
  _calculate_markers randint (without_markers region) = [].
Proof. reflexivity. Qed.

Section export_markers.
Variable svg_path_bboxes : list svg_element → list bbox_t.
Variable randint : nat → nat.

(** C5 (amended). When the scene has a marker subset and the marker
    coordinate field is absent, so that its evaluation gives fewer than two
    values, the export does not fail on that account: it returns exactly
    when the export of the same scene without the marker subset returns,
    with the same SVG elements and view box (every such marker is left out
    of the SVG), while every marker still gets its feature. *)
Theorem C5_absent_marker_coordinates (fuel : nat) (region : Region)
    (csv : option csv_rows) (nodes : list nat) :
  markers_group region = Some nodes →
  isValid (findFieldByName region "marker_data_coordinates") = false →
  (∀ loc count,
     length (evaluateReal (findFieldByName region "marker_data_coordinates")
               loc count).2 < 2) →
  length (_calculate_markers randint region) = length nodes
  ∧ export_flatmapsvg_from_scene svg_path_bboxes randint fuel region csv
    = match export_flatmapsvg_from_scene svg_path_bboxes randint fuel
              (without_markers region) csv with
      | Ok r =>
          Ok {| exported_svg := exported_svg r;
                exported_view_box := exported_view_box r;
                exported_properties :=
                  {| features := marker_features (features (exported_properties r))
                                   (_calculate_markers randint region);
                     networks := [] |} |}
      | Raise e => Raise e
      | Timeout => Timeout
      end.
Proof.
  intros Hgroup _ Hshort. split.
  { rewrite (calculate_markers_spec _ _ _ Hgroup). apply length_imap. }
  assert (Hdrop : ∀ svg, foldl write_marker svg (_calculate_markers randint region) = svg).
  { intros svg. apply write_markers_short.
    intros m (node & count & ->)%calculate_markers_values.
    rewrite length_take. specialize (Hshort (NodeLocation node) count). lia. }
  unfold export_flatmapsvg_from_scene.
  rewrite analyze_without_markers, calculate_markers_without.
  destruct (_analyze_elements region "coordinates") as [pp| |]; simpl; [|done..].
  destruct (_calculate_bezier_control_points pp) as [bez| |]; simpl; [|done..].
  unfold _write_into_svg_format.
  destruct (for_each (write_group fuel) bez []) as [svg| |]; simpl; [|done..].
  rewrite Hdrop.
  destruct (load_annotations csv) as [rm| |]; simpl; [|done..].
  destruct (centreline_features pp rm) as [[fs names]| |]; simpl; done.
Qed.
End export_markers.

Lemma C5_absent_marker_coordinates_witness :
  ∃ r, export_flatmapsvg_from_scene example_bboxes (λ _, 42) 5 example_scene None = Ok r
       ∧ exported_svg r
         = [SvgPath [MoveTo 1 0; CurveTo (4 # 3) (0 # 3) (5 # 3) (0 # 3) 2 0]
              "#01136e" (Some ".centreline id(nerve_feature_1)")].
Proof.
  destruct (C5_absent_marker_coordinates example_bboxes (λ _, 42) 5 example_scene None [7]
              eq_refl eq_refl ltac:(intros; simpl; lia)) as [_ H].
  eexists. split; [exact H|]. reflexivity.
Defined.

(** C5 as stated fails: with a marker datapoint and no marker coordinate
    field the export returns, the document holds no circle, and the marker
    still has its feature. *)
Lemma C5_counterexample :
  ∃ r, export_flatmapsvg_from_scene example_bboxes (λ _, 42) 5 example_scene None = Ok r
       ∧ markers_group example_scene = Some [7]
       ∧ isValid (findFieldByName example_scene "marker_data_coordinates") = false
       ∧ exported_svg r
         = [SvgPath [MoveTo 1 0; CurveTo (4 # 3) (0 # 3) (5 # 3) (0 # 3) 2 0]
              "#01136e" (Some ".centreline id(nerve_feature_1)")]
       ∧ features (exported_properties r) !! "marker_7"
         = Some (MarkerFeature (Some "Unnamed marker 1") (Some "UBERON:9900042") "orange").
Proof. eexists. split; [vm_compute; reflexivity|]. repeat split. Qed.

(** ** C2: the form of the identifier *)

Lemma C2_svg_identifier_witness :
  _group_svg_id (group_label 0 1) = "nerve_feature_" +:+ _group_number 0 1
  ∧ od_get [("ungrouped", PathList []);
            ("group_1", PathList [(([1; 0; 0], [1; 0; 0]), ([2; 0; 0], [1; 0; 0]))]%Q);
            ("nerve_feature_1", GroupName "vagus");
            ("group_3", PathList []);
            ("nerve_feature_3", GroupName "empty branch")]
      (_group_svg_id (group_label 0 1)) = Some (GroupName "vagus").
Proof.
  destruct (C2_svg_identifier example_scene "coordinates" _ 1 [] 0 (group_of "vagus" [1])
              eq_refl eq_refl eq_refl ltac:(discriminate))
    as (H1 & _ & _ & _ & _ & H2 & _).
  split; [exact H1|exact H2].
Defined.

(** C2 as stated fails: the identifier of the first group of the example
    scene is "nerve_feature_1", which does not start with
    "nerve_feature_group_". *)
Lemma C2_counterexample :
  ∃ pp, _analyze_elements example_scene "coordinates" = Ok pp
        ∧ od_get pp "nerve_feature_1" = Some (GroupName "vagus")
        ∧ _group_svg_id (group_label 0 1) = "nerve_feature_1"
        ∧ startswith (_group_svg_id (group_label 0 1)) "nerve_feature_group_" = false
        ∧ ∀ key, key ∈ od_keys pp → startswith key "nerve_feature_group_" = false.
Proof.
  eexists. split; [vm_compute; reflexivity|]. repeat split.
  intros key Hkey. unfold od_keys in Hkey. simpl in Hkey.
  repeat (apply elem_of_cons in Hkey as [->|Hkey]; [reflexivity|]).
  inversion Hkey.
Qed.

(** ** C1: path stitching *)

Lemma find_mono (fuel fuel' : nat) (parent : UnionFind.t) (i : Z) r :
  fuel ≤ fuel' → UnionFind.find fuel parent i = Ok r →
  UnionFind.find fuel' parent i = Ok r.
Proof.
  revert fuel' parent i r. induction fuel as [|fuel IH]; intros fuel' parent i r Hle H;
    [discriminate|].
  destruct fuel' as [|fuel']; [lia|]. simpl in H |- *.
  destruct (py_getitem parent i) as [p| |]; simpl in *; try discriminate.
  destruct (decide (p = (-1)%Z)); [done|].
  apply res_bind_Ok in H as ([r1 parent1] & H1 & H2).
  by rewrite (IH fuel' _ _ _ ltac:(lia) H1).
Qed.

Lemma union_mono (fuel fuel' : nat) (parent : UnionFind.t) (i j : Z) r :
  fuel ≤ fuel' → UnionFind.union fuel parent i j = Ok r →
  UnionFind.union fuel' parent i j = Ok r.
Proof.
  intros Hle H. unfold UnionFind.union in *.
  apply res_bind_Ok in H as ([ri p1] & H1 & H).
  rewrite (find_mono _ _ _ _ _ Hle H1). simpl.
  apply res_bind_Ok in H as ([rj p2] & H2 & H).
  by rewrite (find_mono _ _ _ _ _ Hle H2).
Qed.

Lemma link_body_mono (fuel fuel' : nat) begin_hash uf ic r :
  fuel ≤ fuel' → link_body fuel begin_hash uf ic = Ok r →
  link_body fuel' begin_hash uf ic = Ok r.
Proof.
  intros Hle H. unfold link_body in *.
  destruct (_create_key (b3 ic.2)) as [y| |]; simpl in *; try discriminate.
  destruct (begin_hash !! y) as [s|]; [|done].
  apply res_bind_Ok in H as ([root uf'] & H1 & H).
  by rewrite (union_mono _ _ _ _ _ _ Hle H1).
Qed.

Lemma collect_body_mono (fuel fuel' : nat) st i r :
  fuel ≤ fuel' → collect_body fuel st i = Ok r → collect_body fuel' st i = Ok r.
Proof.
  intros Hle H. unfold collect_body in *.
  apply res_bind_Ok in H as ([root uf'] & H1 & H).
  by rewrite (find_mono _ _ _ _ _ Hle H1).
Qed.

Lemma follow_mono (fuel fuel' : nat) curve begin_hash key seg r :
  fuel ≤ fuel' → follow fuel curve begin_hash key seg = Ok r →
  follow fuel' curve begin_hash key seg = Ok r.
Proof.
  revert fuel' key seg. induction fuel as [|fuel IH]; intros fuel' key seg Hle H;
    [discriminate|].
  destruct fuel' as [|fuel']; [lia|]. simpl in H |- *.
  destruct (begin_hash !! key) as [s|]; [|done].
  destruct (py_index curve s) as [c| |]; simpl in *; try discriminate.
  destruct (_create_key (b3 c)) as [key'| |]; simpl in *; try discriminate.
  destruct (decide (key = key')); [done|].
  apply IH; [lia|done].
Qed.

Lemma path_body_mono (fuel fuel' : nat) curve begin_hash segments s r :
  fuel ≤ fuel' → path_body fuel curve begin_hash segments s = Ok r →
  path_body fuel' curve begin_hash segments s = Ok r.
Proof.
  intros Hle H. unfold path_body in *.
  destruct (py_getitem curve s) as [c| |]; simpl in *; try discriminate.
  destruct (_create_key (b3 c)) as [key| |]; simpl in *; try discriminate.
  apply res_bind_Ok in H as (seg & H1 & H).
  by rewrite (follow_mono _ _ _ _ _ _ _ Hle H1).
Qed.

(** More fuel does not change a result. *)
Lemma connected_segments_mono (fuel fuel' : nat) (curve : list bezier) r :
  fuel ≤ fuel' → _connected_segments fuel curve = Ok r →
  _connected_segments fuel' curve = Ok r.
Proof.
  intros Hle H. unfold _connected_segments in *.
  destruct (build_begin_hash curve) as [begin_hash| |]; simpl in *; try discriminate.
  apply res_bind_Ok in H as (uf & H1 & H).
  unfold link_segments in *.
  rewrite (for_each_mono _ (link_body fuel' begin_hash) _ _ _
             (λ s x r, link_body_mono fuel fuel' begin_hash s x r Hle) H1). simpl.
  apply res_bind_Ok in H as ([sets uf'] & H2 & H).
  unfold collect_sets in *.
  rewrite (for_each_mono _ (collect_body fuel') _ _ _
             (λ s x r, collect_body_mono fuel fuel' s x r Hle) H2). simpl.
  apply (for_each_mono _ _ _ _ _
           (λ s x r, path_body_mono fuel fuel' curve begin_hash s x r Hle) H).
Qed.

Lemma fan_in_result (fuel : nat) :
  _connected_segments (3 + fuel) fan_in
  = Ok [[straight 0 1 1 0; straight 1 0 2 0]].
Proof. apply (connected_segments_mono 3); [lia|]. vm_compute. reflexivity. Qed.

(** No amount of fuel gives the fan-in another result. *)
Lemma fan_in_only_result (fuel : nat) r :
  _connected_segments fuel fan_in = Ok r →
  r = [[straight 0 1 1 0; straight 1 0 2 0]].
Proof.
  intros H.
  pose proof (connected_segments_mono fuel (3 + fuel) _ _ ltac:(lia) H) as H'.
  rewrite fan_in_result in H'. congruence.
Qed.

(** C1, on the fan-in: whatever the fuel from 3 on, the only path is made of
    the second and third segments; the first segment is in no path. *)
Theorem C1_fan_in_loses_segment (fuel : nat) :
  _connected_segments (3 + fuel) fan_in
  = Ok [[straight 0 1 1 0; straight 1 0 2 0]]
  ∧ straight 0 0 1 0 ∈ fan_in
  ∧ straight 0 0 1 0 ∉ concat [[straight 0 1 1 0; straight 1 0 2 0]].
Proof.
  split; [apply fan_in_result|].
  split; [left|]. simpl. intros H.
  repeat (apply elem_of_cons in H as [H|H]; [discriminate|]).
  inversion H.
Qed.

(** A segment that ends where it starts is put twice into its path. *)
Lemma self_loop_repeats_segment (fuel : nat) :
  _connected_segments (1 + fuel) self_loop
  = Ok [[straight 0 0 0 0; straight 0 0 0 0]].
Proof. apply (connected_segments_mono 1); [lia|]. vm_compute. reflexivity. Qed.

Lemma res_bind_Ok_l {A B} (a : A) (k : A → res B) : res_bind (Ok a) k = k a.
Proof. reflexivity. Qed.

Lemma follow_two_cycle (fuel : nat) (seg : list bezier) :
  follow fuel two_cycle two_cycle_hash (1000000000000%Z, 0%Z) seg = Timeout
  ∧ follow fuel two_cycle two_cycle_hash (0%Z, 0%Z) seg = Timeout.
Proof.
  revert seg. induction fuel as [|fuel IH]; intros seg; [done|].
  split.
  - change (follow (S fuel) two_cycle two_cycle_hash (1000000000000%Z, 0%Z) seg)
      with (follow fuel two_cycle two_cycle_hash (0%Z, 0%Z) (seg ++ [straight 1 0 0 0])).
    apply IH.
  - change (follow (S fuel) two_cycle two_cycle_hash (0%Z, 0%Z) seg)
      with (follow fuel two_cycle two_cycle_hash (1000000000000%Z, 0%Z)
              (seg ++ [straight 0 0 1 0])).
    apply IH.
Qed.

(** Walking a cycle of two segments never ends: the guard of the walk only
    stops at a key that repeats at once. *)
Lemma two_cycle_never_returns (fuel : nat) :
  _connected_segments fuel two_cycle = Timeout.
Proof.
  destruct fuel as [|[|fuel]]; [vm_compute; reflexivity..|].
  assert (Hbh : build_begin_hash two_cycle = Ok two_cycle_hash) by (vm_compute; reflexivity).
  assert (Hlink : link_segments (S (S fuel)) two_cycle_hash two_cycle
                    (UnionFind.init (length two_cycle)) = Ok [(-1)%Z; 0%Z]).
  { unfold link_segments.
    apply (for_each_mono (link_body 2 two_cycle_hash)).
    - intros s x r. apply link_body_mono. lia.
    - vm_compute. reflexivity. }
  assert (Hsets : collect_sets (S (S fuel)) (length two_cycle) [(-1)%Z; 0%Z]
                  = Ok ([(0%Z, [0; 1])], [(-1)%Z; 0%Z])).
  { unfold collect_sets.
    apply (for_each_mono (collect_body 2)).
    - intros s x r. apply collect_body_mono. lia.
    - vm_compute. reflexivity. }
  unfold _connected_segments.
  rewrite Hbh, res_bind_Ok_l. cbv zeta.
  rewrite Hlink, res_bind_Ok_l, Hsets, res_bind_Ok_l.
  change (od_keys [(0%Z, [0; 1])]) with [0%Z].
  change (for_each ?f [0%Z] []) with (res_bind (f [] 0%Z) (for_each f [])).
  unfold path_body.
  change (py_getitem two_cycle 0) with (Ok (straight 0 0 1 0)).
  rewrite res_bind_Ok_l.
  change (_create_key (b3 (straight 0 0 1 0))) with (Ok (1000000000000%Z, 0%Z)).
  rewrite res_bind_Ok_l.
  by rewrite (proj1 (follow_two_cycle _ _)).
Qed.

(** ** Keys of points *)

Lemma py_index_Ok {A} (l : list A) (i : nat) (x : A) :
  py_index l i = Ok x ↔ l !! i = Some x.
Proof. unfold py_index. destruct (l !! i); split; congruence. Qed.


Lemma create_key_total (pt : vec) :
  2 ≤ length pt → ∃ k, _create_key pt = Ok k.
Proof.
  destruct pt as [|x [|y pt]]; simpl; try lia. intros _. by eexists.
Qed.




(** ** Path stitching: what a result is made of *)

Lemma enumerate_from_lookup {A} (k : nat) (l : list A) (i : nat) :
  enumerate_from k l !! i = (λ x, (k + i, x)) <$> l !! i.
Proof.
  revert k i. induction l as [|x l IH]; intros k [|i]; simpl; try done.
  - by rewrite Nat.add_0_r.
  - rewrite IH. destruct (l !! i); simpl; [|done]. do 2 f_equal. lia.
Qed.

Lemma elem_of_enumerate {A} (l : list A) (i : nat) (x : A) :
  (i, x) ∈ enumerate l ↔ l !! i = Some x.
Proof.
  unfold enumerate. rewrite list_elem_of_lookup. split.
  - intros (j & Hj). rewrite enumerate_from_lookup in Hj.
    destruct (l !! j) eqn:E; simpl in Hj; [|done]. by injection Hj as <- <-.
  - intros H. exists i. by rewrite enumerate_from_lookup, H.
Qed.

Lemma length_enumerate_from {A} (k : nat) (l : list A) :
  length (enumerate_from k l) = length l.
Proof. revert k. induction l; intros k; simpl; auto. Qed.

(** Every entry of the start-key table points at a segment with that start key. *)
Lemma begin_hash_loop_sound (curve : list bezier) (l : list (nat * bezier))
    (bh0 bh : gmap (Z * Z) nat) :
  (∀ i c, (i, c) ∈ l → curve !! i = Some c) →
  (∀ k s, bh0 !! k = Some s → ∃ c, curve !! s = Some c ∧ _create_key (b0 c) = Ok k) →
  for_each begin_hash_body l bh0 = Ok bh →
  ∀ k s, bh !! k = Some s → ∃ c, curve !! s = Some c ∧ _create_key (b0 c) = Ok k.
Proof.
  revert bh0. induction l as [|[i c] l IH]; intros bh0 Hl H0 H; simpl in H.
  - by injection H as <-.
  - apply res_bind_Ok in H as (bh1 & H1 & H2).
    unfold begin_hash_body in H1. apply res_bind_Ok in H1 as (key & Hkey & [= <-]).
    simpl in *. eapply IH; [| |exact H2].
    + intros i' c' Hin. apply Hl. by right.
    + intros k s. rewrite lookup_insert. case_decide as Hk.
      * intros [= <-]. subst k. exists c. split; [apply Hl; left|done].
      * apply H0.
Qed.

Lemma begin_hash_sound (curve : list bezier) (bh : gmap (Z * Z) nat) :
  build_begin_hash curve = Ok bh →
  ∀ k s, bh !! k = Some s → ∃ c, curve !! s = Some c ∧ _create_key (b0 c) = Ok k.
Proof.
  apply begin_hash_loop_sound.
  - intros i c. by rewrite elem_of_enumerate.
  - intros k s. by rewrite lookup_empty.
Qed.

Lemma chained_snoc (seg : list bezier) (c c' : bezier) (k : Z * Z) :
  chained seg → last seg = Some c →
  _create_key (b3 c) = Ok k → _create_key (b0 c') = Ok k →
  chained (seg ++ [c']).
Proof.
  intros Hch Hlast H3 H0 i x y Hx Hy.
  destruct (decide (S i < length seg)) as [Hlt|Hge].
  - rewrite lookup_app_l in Hx by lia. rewrite lookup_app_l in Hy by lia. eauto.
  - assert (i < length seg).
    { apply lookup_lt_Some in Hy. rewrite length_app in Hy. simpl in Hy. lia. }
    assert (S i = length seg) as E by lia.
    rewrite lookup_app_l in Hx by lia.
    rewrite lookup_app_r in Hy by lia. rewrite E, Nat.sub_diag in Hy.
    injection Hy as <-.
    rewrite last_lookup in Hlast. replace (pred (length seg)) with i in Hlast by lia.
    assert (x = c) as -> by congruence. eauto.
Qed.

Lemma follow_sound (fuel : nat) (curve : list bezier) (bh : gmap (Z * Z) nat)
    (key : Z * Z) (seg seg' : list bezier) :
  (∀ k s, bh !! k = Some s → ∃ c, curve !! s = Some c ∧ _create_key (b0 c) = Ok k) →
  path_inv curve key seg →
  follow fuel curve bh key seg = Ok seg' →
  seg' ≠ [] ∧ Forall (λ c, c ∈ curve) seg' ∧ chained seg'.
Proof.
  intros Hbh. revert key seg.
  induction fuel as [|fuel IH]; intros key seg Hinv H; [discriminate|].
  simpl in H. destruct Hinv as ((c & Hlast & Hkey) & Hall & Hch).
  assert (Hne : seg ≠ []) by (intros ->; discriminate).
  destruct (bh !! key) as [s|] eqn:Es; [|by injection H as <-].
  destruct (Hbh _ _ Es) as (c' & Hc' & Hk').
  apply res_bind_Ok in H as (c'' & Hidx & H).
  apply py_index_Ok in Hidx. assert (c'' = c') as -> by congruence.
  apply res_bind_Ok in H as (key' & Hkey' & H).
  assert (Hall' : Forall (λ c, c ∈ curve) (seg ++ [c'])).
  { apply Forall_app. split; [done|]. constructor; [|constructor].
    by eapply list_elem_of_lookup_2. }
  assert (Hch' : chained (seg ++ [c'])) by by eapply chained_snoc.
  destruct (decide (key = key')).
  - injection H as <-. split; [by destruct seg|done].
  - apply (IH key' (seg ++ [c'])); [|done].
    split; [|done]. exists c'. split; [by rewrite last_snoc|done].
Qed.

Lemma path_body_sound (fuel : nat) (curve : list bezier) (bh : gmap (Z * Z) nat)
    (segments segments' : list (list bezier)) (s : Z) :
  (∀ k s, bh !! k = Some s → ∃ c, curve !! s = Some c ∧ _create_key (b0 c) = Ok k) →
  path_body fuel curve bh segments s = Ok segments' →
  ∃ seg, segments' = segments ++ [seg]
         ∧ seg ≠ [] ∧ Forall (λ c, c ∈ curve) seg ∧ chained seg.
Proof.
  intros Hbh H. unfold path_body in H.
  apply res_bind_Ok in H as (c & Hc & H).
  apply res_bind_Ok in H as (key & Hkey & H).
  apply res_bind_Ok in H as (seg & Hseg & [= <-]).
  exists seg. split; [done|].
  apply (follow_sound _ _ _ _ _ _ Hbh) in Hseg; [done|].
  assert (c ∈ curve).
  { unfold py_getitem in Hc.
    destruct (0 <=? s)%Z; [|destruct (- Z.of_nat (length curve) <=? s)%Z; [|done]];
      apply py_index_Ok in Hc; by eapply list_elem_of_lookup_2. }
  split; [by exists c|]. split; [by repeat constructor|].
  intros [|i] x y Hx Hy; simpl in *; done.
Qed.

(** X2. Every path of a result is non-empty, made of segments of the input, and
    each of its segments starts at the key where the one before it ends. *)
Theorem connected_segments_sound (fuel : nat) (curve : list bezier)
    (paths : list (list bezier)) :
  _connected_segments fuel curve = Ok paths →
  Forall (λ path, path ≠ [] ∧ Forall (λ c, c ∈ curve) path ∧ chained path) paths.
Proof.
  unfold _connected_segments. intros H.
  apply res_bind_Ok in H as (bh & Hbh & H).
  apply res_bind_Ok in H as (uf & _ & H).
  apply res_bind_Ok in H as ([sets uf'] & _ & H).
  pose proof (begin_hash_sound _ _ Hbh) as Hsound.
  set (good := Forall (λ path : list bezier,
                 path ≠ [] ∧ Forall (λ c, c ∈ curve) path ∧ chained path)).
  assert (Hloop : good [] → good paths); [|apply Hloop; constructor].
  apply (for_each_preserves (λ acc acc', good acc → good acc')
           (path_body fuel curve bh) (od_keys sets)); [done|auto| |done].
  intros acc s acc' _ Hb Hacc.
  destruct (path_body_sound _ _ _ _ _ _ Hsound Hb) as (seg & -> & ?).
  apply Forall_app. split; [done|]. by constructor.
Qed.

Lemma connected_segments_sound_witness :
  Forall (λ path, path ≠ [] ∧ Forall (λ c, c ∈ fan_in) path ∧ chained path)
    [[straight 0 1 1 0; straight 1 0 2 0]].
Proof. exact (connected_segments_sound 3 fan_in _ eq_refl). Defined.

(** ** Loops and indices *)

Lemma for_each_total {A S} (body : S → A → res S) (l : list A) (s : S) :
  (∀ s x, x ∈ l → ∃ s', body s x = Ok s') → ∃ s', for_each body l s = Ok s'.
Proof.
  revert s. induction l as [|x l IH]; intros s H; simpl; [by eexists|].
  destruct (H s x) as (s1 & ->); [left|]. simpl. apply IH.
  intros s' y Hy. apply H. by right.
Qed.

Lemma for_each_fixed {A S} (body : S → A → res S) (l : list A) (s : S) :
  (∀ x, x ∈ l → body s x = Ok s) → for_each body l s = Ok s.
Proof.
  induction l as [|x l IH]; intros H; simpl; [done|].
  rewrite H by left. simpl. apply IH. intros y Hy. apply H. by right.
Qed.

Lemma py_getitem_nat {A} (l : list A) (i : nat) :
  py_getitem l (Z.of_nat i) = py_index l i.
Proof.
  unfold py_getitem. destruct (Z.leb_spec 0 (Z.of_nat i)); [|lia].
  by rewrite Nat2Z.id.
Qed.

Lemma py_setitem_nat {A} (l : list A) (i : nat) (x : A) :
  i < length l → py_setitem l (Z.of_nat i) x = Ok (<[i := x]> l).
Proof.
  intros H. unfold py_setitem. destruct (Z.leb_spec 0 (Z.of_nat i)); [|lia].
  destruct (Z.ltb_spec (Z.of_nat i) (Z.of_nat (length l))); [|lia].
  by rewrite Nat2Z.id.
Qed.

Lemma find_S (fuel : nat) (parent : UnionFind.t) (i : Z) :
  UnionFind.find (S fuel) parent i
  = (p ←? py_getitem parent i;
     if decide (p = (-1)%Z) then Ok (i, parent)
     else
       '(r, parent) ←? UnionFind.find fuel parent p;
       parent ←? py_setitem parent i r;
       r' ←? py_getitem parent i;
       Ok (r', parent)).
Proof. reflexivity. Qed.

Lemma py_index_Some {A} (l : list A) (i : nat) (x : A) :
  l !! i = Some x → py_index l i = Ok x.
Proof. by apply py_index_Ok. Qed.

Lemma find_root (fuel : nat) (parent : UnionFind.t) (i : nat) :
  parent !! i = Some (-1)%Z →
  UnionFind.find (S fuel) parent (Z.of_nat i) = Ok (Z.of_nat i, parent).
Proof.
  intros H. rewrite find_S, py_getitem_nat, (py_index_Some _ _ _ H), res_bind_Ok_l.
  by destruct (decide ((-1)%Z = (-1)%Z)).
Qed.

Lemma find_child (fuel : nat) (parent : UnionFind.t) (i r : nat) :
  parent !! i = Some (Z.of_nat r) → parent !! r = Some (-1)%Z →
  UnionFind.find (S (S fuel)) parent (Z.of_nat i) = Ok (Z.of_nat r, parent).
Proof.
  intros Hi Hr.
  rewrite find_S, py_getitem_nat, (py_index_Some _ _ _ Hi), res_bind_Ok_l.
  destruct (decide (Z.of_nat r = (-1)%Z)); [lia|].
  rewrite (find_root _ _ _ Hr), res_bind_Ok_l.
  rewrite py_setitem_nat by by eapply lookup_lt_Some.
  rewrite res_bind_Ok_l, list_insert_id by done.
  by rewrite py_getitem_nat, (py_index_Some _ _ _ Hi).
Qed.

Section odict_more.
Context {K : Type} `{EqDecision K} {V : Type}.
Implicit Types (d : odict K V) (k : K) (v : V).

(** A new key goes to the end. *)
Lemma od_set_fresh d k v : od_get d k = None → od_set d k v = d ++ [(k, v)].
Proof.
  induction d as [|[k0 v0] d IH]; simpl; [done|].
  destruct (decide (k = k0)); [done|]. intros H. by rewrite IH.
Qed.

Lemma od_set_set d k v v' : od_set (od_set d k v) k v' = od_set d k v'.
Proof.
  induction d as [|[k0 v0] d IH]; simpl.
  - by destruct (decide (k = k)).
  - destruct (decide (k = k0)) as [->|Hne]; simpl.
    + by destruct (decide (k0 = k0)).
    + destruct (decide (k = k0)); [done|]. by rewrite IH.
Qed.
End odict_more.

(** ** Path stitching on curves whose keys are known *)

Lemma enumerate_from_app {A} (k : nat) (l1 l2 : list A) :
  enumerate_from k (l1 ++ l2)
  = enumerate_from k l1 ++ enumerate_from (k + length l1) l2.
Proof.
  revert k. induction l1 as [|x l1 IH]; intros k; simpl.
  - by rewrite Nat.add_0_r.
  - rewrite IH. do 3 f_equal. lia.
Qed.

(** The table of start keys, when every segment has one. *)
Lemma begin_hash_complete (curve : list bezier) (starts : list (Z * Z)) :
  Forall2 (λ c k, _create_key (b0 c) = Ok k) curve starts →
  ∃ bh, build_begin_hash curve = Ok bh
        ∧ (∀ k, k ∉ starts → bh !! k = None)
        ∧ (NoDup starts → ∀ i k, starts !! i = Some k → bh !! k = Some i).
Proof.
  unfold build_begin_hash, enumerate. revert starts.
  induction curve as [|c curve IH] using rev_ind; intros starts H.
  - apply Forall2_nil_inv_l in H as ->. exists ∅. split; [done|].
    split; [intros; apply lookup_empty|]. intros _ i k Hk. done.
  - apply Forall2_app_inv_l in H as (ks & ks' & Hks & Hc & ->).
    apply Forall2_cons_inv_l in Hc as (k0 & ks'' & Hk0 & Hnil & ->).
    apply Forall2_nil_inv_l in Hnil as ->.
    destruct (IH ks Hks) as (bh & Hbh & Hnone & Hsome).
    exists (<[k0 := length curve]> bh). split; [|split].
    + rewrite enumerate_from_app, for_each_app, Hbh. simpl.
      unfold begin_hash_body. simpl. by rewrite Hk0.
    + intros k Hk. apply not_elem_of_app in Hk as [Hk Hk0'].
      rewrite lookup_insert_ne; [by apply Hnone|].
      intros ->. apply Hk0'. left.
    + intros Hnd i k Hi. apply NoDup_app in Hnd as (Hnd & Hdisj & _).
      pose proof (Forall2_length _ _ _ Hks) as Hlen.
      destruct (decide (i < length ks)) as [Hlt|Hge].
      * rewrite lookup_app_l in Hi by done.
        rewrite lookup_insert_ne; [by apply Hsome|].
        intros ->. apply (Hdisj k); [by eapply list_elem_of_lookup_2|left].
      * rewrite lookup_app_r in Hi by lia.
        destruct (i - length ks) as [|m] eqn:E; [|done].
        injection Hi as <-. rewrite lookup_insert_eq. f_equal. lia.
Qed.

Lemma chain_uf_length (n i : nat) : i < n → length (chain_uf n i) = n.
Proof. intros H. unfold chain_uf. simpl. rewrite length_app, !length_replicate. lia. Qed.

Lemma chain_uf_0 (n i : nat) : chain_uf n i !! 0 = Some (-1)%Z.
Proof. done. Qed.

Lemma chain_uf_linked (n i k : nat) :
  1 ≤ k → k ≤ i → chain_uf n i !! k = Some 0%Z.
Proof.
  intros H1 H2. unfold chain_uf. destruct k as [|k]; [lia|]. simpl.
  rewrite lookup_app_l by (rewrite length_replicate; lia).
  apply lookup_replicate_2. lia.
Qed.

Lemma chain_uf_free (n i k : nat) :
  i < k → k < n → chain_uf n i !! k = Some (-1)%Z.
Proof.
  intros H1 H2. unfold chain_uf. destruct k as [|k]; [lia|]. simpl.
  rewrite lookup_app_r by (rewrite length_replicate; lia).
  apply lookup_replicate_2. rewrite length_replicate. lia.
Qed.

Lemma repeat_replicate {A} (x : A) (n : nat) : repeat x n = replicate n x.
Proof. induction n; simpl; [done|]. by f_equal. Qed.

Lemma chain_uf_init (n : nat) : 1 ≤ n → UnionFind.init n = chain_uf n 0.
Proof.
  intros H. unfold UnionFind.init, chain_uf. rewrite repeat_replicate.
  destruct n as [|n]; [lia|]. simpl. by rewrite !Nat.sub_0_r.
Qed.

Lemma replicate_app_cons {A} (x : A) (i : nat) (l : list A) :
  replicate i x ++ x :: l = x :: replicate i x ++ l.
Proof. induction i as [|i IH]; simpl; [done|]. by rewrite IH. Qed.

Lemma chain_uf_link (n i : nat) :
  S i < n → <[S i := 0%Z]> (chain_uf n i) = chain_uf n (S i).
Proof.
  intros H. unfold chain_uf.
  change (<[S i := 0%Z]> ((-1)%Z :: ?l)) with ((-1)%Z :: <[i := 0%Z]> l).
  f_equal.
  rewrite insert_app_r_alt by (rewrite length_replicate; lia).
  rewrite length_replicate, Nat.sub_diag.
  replace (n - 1 - i) with (S (n - 1 - S i)) by lia.
  change (<[0 := 0%Z]> (replicate (S ?m) ?x)) with (0%Z :: replicate m x).
  apply replicate_app_cons.
Qed.

Lemma chain_uf_find (fuel n i k : nat) :
  i < n → k ≤ i →
  UnionFind.find (S (S fuel)) (chain_uf n i) (Z.of_nat k) = Ok (0%Z, chain_uf n i).
Proof.
  intros Hi Hk. destruct k as [|k].
  - apply (find_root (S fuel) _ 0). apply chain_uf_0.
  - apply (find_child fuel _ (S k) 0); [apply chain_uf_linked; lia|apply chain_uf_0].
Qed.

Lemma union_S (fuel : nat) (parent : UnionFind.t) (i j : Z) :
  UnionFind.union fuel parent i j
  = ('(root_i, parent) ←? UnionFind.find fuel parent i;
     '(root_j, parent) ←? UnionFind.find fuel parent j;
     if decide (root_i ≠ root_j) then
       parent ←? py_setitem parent root_i root_j;
       Ok (root_j, parent)
     else Ok (root_i, parent)).
Proof. reflexivity. Qed.

Section chain.
Variables (curve : list bezier) (starts ends : list (Z * Z)).
Variable bh : gmap (Z * Z) nat.
Hypothesis Hstarts : Forall2 (λ c k, _create_key (b0 c) = Ok k) curve starts.
Hypothesis Hends : Forall2 (λ c k, _create_key (b3 c) = Ok k) curve ends.
Hypothesis Hnd : NoDup starts.
Hypothesis Hchain : ∀ i, S i < length curve → ends !! i = starts !! S i.
Hypothesis Hlast : ∀ e, last ends = Some e → e ∉ starts.
Hypothesis Hbh_none : ∀ k, k ∉ starts → bh !! k = None.
Hypothesis Hbh_some : ∀ i k, starts !! i = Some k → bh !! k = Some i.

Lemma chain_end_key (i : nat) (c : bezier) :
  curve !! i = Some c → ∃ e, ends !! i = Some e ∧ _create_key (b3 c) = Ok e.
Proof.
  intros Hc. destruct (Forall2_lookup_l _ _ _ _ _ Hends Hc) as (e & He & Hk). eauto.
Qed.

Lemma chain_next (i : nat) (e : Z * Z) :
  S i < length curve → ends !! i = Some e → bh !! e = Some (S i).
Proof. intros Hi He. apply Hbh_some. by rewrite <- Hchain. Qed.

Lemma chain_stop (i : nat) (e : Z * Z) :
  S i = length curve → ends !! i = Some e → bh !! e = None.
Proof.
  intros Hi He. apply Hbh_none, Hlast. rewrite last_lookup.
  rewrite <- (Forall2_length _ _ _ Hends), <- Hi. done.
Qed.

Lemma link_body_chain (fuel j : nat) (c : bezier) :
  S j < length curve → curve !! j = Some c →
  link_body (S (S fuel)) bh (chain_uf (length curve) j) (j, c)
  = Ok (chain_uf (length curve) (S j)).
Proof.
  intros Hj Hc. destruct (chain_end_key _ _ Hc) as (e & He & Hk).
  unfold link_body. simpl fst. simpl snd. rewrite Hk, res_bind_Ok_l.
  rewrite (chain_next _ _ Hj He), union_S.
  rewrite (find_root (S fuel)) by (apply chain_uf_free; lia).
  rewrite res_bind_Ok_l. cbv beta iota.
  rewrite chain_uf_find by lia. rewrite res_bind_Ok_l. cbv beta iota.
  destruct (decide (Z.of_nat (S j) ≠ 0%Z)) as [_|Hn]; [|lia].
  rewrite py_setitem_nat by (rewrite chain_uf_length; lia).
  rewrite res_bind_Ok_l, res_bind_Ok_l. cbv beta iota.
  by rewrite chain_uf_link.
Qed.

Lemma link_body_chain_last (fuel j : nat) (c : bezier) (uf : UnionFind.t) :
  S j = length curve → curve !! j = Some c → link_body fuel bh uf (j, c) = Ok uf.
Proof.
  intros Hj Hc. destruct (chain_end_key _ _ Hc) as (e & He & Hk).
  unfold link_body. simpl fst. simpl snd. rewrite Hk, res_bind_Ok_l.
  by rewrite (chain_stop _ _ Hj He).
Qed.

Lemma link_chain (fuel k j : nat) :
  S (j + k) = length curve →
  for_each (link_body (S (S fuel)) bh) (enumerate_from j (drop j curve))
    (chain_uf (length curve) j)
  = Ok (chain_uf (length curve) (length curve - 1)).
Proof.
  revert j. induction k as [|k IH]; intros j Hj.
  - destruct (lookup_lt_is_Some_2 curve j ltac:(lia)) as [c Hc].
    rewrite (drop_S _ _ _ Hc), drop_ge by lia.
    change (for_each ?f (enumerate_from j [c]) ?s) with (res_bind (f s (j, c)) (for_each f [])).
    rewrite link_body_chain_last; [|lia|done]. simpl. do 2 f_equal. lia.
  - destruct (lookup_lt_is_Some_2 curve j ltac:(lia)) as [c Hc].
    rewrite (drop_S _ _ _ Hc).
    change (for_each ?f (enumerate_from j (c :: ?l)) ?s)
      with (res_bind (f s (j, c)) (for_each f (enumerate_from (S j) l))).
    rewrite link_body_chain; [|lia|done]. rewrite res_bind_Ok_l. apply IH. lia.
Qed.

Lemma collect_body_chain (fuel i : nat) (members : list nat) :
  i < length curve →
  collect_body (S (S fuel)) ([(0%Z, members)],
                             chain_uf (length curve) (length curve - 1)) i
  = Ok ([(0%Z, members ++ [i])], chain_uf (length curve) (length curve - 1)).
Proof.
  intros Hi. unfold collect_body. simpl fst. simpl snd.
  rewrite chain_uf_find by lia. rewrite res_bind_Ok_l. cbv beta iota. reflexivity.
Qed.

Lemma collect_chain (fuel m j : nat) (members : list nat) :
  j + m ≤ length curve →
  for_each (collect_body (S (S fuel))) (seq j m)
    ([(0%Z, members)], chain_uf (length curve) (length curve - 1))
  = Ok ([(0%Z, members ++ seq j m)], chain_uf (length curve) (length curve - 1)).
Proof.
  revert j members. induction m as [|m IH]; intros j members Hj; simpl.
  - by rewrite app_nil_r.
  - rewrite collect_body_chain by lia. simpl. rewrite IH by lia.
    by rewrite <- app_assoc.
Qed.

Lemma follow_chain (fuel k i : nat) (e : Z * Z) :
  S (i + k) = length curve → k < fuel → ends !! i = Some e →
  follow fuel curve bh e (take (S i) curve) = Ok curve.
Proof.
  revert fuel i e. induction k as [|k IH]; intros fuel i e Hi Hfuel He;
    (destruct fuel as [|fuel]; [lia|]); simpl.
  - rewrite (chain_stop i e) by (done || lia). by rewrite take_ge by lia.
  - rewrite (chain_next i e) by (done || lia).
    destruct (lookup_lt_is_Some_2 curve (S i) ltac:(lia)) as [c Hc].
    rewrite (py_index_Some _ _ _ Hc), res_bind_Ok_l.
    destruct (chain_end_key _ _ Hc) as (e' & He' & Hk). rewrite Hk, res_bind_Ok_l.
    rewrite <- (take_S_r _ _ _ Hc).
    destruct (decide (e = e')) as [->|Hne]; [|apply IH; lia || done].
    exfalso. pose proof (Hchain i ltac:(lia)) as Hs. rewrite He in Hs.
    destruct k as [|k].
    + apply (Hlast e').
      * rewrite last_lookup, <- (Forall2_length _ _ _ Hends).
        replace (pred (length curve)) with (S i) by lia. done.
      * by eapply list_elem_of_lookup_2.
    + pose proof (Hchain (S i) ltac:(lia)) as Hs'. rewrite He' in Hs'.
      pose proof (NoDup_lookup _ _ _ _ Hnd (eq_sym Hs) (eq_sym Hs')). lia.
Qed.
End chain.

(** X3. A chain listed in order is stitched into one path holding all its
    segments in order. *)
Theorem connected_segments_chain (fuel : nat) (curve : list bezier)
    (starts ends : list (Z * Z)) :
  curve ≠ [] →
  Forall2 (λ c k, _create_key (b0 c) = Ok k) curve starts →
  Forall2 (λ c k, _create_key (b3 c) = Ok k) curve ends →
  NoDup starts →
  (∀ i, S i < length curve → ends !! i = starts !! S i) →
  (∀ e, last ends = Some e → e ∉ starts) →
  length curve ≤ fuel → 2 ≤ fuel →
  _connected_segments fuel curve = Ok [curve].
Proof.
  intros Hne Hstarts Hends Hnd Hchain Hlast Hfuel Hfuel2.
  destruct (begin_hash_complete _ _ Hstarts) as (bh & Hbh & Hnone & Hsome).
  specialize (Hsome Hnd).
  assert (Hlen : 1 ≤ length curve) by (destruct curve; [done|simpl; lia]).
  destruct fuel as [|[|fuel]]; [lia..|].
  unfold _connected_segments. rewrite Hbh, res_bind_Ok_l. cbv zeta.
  unfold link_segments, enumerate. rewrite chain_uf_init by done.
  pose proof (link_chain curve starts ends bh Hends Hchain Hlast Hnone Hsome
                fuel (length curve - 1) 0 ltac:(lia)) as Hlink.
  change (drop 0 curve) with curve in Hlink. rewrite Hlink.
  rewrite res_bind_Ok_l. unfold collect_sets.
  replace (length curve) with (S (length curve - 1)) at 1 by lia.
  change (for_each ?f (seq 0 (S ?m)) ?s) with (res_bind (f s 0) (for_each f (seq 1 m))).
  assert (Hfirst : collect_body (S (S fuel))
                     ([], chain_uf (length curve) (length curve - 1)) 0
                   = Ok ([(0%Z, [0])], chain_uf (length curve) (length curve - 1))).
  { unfold collect_body. simpl fst. simpl snd.
    rewrite (chain_uf_find fuel _ _ 0) by lia. reflexivity. }
  rewrite Hfirst, res_bind_Ok_l, collect_chain by lia.
  rewrite res_bind_Ok_l. cbv beta iota.
  change (od_keys [(0%Z, ?l)]) with [0%Z].
  change (for_each ?f [0%Z] []) with (res_bind (f [] 0%Z) (for_each f [])).
  unfold path_body.
  destruct curve as [|c0 curve'] eqn:Ecurve; [done|]. rewrite <- Ecurve in *.
  assert (Hc0 : curve !! 0 = Some c0) by by rewrite Ecurve.
  change 0%Z with (Z.of_nat 0).
  rewrite py_getitem_nat, (py_index_Some _ _ _ Hc0), res_bind_Ok_l.
  destruct (chain_end_key curve ends Hends _ _ Hc0) as (e & He & Hk).
  rewrite Hk, res_bind_Ok_l.
  assert (Htake : [c0] = take 1 curve) by by rewrite Ecurve.
  rewrite Htake.
  rewrite (follow_chain curve starts ends bh Hends Hnd Hchain Hlast Hnone Hsome
             (S (S fuel)) (length curve - 1) 0 e) by (lia || done).
  reflexivity.
Qed.

Lemma connected_segments_chain_witness :
  _connected_segments 3 chain_of_three = Ok [chain_of_three].
Proof.
  apply (connected_segments_chain 3 chain_of_three
           [(0, 0); (1000000000000, 0); (2000000000000, 0)]%Z
           [(1000000000000, 0); (2000000000000, 0); (3000000000000, 0)]%Z).
  - done.
  - repeat constructor.
  - repeat constructor.
  - apply (bool_decide_unpack _). vm_compute. exact I.
  - intros [|[|[|i]]] Hi; simpl in Hi; try lia; reflexivity.
  - intros e [= <-]. apply (bool_decide_unpack _). vm_compute. exact I.
  - simpl. lia.
  - lia.
Defined.

Lemma singleton_sets_fresh (j : nat) : od_get (singleton_sets j) (Z.of_nat j) = None.
Proof.
  apply od_get_None. unfold singleton_sets, od_keys. rewrite map_map. simpl.
  intros Hin. apply list_elem_of_In, in_map_iff in Hin as (i & Hi & Hin).
  apply in_seq in Hin. lia.
Qed.

Lemma singleton_sets_S (j : nat) :
  singleton_sets (S j) = singleton_sets j ++ [(Z.of_nat j, [j])].
Proof. unfold singleton_sets. by rewrite seq_S, map_app. Qed.

Lemma collect_body_singletons (fuel n j : nat) :
  j < n →
  collect_body (S fuel) (singleton_sets j, UnionFind.init n) j
  = Ok (singleton_sets (S j), UnionFind.init n).
Proof.
  intros Hj. unfold collect_body. simpl fst. simpl snd.
  rewrite find_root.
  2:{ unfold UnionFind.init. rewrite repeat_replicate. by apply lookup_replicate_2. }
  rewrite res_bind_Ok_l. cbv beta iota zeta.
  rewrite singleton_sets_fresh, od_get_set_eq, od_set_set.
  rewrite od_set_fresh by apply singleton_sets_fresh.
  by rewrite singleton_sets_S.
Qed.

Lemma collect_singletons (fuel n m j : nat) :
  j + m ≤ n →
  for_each (collect_body (S fuel)) (seq j m) (singleton_sets j, UnionFind.init n)
  = Ok (singleton_sets (j + m), UnionFind.init n).
Proof.
  revert j. induction m as [|m IH]; intros j Hj; simpl.
  - by rewrite Nat.add_0_r.
  - rewrite collect_body_singletons by lia. simpl. rewrite IH by lia.
    do 3 f_equal. lia.
Qed.

Lemma follow_stop (fuel : nat) (curve : list bezier) (bh : gmap (Z * Z) nat)
    (key : Z * Z) (seg : list bezier) :
  bh !! key = None → follow (S fuel) curve bh key seg = Ok seg.
Proof. intros H. simpl. by rewrite H. Qed.

Lemma path_body_single (fuel : nat) (curve : list bezier) (bh : gmap (Z * Z) nat)
    (j : nat) (c : bezier) (e : Z * Z) (acc : list (list bezier)) :
  curve !! j = Some c → _create_key (b3 c) = Ok e → bh !! e = None →
  path_body (S fuel) curve bh acc (Z.of_nat j) = Ok (acc ++ [[c]]).
Proof.
  intros Hc Hk He. unfold path_body.
  rewrite py_getitem_nat, (py_index_Some _ _ _ Hc), res_bind_Ok_l, Hk, res_bind_Ok_l.
  by rewrite follow_stop.
Qed.

Lemma paths_singletons (fuel : nat) (curve : list bezier) (ends : list (Z * Z))
    (bh : gmap (Z * Z) nat) (m j : nat) (acc : list (list bezier)) :
  Forall2 (λ c k, _create_key (b3 c) = Ok k) curve ends →
  (∀ e, e ∈ ends → bh !! e = None) →
  j + m ≤ length curve →
  for_each (path_body (S fuel) curve bh) (map Z.of_nat (seq j m)) acc
  = Ok (acc ++ map (λ c, [c]) (take m (drop j curve))).
Proof.
  intros Hends Hnone. revert j acc. induction m as [|m IH]; intros j acc Hj.
  - simpl. by rewrite app_nil_r.
  - destruct (lookup_lt_is_Some_2 curve j ltac:(lia)) as [c Hc].
    destruct (Forall2_lookup_l _ _ _ _ _ Hends Hc) as (e & He & Hk).
    change (for_each ?f (map Z.of_nat (seq j (S m))) acc)
      with (res_bind (f acc (Z.of_nat j)) (for_each f (map Z.of_nat (seq (S j) m)))).
    rewrite (path_body_single _ _ _ _ _ _ _ Hc Hk)
      by by eapply Hnone, list_elem_of_lookup_2.
    rewrite res_bind_Ok_l, IH by lia. rewrite (drop_S _ _ _ Hc). simpl.
    by rewrite <- app_assoc.
Qed.

(** X4. Segments none of which ends where a segment starts stay apart: one path
    per segment, in the order of the input. *)
Theorem connected_segments_disjoint (fuel : nat) (curve : list bezier)
    (starts ends : list (Z * Z)) :
  Forall2 (λ c k, _create_key (b0 c) = Ok k) curve starts →
  Forall2 (λ c k, _create_key (b3 c) = Ok k) curve ends →
  (∀ e, e ∈ ends → e ∉ starts) →
  1 ≤ fuel →
  _connected_segments fuel curve = Ok (map (λ c, [c]) curve).
Proof.
  intros Hstarts Hends Hdisj Hfuel.
  destruct (begin_hash_complete _ _ Hstarts) as (bh & Hbh & Hnone & _).
  assert (Hnone' : ∀ e, e ∈ ends → bh !! e = None) by (intros e He; by apply Hnone, Hdisj).
  destruct fuel as [|fuel]; [lia|].
  unfold _connected_segments. rewrite Hbh, res_bind_Ok_l. cbv zeta.
  unfold link_segments. rewrite for_each_fixed.
  2:{ intros [i c] Hic%elem_of_enumerate.
      destruct (Forall2_lookup_l _ _ _ _ _ Hends Hic) as (e & He & Hk).
      unfold link_body. simpl fst. simpl snd. rewrite Hk, res_bind_Ok_l.
      by rewrite Hnone' by by eapply list_elem_of_lookup_2. }
  rewrite res_bind_Ok_l. unfold collect_sets.
  change (@nil (Z * list nat)) with (singleton_sets 0).
  rewrite collect_singletons by lia. rewrite res_bind_Ok_l. cbv beta iota.
  assert (Hkeys : od_keys (singleton_sets (0 + length curve))
                  = map Z.of_nat (seq 0 (length curve))).
  { unfold singleton_sets, od_keys. rewrite map_map. by apply map_ext. }
  rewrite Hkeys.
  rewrite (paths_singletons fuel curve ends bh (length curve) 0 [] Hends Hnone') by lia.
  by rewrite drop_0, firstn_all.
Qed.

Lemma connected_segments_disjoint_witness :
  _connected_segments 1 apart = Ok (map (λ c, [c]) apart).
Proof.
  apply (connected_segments_disjoint 1 apart
           [(0, 0); (2000000000000, 0)]%Z
           [(1000000000000, 0); (3000000000000, 0)]%Z).
  - repeat constructor.
  - repeat constructor.
  - intros e He. apply (bool_decide_unpack _).
    apply elem_of_cons in He as [->|He]; [vm_compute; exact I|].
    apply list_elem_of_singleton in He as ->. vm_compute. exact I.
  - lia.
Defined.

(** ** The union-find structure *)

Lemma reaches_is_root (parent : list Z) i r : reaches parent i r → parent !! r = Some (-1)%Z.
Proof. induction 1; auto. Qed.

Lemma reaches_unique (parent : list Z) i r r' :
  reaches parent i r → reaches parent i r' → r = r'.
Proof.
  intros H. revert r'. induction H as [i Hi|i p r Hi Hp IH]; intros r' H'.
  - inversion H' as [|? p' ? Hi']; subst; [done|]. rewrite Hi in Hi'. injection Hi'. lia.
  - inversion H' as [? Hi'|? p' ? Hi' Hp']; subst.
    + rewrite Hi in Hi'. injection Hi'. lia.
    + rewrite Hi in Hi'. injection Hi' as E. apply Nat2Z.inj in E. subst. auto.
Qed.

(** Pointing a node straight at its root keeps every root. *)
Lemma reaches_compress (parent : list Z) i r :
  reaches parent i r → i ≠ r →
  ∀ k q, reaches parent k q → reaches (<[i := Z.of_nat r]> parent) k q.
Proof.
  intros Hir Hne k q H. pose proof (reaches_is_root _ _ _ Hir) as Hr.
  assert (Hroot : reaches (<[i := Z.of_nat r]> parent) r r).
  { apply reaches_root. by rewrite list_lookup_insert_ne. }
  induction H as [k Hk|k p q Hk Hp IH].
  - destruct (decide (k = i)) as [->|Hki].
    + exfalso. apply Hne. apply (reaches_unique parent i); [by apply reaches_root|done].
    + apply reaches_root. by rewrite list_lookup_insert_ne.
  - destruct (decide (k = i)) as [->|Hki].
    + assert (q = r) as ->.
      { apply (reaches_unique parent i); [by eapply reaches_step|done]. }
      eapply reaches_step; [|exact Hroot].
      apply list_lookup_insert_eq. by eapply lookup_lt_Some.
    + eapply reaches_step; [|exact IH]. by rewrite list_lookup_insert_ne.
Qed.

(** Hanging one root under another moves what reached the first. *)
Lemma reaches_link (parent : list Z) ri rj :
  parent !! ri = Some (-1)%Z → parent !! rj = Some (-1)%Z → ri ≠ rj →
  ∀ k q, reaches parent k q →
         reaches (<[ri := Z.of_nat rj]> parent) k (if decide (q = ri) then rj else q).
Proof.
  intros Hri Hrj Hne k q H.
  assert (Hroot : reaches (<[ri := Z.of_nat rj]> parent) rj rj).
  { apply reaches_root. by rewrite list_lookup_insert_ne. }
  induction H as [k Hk|k p q Hk Hp IH].
  - destruct (decide (k = ri)) as [->|Hki].
    + eapply reaches_step; [|exact Hroot].
      apply list_lookup_insert_eq. by eapply lookup_lt_Some.
    + apply reaches_root. by rewrite list_lookup_insert_ne.
  - eapply reaches_step; [|exact IH].
    rewrite list_lookup_insert_ne; [done|]. intros ->. rewrite Hri in Hk.
    injection Hk. lia.
Qed.

Lemma uf_wf_insert (parent : list Z) i r :
  uf_wf parent → r < length parent → uf_wf (<[i := Z.of_nat r]> parent).
Proof.
  intros Hwf Hr k p Hk. rewrite length_insert.
  destruct (decide (k = i)) as [->|Hne].
  - destruct (decide (i < length parent)) as [Hi|Hi].
    + rewrite list_lookup_insert_eq in Hk by done. injection Hk as <-. right. lia.
    + rewrite list_insert_ge in Hk by lia. by apply Hwf in Hk.
  - rewrite list_lookup_insert_ne in Hk by done. by apply Hwf in Hk.
Qed.

(** [find] returns the root its argument leads to; the compression keeps
    the array well formed and every node's root. *)
Lemma find_spec (fuel : nat) (parent parent' : list Z) (i : nat) (r : Z) :
  uf_wf parent → i < length parent →
  UnionFind.find fuel parent (Z.of_nat i) = Ok (r, parent') →
  ∃ r', r = Z.of_nat r' ∧ reaches parent i r'
        ∧ uf_wf parent' ∧ length parent' = length parent
        ∧ ∀ k q, reaches parent k q → reaches parent' k q.
Proof.
  revert parent parent' i r.
  induction fuel as [|fuel IH]; intros parent parent' i r Hwf Hi H; [discriminate|].
  rewrite find_S, py_getitem_nat in H.
  destruct (lookup_lt_is_Some_2 parent i Hi) as [p Hp].
  rewrite (py_index_Some _ _ _ Hp), res_bind_Ok_l in H.
  destruct (decide (p = (-1)%Z)) as [->|Hroot].
  - injection H as <- <-. exists i. repeat split; try done. by apply reaches_root.
  - destruct (Hwf _ _ Hp) as [?|Hrange]; [done|].
    assert (∃ p', p = Z.of_nat p') as [p' ->] by (exists (Z.to_nat p); lia).
    apply res_bind_Ok in H as ([r1 parent1] & Hfind & H).
    assert (Hp'lt : p' < length parent) by lia.
    destruct (IH _ _ _ _ Hwf Hp'lt Hfind) as (r' & -> & Hreach & Hwf1 & Hlen1 & Hkeep).
    pose proof (reaches_is_root _ _ _ Hreach) as Hr'.
    pose proof (lookup_lt_Some _ _ _ Hr') as Hr'lt.
    rewrite py_setitem_nat in H by lia. rewrite res_bind_Ok_l in H.
    rewrite py_getitem_nat in H.
    rewrite (py_index_Some _ i (Z.of_nat r')) in H
      by (apply list_lookup_insert_eq; lia).
    rewrite res_bind_Ok_l in H. injection H as <- <-.
    assert (Hir : reaches parent i r') by by eapply reaches_step.
    assert (Hne : i ≠ r').
    { intros ->. rewrite Hr' in Hp. injection Hp. lia. }
    exists r'. split; [done|]. split; [done|].
    split; [apply uf_wf_insert; [done|lia]|].
    split; [by rewrite length_insert|].
    intros k q Hkq. apply reaches_compress; auto.
Qed.

(** After [union] both arguments lead to the root it returns. *)
Lemma find_returns (parent : list Z) (i r : nat) :
  uf_wf parent → reaches parent i r →
  ∃ fuel parent', UnionFind.find fuel parent (Z.of_nat i) = Ok (Z.of_nat r, parent').
Proof.
  intros Hwf H. induction H as [i Hi|i p r Hi Hp (fuel & P1 & IH)].
  - exists 1, parent. by apply find_root.
  - assert (Hplt : p < length parent).
    { destruct (Hwf _ _ Hi) as [?|?]; lia. }
    destruct (find_spec _ _ _ _ _ Hwf Hplt IH) as (r' & Er & _ & _ & Hlen & _).
    exists (S fuel), (<[i := Z.of_nat r]> P1).
    rewrite find_S, py_getitem_nat, (py_index_Some _ _ _ Hi), res_bind_Ok_l.
    destruct (decide (Z.of_nat p = (-1)%Z)); [lia|].
    rewrite IH, res_bind_Ok_l. cbv beta iota.
    pose proof (lookup_lt_Some _ _ _ Hi) as Hilt.
    rewrite py_setitem_nat by lia. rewrite res_bind_Ok_l, py_getitem_nat.
    by rewrite (py_index_Some _ i (Z.of_nat r)) by (apply list_lookup_insert_eq; lia).
Qed.

(** X5. From a node that leads to a root, [find] returns that root with enough
    fuel, keeps the array well formed and of the same length, and keeps the root
    of every node. *)
Theorem find_correct (parent : list Z) (i r : nat) :
  uf_wf parent → reaches parent i r →
  ∃ fuel0, ∀ fuel, fuel0 ≤ fuel →
    ∃ parent', UnionFind.find fuel parent (Z.of_nat i) = Ok (Z.of_nat r, parent')
               ∧ uf_wf parent' ∧ length parent' = length parent
               ∧ ∀ k q, reaches parent k q → reaches parent' k q.
Proof.
  intros Hwf Hi. destruct (find_returns parent i r Hwf Hi) as (fuel0 & parent' & H).
  assert (Hlt : i < length parent).
  { destruct Hi as [i Hi|i p r Hi _]; by eapply lookup_lt_Some. }
  destruct (find_spec _ _ _ _ _ Hwf Hlt H) as (r' & _ & _ & Hwf' & Hlen & Hkeep).
  exists fuel0. intros fuel Hfuel. exists parent'.
  split; [by apply (find_mono fuel0)|done].
Qed.

(** X6. With enough fuel, [union] of two nodes that lead to roots returns the
    root of the second one, and afterwards both nodes lead to it. *)
Theorem union_correct (parent : list Z) (i j ri rj : nat) :
  uf_wf parent → reaches parent i ri → reaches parent j rj →
  ∃ fuel0, ∀ fuel, fuel0 ≤ fuel →
    ∃ parent', UnionFind.union fuel parent (Z.of_nat i) (Z.of_nat j)
               = Ok (Z.of_nat rj, parent')
               ∧ reaches parent' i rj ∧ reaches parent' j rj
               ∧ uf_wf parent' ∧ length parent' = length parent.
Proof.
  intros Hwf Hi Hj.
  assert (Hilt : i < length parent).
  { destruct Hi as [i Hi|i p r Hi _]; by eapply lookup_lt_Some. }
  destruct (find_returns parent i ri Hwf Hi) as (f1 & P1 & H1).
  destruct (find_spec _ _ _ _ _ Hwf Hilt H1) as (ri' & Eri & Hri & Hwf1 & Hlen1 & Hkeep1).
  apply Nat2Z.inj in Eri as <-.
  pose proof (Hkeep1 _ _ Hj) as Hj1.
  assert (Hjlt : j < length P1).
  { destruct Hj1 as [j Hj1|j p r Hj1 _]; by eapply lookup_lt_Some. }
  destruct (find_returns P1 j rj Hwf1 Hj1) as (f2 & P2 & H2).
  destruct (find_spec _ _ _ _ _ Hwf1 Hjlt H2) as (rj' & Erj & Hrj & Hwf2 & Hlen2 & Hkeep2).
  apply Nat2Z.inj in Erj as <-.
  assert (Hi2 : reaches P2 i ri) by auto.
  assert (Hj2 : reaches P2 j rj) by auto.
  pose proof (reaches_is_root _ _ _ Hi2) as Hri2.
  pose proof (reaches_is_root _ _ _ Hj2) as Hrj2.
  pose proof (lookup_lt_Some _ _ _ Hri2). pose proof (lookup_lt_Some _ _ _ Hrj2).
  exists (f1 `max` f2). intros fuel Hfuel.
  rewrite union_S, (find_mono f1 fuel _ _ _ ltac:(lia) H1), res_bind_Ok_l.
  cbv beta iota.
  rewrite (find_mono f2 fuel _ _ _ ltac:(lia) H2), res_bind_Ok_l. cbv beta iota.
  destruct (decide (Z.of_nat ri ≠ Z.of_nat rj)) as [Hne|Heq].
  - rewrite py_setitem_nat by lia. rewrite res_bind_Ok_l.
    exists (<[ri := Z.of_nat rj]> P2). split; [done|].
    assert (Hne' : ri ≠ rj) by lia.
    pose proof (reaches_link P2 ri rj Hri2 Hrj2 Hne' i ri Hi2) as Hi3.
    pose proof (reaches_link P2 ri rj Hri2 Hrj2 Hne' j rj Hj2) as Hj3.
    destruct (decide (ri = ri)); [|done]. destruct (decide (rj = ri)); [lia|].
    split; [done|]. split; [done|].
    split; [apply uf_wf_insert; [done|lia]|].
    etrans; [apply length_insert|lia].
  - assert (ri = rj) as -> by lia. exists P2.
    split; [done|]. repeat split; try done. lia.
Qed.

Lemma uf_wf_example : uf_wf [(-1)%Z; 0%Z; 1%Z; (-1)%Z].
Proof.
  intros k p Hk. destruct k as [|[|[|[|k]]]]; simpl in Hk; try done;
    injection Hk as <-; simpl; lia.
Qed.

Lemma reaches_example : reaches [(-1)%Z; 0%Z; 1%Z; (-1)%Z] 2 0.
Proof.
  apply (reaches_step _ 2 1); [done|]. apply (reaches_step _ 1 0); [done|].
  by apply reaches_root.
Qed.

Lemma find_correct_witness :
  ∃ fuel0, ∀ fuel, fuel0 ≤ fuel →
    ∃ parent', UnionFind.find fuel [(-1)%Z; 0%Z; 1%Z; (-1)%Z] (Z.of_nat 2)
               = Ok (Z.of_nat 0, parent')
               ∧ uf_wf parent'
               ∧ length parent' = length [(-1)%Z; 0%Z; 1%Z; (-1)%Z]
               ∧ ∀ k q, reaches [(-1)%Z; 0%Z; 1%Z; (-1)%Z] k q → reaches parent' k q.
Proof.
  exact (find_correct [(-1)%Z; 0%Z; 1%Z; (-1)%Z] 2 0 uf_wf_example reaches_example).
Defined.

Lemma union_correct_witness :
  ∃ fuel0, ∀ fuel, fuel0 ≤ fuel →
    ∃ parent', UnionFind.union fuel [(-1)%Z; 0%Z; 1%Z; (-1)%Z] (Z.of_nat 2) (Z.of_nat 3)
               = Ok (Z.of_nat 3, parent')
               ∧ reaches parent' 2 3 ∧ reaches parent' 3 3
               ∧ uf_wf parent'
               ∧ length parent' = length [(-1)%Z; 0%Z; 1%Z; (-1)%Z].
Proof.
  apply (union_correct [(-1)%Z; 0%Z; 1%Z; (-1)%Z] 2 3 0 3 uf_wf_example
           reaches_example).
  by apply reaches_root.
Defined.

(** ** The sampler: what the lists hold *)

Lemma od_append_same d key x d' :
  od_append d key x = Ok d' →
  ∃ l, od_get d key = Some (PathList l)
       ∧ od_get d' key = Some (PathList (l ++ [x])).
Proof.
  unfold od_append. destruct (od_get d key) as [[l|]|]; try discriminate.
  intros [= <-]. exists l. by rewrite od_get_set_eq.
Qed.

Lemma od_append_other d key x d' k :
  od_append d key x = Ok d' → k ≠ key → od_get d' k = od_get d k.
Proof.
  unfold od_append. destruct (od_get d key) as [[l|]|]; try discriminate.
  intros [= <-] Hk. by rewrite od_get_set_ne.
Qed.

Section sampler_lists.
Variable n : nat.
Variables (element : nat) (x : line_path_points).

Lemma place_element_lists groups idx st st' :
  idx + length groups ≤ n →
  place_element (String.length (py_str n)) idx groups element x st = Ok st' →
  st'.2 = st.2 || in_some_group groups element
  ∧ (∀ key, (∀ j g, groups !! j = Some g → containsElement g element = true →
                    key ≠ group_label (idx + j) (String.length (py_str n))) →
            od_get st'.1 key = od_get st.1 key)
  ∧ (∀ j g l0, groups !! j = Some g → containsElement g element = true →
       od_get st.1 (group_label (idx + j) (String.length (py_str n)))
       = Some (PathList l0) →
       od_get st'.1 (group_label (idx + j) (String.length (py_str n)))
       = Some (PathList (l0 ++ [x]))).
Proof.
  revert idx st. induction groups as [|g groups IH]; intros idx st Hlen H;
    simpl in H, Hlen.
  - injection H as <-. split; [by rewrite orb_false_r|]. split; [done|].
    intros j g l0 Hj. done.
  - apply res_bind_Ok in H as (st1 & H1 & H2).
    destruct (IH (S idx) st1 ltac:(lia) H2) as (Hb & Hother & Hsame).
    unfold in_some_group. simpl. fold (in_some_group groups element).
    destruct (containsElement g element) eqn:Hg.
    + apply res_bind_Ok in H1 as (d1 & Ha & [= <-]).
      cbn [fst snd] in Hb, Hother, Hsame.
      split; [rewrite Hb; by rewrite orb_true_r|]. split.
      * intros key Hkey. rewrite Hother.
        -- apply (od_append_other _ _ _ _ _ Ha).
           specialize (Hkey 0 g eq_refl Hg). by rewrite Nat.add_0_r in Hkey.
        -- intros j g' Hj Hg'. replace (S idx + j) with (idx + S j) by lia.
           by apply (Hkey (S j) g').
      * intros j g' l0 Hj Hg' Hl0. destruct j as [|j].
        -- rewrite Nat.add_0_r in *.
           rewrite Hother.
           ++ apply od_append_same in Ha as (l & El & El'). congruence.
           ++ intros j g'' Hj' _. apply lookup_lt_Some in Hj'.
              intros E%group_label_inj; lia.
        -- simpl in Hj. replace (idx + S j) with (S idx + j) in * by lia.
           apply (Hsame j g'); [done..|].
           rewrite (od_append_other _ _ _ _ _ Ha); [done|].
           apply lookup_lt_Some in Hj. intros E%group_label_inj; lia.
    + injection H1 as <-. split; [done|]. split.
      * intros key Hkey. apply Hother. intros j g' Hj Hg'.
        replace (S idx + j) with (idx + S j) by lia. by apply (Hkey (S j) g').
      * intros j g' l0 Hj Hg' Hl0. destruct j as [|j].
        -- injection Hj as <-. congruence.
        -- simpl in Hj. replace (idx + S j) with (S idx + j) in * by lia.
           by apply (Hsame j g').
Qed.
End sampler_lists.

Section sampler_loop.
Variables (coordinates xi_1_derivative : Field) (groups : list Group).

(* one turn of the loop over the elements *)
Lemma analyze_element_lists st element st' :
  analyze_element coordinates xi_1_derivative
    (String.length (py_str (length groups))) groups st element = Ok st' →
  (∀ i g l0, groups !! i = Some g →
     od_get st.1 (group_label i (String.length (py_str (length groups))))
     = Some (PathList l0) →
     od_get st'.1 (group_label i (String.length (py_str (length groups))))
     = Some (PathList (l0 ++ samples_of coordinates xi_1_derivative
                               (containsElement g) [element])))
  ∧ (∀ u0, od_get st.1 "ungrouped" = Some (PathList u0) →
       od_get st'.1 "ungrouped"
       = Some (PathList (u0 ++ samples_of coordinates xi_1_derivative
                                 (λ e, negb (in_some_group groups e)) [element]))).
Proof.
  unfold analyze_element, samples_of. simpl.
  destruct (sample_element coordinates xi_1_derivative element) as [x|].
  2:{ intros [= <-]. split.
      - intros i g l0 _ H. rewrite H. destruct (containsElement g element);
          by rewrite app_nil_r.
      - intros u0 H. rewrite H. destruct (negb _); by rewrite app_nil_r. }
  intros H. apply res_bind_Ok in H as ([d1 in_group] & H1 & H2).
  apply res_bind_Ok in H2 as (d2 & H2 & [= <-]). simpl.
  destruct (place_element_lists (length groups) element x groups 0 _ _
              ltac:(simpl; lia) H1) as (Hb & Hother & Hsame).
  simpl in Hb, Hother, Hsame. subst in_group. split.
  - intros i g l0 Hi Hl0.
    assert (Hd2 : od_get d2 (group_label i (String.length (py_str (length groups))))
                  = od_get d1 (group_label i (String.length (py_str (length groups))))).
    { destruct (in_some_group groups element); [by injection H2 as <-|].
      apply (od_append_other _ _ _ _ _ H2). apply group_label_not_ungrouped. }
    rewrite Hd2. destruct (containsElement g element) eqn:Hg.
    + by apply (Hsame i g).
    + rewrite app_nil_r, Hother; [done|].
      intros j g' Hj Hg' E%group_label_inj;
        [|by eapply lookup_lt_Some..]. congruence.
  - intros u0 Hu0.
    assert (Hd1 : od_get d1 "ungrouped" = Some (PathList u0)).
    { rewrite Hother; [done|]. intros j g _ _ E. symmetry in E.
      by apply group_label_not_ungrouped in E. }
    destruct (in_some_group groups element); simpl.
    + injection H2 as <-. by rewrite app_nil_r.
    + apply od_append_same in H2 as (l & El & El'). congruence.
Qed.

Lemma samples_of_cons member element elements :
  samples_of coordinates xi_1_derivative member (element :: elements)
  = samples_of coordinates xi_1_derivative member [element]
    ++ samples_of coordinates xi_1_derivative member elements.
Proof.
  unfold samples_of. simpl.
  by destruct (if member element then _ else _).
Qed.

Lemma analyze_loop_lists elements st st' :
  for_each (analyze_element coordinates xi_1_derivative
              (String.length (py_str (length groups))) groups) elements st = Ok st' →
  (∀ i g l0, groups !! i = Some g →
     od_get st.1 (group_label i (String.length (py_str (length groups))))
     = Some (PathList l0) →
     od_get st'.1 (group_label i (String.length (py_str (length groups))))
     = Some (PathList (l0 ++ samples_of coordinates xi_1_derivative
                               (containsElement g) elements)))
  ∧ (∀ u0, od_get st.1 "ungrouped" = Some (PathList u0) →
       od_get st'.1 "ungrouped"
       = Some (PathList (u0 ++ samples_of coordinates xi_1_derivative
                                 (λ e, negb (in_some_group groups e)) elements))).
Proof.
  revert st. induction elements as [|e elements IH]; intros st H; simpl in H.
  - injection H as <-. split.
    + intros i g l0 _ ->. by rewrite app_nil_r.
    + intros u0 ->. by rewrite app_nil_r.
  - apply res_bind_Ok in H as (st1 & H1 & H2).
    apply analyze_element_lists in H1 as [Hg1 Hu1].
    apply IH in H2 as [Hg2 Hu2]. split.
    + intros i g l0 Hi Hl0. rewrite samples_of_cons, app_assoc.
      apply Hg2; [done|]. by apply Hg1.
    + intros u0 Hu0. rewrite samples_of_cons, app_assoc. apply Hu2. by apply Hu1.
Qed.
End sampler_loop.

(** X7. The list under a group's label holds the samples of the elements of the
    mesh that the group contains, in mesh order; the list under "ungrouped"
    holds the samples of the elements no group contains. *)
Theorem analyze_elements_lists (region : Region) (cf : string)
    (pp : odict string pp_value) (e : nat) (es : list nat) :
  findMeshByDimension3 region = Some (e :: es) →
  _analyze_elements region cf = Ok pp →
  let gl := get_group_list region in
  let sod := String.length (py_str (length gl)) in
  let coordinates := findFieldByName region cf in
  let xi_1_derivative := createFieldDerivative region coordinates 1 in
  (∀ i g, gl !! i = Some g → getName g ≠ "marker" →
     od_get pp (group_label i sod)
     = Some (PathList (samples_of coordinates xi_1_derivative
                         (containsElement g) (e :: es))))
  ∧ od_get pp "ungrouped"
    = Some (PathList (samples_of coordinates xi_1_derivative
                        (λ el, negb (in_some_group gl el)) (e :: es))).
Proof.
  intros Hmesh H gl sod coordinates xi_1_derivative.
  unfold _analyze_elements in H. rewrite Hmesh in H.
  fold gl sod coordinates xi_1_derivative in H.
  set (D := declare_groups sod 0 gl [("ungrouped", PathList [])]) in H.
  apply res_bind_Ok in H as ([pp' assigned] & H & Hdel).
  assert (pp' = pp) as -> by (by destruct assigned; [injection Hdel|]).
  apply analyze_loop_lists in H as [Hg Hu]. simpl in Hg, Hu. split.
  - intros i g Hi Hname.
    destruct (declare_groups_entry (length gl) gl 0 [("ungrouped", PathList [])]
                i g ltac:(simpl; lia) Hi Hname) as [HL _].
    simpl in HL. fold sod D in HL. by apply (Hg i g []).
  - apply (Hu []). unfold D, sod. rewrite (declare_groups_other (length gl)).
    + done.
    + intros j g Hj _. simpl. split.
      * intros E. symmetry in E. by apply group_label_not_ungrouped in E.
      * intros E. symmetry in E. apply group_svg_id_not_ungrouped in E; [done|].
        by eapply lookup_lt_Some.
Qed.

Lemma analyze_elements_lists_witness :
  ∃ pp, _analyze_elements three_element_scene "coordinates" = Ok pp
        ∧ (∀ i g, get_group_list three_element_scene !! i = Some g →
             getName g ≠ "marker" →
             od_get pp (group_label i 1)
             = Some (PathList (samples_of line_field unit_derivative
                                 (containsElement g) [1; 2; 3])))
        ∧ od_get pp "ungrouped"
          = Some (PathList (samples_of line_field unit_derivative
                              (λ el, negb (in_some_group
                                             (get_group_list three_element_scene) el))
                              [1; 2; 3])).
Proof.
  destruct (_analyze_elements three_element_scene "coordinates") as [pp| |] eqn:E;
    [|vm_compute in E; discriminate..].
  exists pp. split; [done|].
  exact (analyze_elements_lists three_element_scene "coordinates" pp 1 [2; 3]
           eq_refl E).
Defined.

(** ** The sampler: how it ends *)

Section sampler_outcome.
Variables (coordinates xi_1_derivative : Field) (gl : list Group).

Lemma declared_label i g :
  gl !! i = Some g →
  od_get (declare_groups (String.length (py_str (length gl))) 0 gl
            [("ungrouped", PathList [])])
    (group_label i (String.length (py_str (length gl))))
  = if decide (getName g = "marker") then None else Some (PathList []).
Proof.
  intros Hi. destruct (decide (getName g = "marker")) as [Hg|Hg].
  - rewrite (declare_groups_other (length gl)).
    + simpl.
      destruct (decide (group_label i (String.length (py_str (length gl)))
                        = "ungrouped")) as [E|]; [|done].
      by apply group_label_not_ungrouped in E.
    + intros j g' Hj Hg'. pose proof (lookup_lt_Some _ _ _ Hi).
      pose proof (lookup_lt_Some _ _ _ Hj). simpl. split.
      * intros E%group_label_inj; [|done..]. congruence.
      * by apply group_label_not_svg_id.
  - by destruct (declare_groups_entry (length gl) gl 0 [("ungrouped", PathList [])]
                   i g ltac:(simpl; lia) Hi Hg) as [HL _].
Qed.

Lemma declared_ungrouped :
  od_get (declare_groups (String.length (py_str (length gl))) 0 gl
            [("ungrouped", PathList [])]) "ungrouped"
  = Some (PathList []).
Proof.
  rewrite (declare_groups_other (length gl)); [done|].
  intros j g Hj _. simpl. split.
  - intros E. symmetry in E. by apply group_label_not_ungrouped in E.
  - intros E. symmetry in E. apply group_svg_id_not_ungrouped in E; [done|].
    by eapply lookup_lt_Some.
Qed.

Lemma place_element_outcome element x groups idx st :
  keeps (declare_groups (String.length (py_str (length gl))) 0 gl
           [("ungrouped", PathList [])]) st.1 →
  (∀ j g, groups !! j = Some g → gl !! (idx + j) = Some g) →
  if in_marker_group groups element
  then place_element (String.length (py_str (length gl))) idx groups element x st
       = Raise KeyError
  else ∃ d', place_element (String.length (py_str (length gl))) idx groups element x st
             = Ok (d', st.2 || in_some_group groups element)
             ∧ keeps (declare_groups (String.length (py_str (length gl))) 0 gl
                        [("ungrouped", PathList [])]) d'.
Proof.
  revert idx st. induction groups as [|g groups IH]; intros idx st Hk Hgl.
  - simpl. exists st.1. rewrite orb_false_r. by destruct st.
  - assert (Hidx : gl !! idx = Some g).
    { specialize (Hgl 0 g eq_refl). by rewrite Nat.add_0_r in Hgl. }
    assert (Hgl' : ∀ j g', groups !! j = Some g' → gl !! (S idx + j) = Some g').
    { intros j g' Hj. replace (S idx + j) with (idx + S j) by lia.
      by apply Hgl. }
    unfold in_marker_group, in_some_group. simpl.
    fold (in_marker_group groups element) (in_some_group groups element).
    destruct (containsElement g element); simpl.
    + pose proof (declared_label idx g Hidx) as HD.
      destruct Hk as [Hshape Hnd]. pose proof (Hshape
        (group_label idx (String.length (py_str (length gl))))) as Hs.
      rewrite HD in Hs. unfold od_append.
      destruct (decide (getName g = "marker")) as [Hg|Hg].
      * rewrite bool_decide_eq_true_2 by done. simpl.
        by destruct (od_get st.1 _).
      * rewrite bool_decide_eq_false_2 by done. simpl.
        destruct (od_get st.1 _) as [[l|]|] eqn:El; try done. simpl.
        specialize (IH (S idx)
          (od_set st.1 (group_label idx (String.length (py_str (length gl))))
             (PathList (l ++ [x])), true)).
        destruct (in_marker_group groups element).
        -- apply IH; [|done]. apply keeps_trans with st.1; [done|].
           apply (od_append_keeps _ (group_label idx
             (String.length (py_str (length gl)))) x).
           unfold od_append. by rewrite El.
        -- destruct IH as (d' & -> & Hd'); [|done|].
           { apply keeps_trans with st.1; [done|].
             apply (od_append_keeps _ (group_label idx
               (String.length (py_str (length gl)))) x).
             unfold od_append. by rewrite El. }
           exists d'. split; [|done]. simpl. by rewrite orb_true_r.
    + specialize (IH (S idx) st Hk Hgl').
      by destruct (in_marker_group groups element).
Qed.

Lemma analyze_element_outcome st element :
  keeps (declare_groups (String.length (py_str (length gl))) 0 gl
           [("ungrouped", PathList [])]) st.1 →
  if is_sampled coordinates xi_1_derivative element && in_marker_group gl element
  then analyze_element coordinates xi_1_derivative
         (String.length (py_str (length gl))) gl st element = Raise KeyError
  else ∃ d', analyze_element coordinates xi_1_derivative
               (String.length (py_str (length gl))) gl st element
             = Ok (d', st.2 || (is_sampled coordinates xi_1_derivative element
                                && negb (bool_decide (gl = []))))
             ∧ keeps (declare_groups (String.length (py_str (length gl))) 0 gl
                        [("ungrouped", PathList [])]) d'.
Proof.
  intros Hk. unfold analyze_element, is_sampled.
  destruct (sample_element coordinates xi_1_derivative element) as [x|]; simpl.
  2:{ exists st.1. rewrite orb_false_r. by destruct st. }
  pose proof (place_element_outcome element x gl 0 (st.1, false) Hk
                ltac:(by intros)) as H.
  destruct (in_marker_group gl element); [by rewrite H|].
  destruct H as (d1 & -> & Hd1). simpl.
  destruct (in_some_group gl element); simpl; [by exists d1|].
  destruct Hd1 as [Hshape Hnd]. pose proof (Hshape "ungrouped") as Hs.
  rewrite declared_ungrouped in Hs. unfold od_append.
  destruct (od_get d1 "ungrouped") as [[u|]|] eqn:Eu; try done. simpl.
  eexists. split; [done|]. apply keeps_trans with d1; [done|].
  apply (od_append_keeps _ "ungrouped" x). unfold od_append. by rewrite Eu.
Qed.

Lemma analyze_loop_outcome elements st :
  keeps (declare_groups (String.length (py_str (length gl))) 0 gl
           [("ungrouped", PathList [])]) st.1 →
  if existsb (λ el, is_sampled coordinates xi_1_derivative el
                    && in_marker_group gl el) elements
  then for_each (analyze_element coordinates xi_1_derivative
                   (String.length (py_str (length gl))) gl) elements st
       = Raise KeyError
  else ∃ d', for_each (analyze_element coordinates xi_1_derivative
                         (String.length (py_str (length gl))) gl) elements st
             = Ok (d', st.2 || (existsb (is_sampled coordinates xi_1_derivative)
                                  elements
                                && negb (bool_decide (gl = []))))
             ∧ keeps (declare_groups (String.length (py_str (length gl))) 0 gl
                        [("ungrouped", PathList [])]) d'.
Proof.
  revert st. induction elements as [|el elements IH]; intros st Hk.
  - simpl. exists st.1. rewrite orb_false_r. by destruct st.
  - simpl. pose proof (analyze_element_outcome st el Hk) as H.
    destruct (is_sampled coordinates xi_1_derivative el && in_marker_group gl el);
      simpl; [by rewrite H|].
    destruct H as (d1 & -> & Hd1). simpl.
    specialize (IH (d1, st.2 || (is_sampled coordinates xi_1_derivative el
                                 && negb (bool_decide (gl = [])))) Hd1).
    destruct (existsb _ elements); [done|].
    destruct IH as (d' & -> & Hd'). exists d'. split; [|done]. simpl.
    f_equal. f_equal.
    destruct st.2, (is_sampled coordinates xi_1_derivative el),
      (existsb (is_sampled coordinates xi_1_derivative) elements),
      (bool_decide (gl = [])); done.
Qed.
End sampler_outcome.

(** How the sampler ends on a mesh with elements. *)
Lemma analyze_elements_outcome (region : Region) (cf : string) (e : nat)
    (es : list nat) :
  findMeshByDimension3 region = Some (e :: es) →
  let gl := get_group_list region in
  let coordinates := findFieldByName region cf in
  let xi_1_derivative := createFieldDerivative region coordinates 1 in
  if existsb (λ el, is_sampled coordinates xi_1_derivative el
                    && in_marker_group gl el) (e :: es)
  then _analyze_elements region cf = Raise KeyError
  else if existsb (is_sampled coordinates xi_1_derivative) (e :: es)
          && negb (bool_decide (gl = []))
       then ∃ pp, _analyze_elements region cf = Ok pp
       else _analyze_elements region cf = Raise UnboundLocalError.
Proof.
  intros Hmesh gl coordinates xi_1_derivative.
  unfold _analyze_elements. rewrite Hmesh.
  fold gl coordinates xi_1_derivative.
  pose proof (analyze_loop_outcome coordinates xi_1_derivative gl (e :: es)
                (declare_groups (String.length (py_str (length gl))) 0 gl
                   [("ungrouped", PathList [])], false) (keeps_refl _)) as H.
  destruct (existsb _ (e :: es)); [by rewrite H|].
  destruct H as (d' & -> & _). simpl.
  destruct (_ && _); [by exists d'|done].
Qed.

(** X8. A sampled element that belongs to a group called "marker" makes the
    sampler raise KeyError: that group has no list to append to. *)
Theorem analyze_elements_marker_element (region : Region) (cf : string)
    (e : nat) (es : list nat) (el : nat) (x : line_path_points) (g : Group) :
  findMeshByDimension3 region = Some (e :: es) →
  el ∈ e :: es →
  sample_element (findFieldByName region cf)
    (createFieldDerivative region (findFieldByName region cf) 1) el = Some x →
  g ∈ get_group_list region → getName g = "marker" →
  containsElement g el = true →
  _analyze_elements region cf = Raise KeyError.
Proof.
  intros Hmesh Hel Hx Hg Hname Hin.
  pose proof (analyze_elements_outcome region cf e es Hmesh) as H.
  cbv zeta in H.
  set (c := findFieldByName region cf) in *.
  set (d := createFieldDerivative region c 1) in *.
  assert (Hbad : existsb (λ el, is_sampled c d el
                   && in_marker_group (get_group_list region) el) (e :: es) = true).
  { apply existsb_exists. exists el. split; [by apply list_elem_of_In|].
    unfold is_sampled. rewrite Hx. simpl. apply existsb_exists. exists g.
    split; [by apply list_elem_of_In|]. rewrite Hin. simpl.
    by apply bool_decide_eq_true_2. }
  by rewrite Hbad in H.
Qed.

Lemma analyze_elements_marker_element_witness :
  _analyze_elements marker_element_scene "coordinates" = Raise KeyError.
Proof.
  apply (analyze_elements_marker_element marker_element_scene "coordinates" 1 [] 1
           (([1; 0; 0], [1; 0; 0]), ([2; 0; 0], [1; 0; 0]))%Q (group_of "marker" [1])).
  - reflexivity.
  - left.
  - vm_compute. reflexivity.
  - left.
  - reflexivity.
  - reflexivity.
Defined.

(** X9. Without groups, or without a sampled element, the closing [del
    mesh_group] raises UnboundLocalError. *)
Theorem analyze_elements_unbound (region : Region) (cf : string)
    (e : nat) (es : list nat) :
  findMeshByDimension3 region = Some (e :: es) →
  get_group_list region = []
  ∨ (∀ el, el ∈ e :: es →
       sample_element (findFieldByName region cf)
         (createFieldDerivative region (findFieldByName region cf) 1) el = None) →
  _analyze_elements region cf = Raise UnboundLocalError.
Proof.
  intros Hmesh Hcase.
  pose proof (analyze_elements_outcome region cf e es Hmesh) as H.
  cbv zeta in H.
  set (c := findFieldByName region cf) in *.
  set (d := createFieldDerivative region c 1) in *.
  assert (Hbad : existsb (λ el, is_sampled c d el
                   && in_marker_group (get_group_list region) el) (e :: es) = false).
  { apply not_true_is_false. intros (el & Hel & Hb)%existsb_exists.
    apply andb_prop in Hb as [Hs Hm]. destruct Hcase as [Hgl|Hnone].
    - rewrite Hgl in Hm. discriminate.
    - unfold is_sampled in Hs. rewrite Hnone in Hs; [done|].
      by apply list_elem_of_In. }
  rewrite Hbad in H.
  replace (existsb (is_sampled c d) (e :: es)
           && negb (bool_decide (get_group_list region = []))) with false in H;
    [done|].
  symmetry. destruct Hcase as [Hgl|Hnone].
  - rewrite (bool_decide_eq_true_2 _ Hgl). apply andb_false_r.
  - apply andb_false_intro1. apply not_true_is_false.
    intros (el & Hel & Hs)%existsb_exists.
    unfold is_sampled in Hs. rewrite Hnone in Hs; [done|].
    by apply list_elem_of_In.
Qed.

Lemma analyze_elements_unbound_witness :
  _analyze_elements no_group_scene "coordinates" = Raise UnboundLocalError.
Proof.
  apply (analyze_elements_unbound no_group_scene "coordinates" 1 []).
  - reflexivity.
  - left. reflexivity.
Defined.

(** X10. With a group, a sampled element, and no sampled element in a group
    called "marker", the sampler returns its dictionary. *)
Theorem analyze_elements_returns (region : Region) (cf : string)
    (e : nat) (es : list nat) (el : nat) (x : line_path_points) :
  findMeshByDimension3 region = Some (e :: es) →
  get_group_list region ≠ [] →
  el ∈ e :: es →
  sample_element (findFieldByName region cf)
    (createFieldDerivative region (findFieldByName region cf) 1) el = Some x →
  (∀ el' g, el' ∈ e :: es → g ∈ get_group_list region → getName g = "marker" →
     containsElement g el' = true →
     sample_element (findFieldByName region cf)
       (createFieldDerivative region (findFieldByName region cf) 1) el' = None) →
  ∃ pp, _analyze_elements region cf = Ok pp.
Proof.
  intros Hmesh Hgl Hel Hx Hmarker.
  pose proof (analyze_elements_outcome region cf e es Hmesh) as H.
  cbv zeta in H.
  set (c := findFieldByName region cf) in *.
  set (d := createFieldDerivative region c 1) in *.
  assert (Hbad : existsb (λ el, is_sampled c d el
                   && in_marker_group (get_group_list region) el) (e :: es) = false).
  { apply not_true_is_false. intros (el' & Hel' & Hb)%existsb_exists.
    apply andb_prop in Hb as [Hs Hm].
    apply existsb_exists in Hm as (g & Hg & Hm).
    apply andb_prop in Hm as [Hin Hname%bool_decide_eq_true_1].
    unfold is_sampled in Hs.
    rewrite (Hmarker el' g) in Hs; [done|by apply list_elem_of_In..|done|done]. }
  rewrite Hbad in H.
  replace (existsb (is_sampled c d) (e :: es)
           && negb (bool_decide (get_group_list region = []))) with true in H;
    [done|].
  symmetry. apply andb_true_intro. split.
  - apply existsb_exists. exists el. split; [by apply list_elem_of_In|].
    unfold is_sampled. by rewrite Hx.
  - by rewrite bool_decide_eq_false_2.
Qed.

Lemma analyze_elements_returns_witness :
  ∃ pp, _analyze_elements three_element_scene "coordinates" = Ok pp.
Proof.
  apply (analyze_elements_returns three_element_scene "coordinates" 1 [2; 3] 1
           (([1; 0; 0], [1; 0; 0]), ([2; 0; 0], [1; 0; 0]))%Q).
  - reflexivity.
  - discriminate.
  - left.
  - vm_compute. reflexivity.
  - intros el g _ Hg Hname. exfalso.
    apply elem_of_cons in Hg as [->|Hg]; [discriminate|].
    apply list_elem_of_singleton in Hg as ->. discriminate.
Defined.

(** ** The sampler: the order of the keys *)

Lemma od_set_keys_present {V} (d : odict string V) (k : string) (v : V) :
  k ∈ od_keys d → od_keys (od_set d k v) = od_keys d.
Proof.
  unfold od_keys. induction d as [|[k0 v0] d IH]; simpl; intros H.
  - inversion H.
  - destruct (decide (k = k0)) as [->|Hne]; simpl; [done|].
    apply elem_of_cons in H as [?|H]; [done|]. by rewrite IH.
Qed.

Lemma od_set_keys_fresh {V} (d : odict string V) (k : string) (v : V) :
  k ∉ od_keys d → od_keys (od_set d k v) = od_keys d ++ [k].
Proof.
  intros H. rewrite od_set_fresh by by apply od_get_None.
  unfold od_keys. by rewrite map_app.
Qed.

Lemma od_append_keys d key x d' :
  od_append d key x = Ok d' → od_keys d' = od_keys d.
Proof.
  unfold od_append. destruct (od_get d key) as [[l|]|] eqn:E; try discriminate.
  intros [= <-]. apply od_set_keys_present. by eapply od_get_Some_key.
Qed.

Lemma place_element_keys sod idx groups element x st st' :
  place_element sod idx groups element x st = Ok st' →
  od_keys st'.1 = od_keys st.1.
Proof.
  revert idx st. induction groups as [|g groups IH]; intros idx st H; simpl in H.
  - by injection H as <-.
  - apply res_bind_Ok in H as (st1 & H1 & H2). rewrite (IH _ _ H2).
    destruct (containsElement g element).
    + apply res_bind_Ok in H1 as (d1 & Ha & [= <-]). by eapply od_append_keys.
    + by injection H1 as <-.
Qed.

Lemma analyze_element_keys coordinates derivative sod groups st element st' :
  analyze_element coordinates derivative sod groups st element = Ok st' →
  od_keys st'.1 = od_keys st.1.
Proof.
  unfold analyze_element.
  destruct (sample_element coordinates derivative element) as [x|];
    [|by intros [= <-]].
  intros H. apply res_bind_Ok in H as ([d1 in_group] & H1 & H2).
  apply place_element_keys in H1. simpl in H1.
  apply res_bind_Ok in H2 as (d2 & H2 & [= <-]). simpl.
  destruct in_group.
  - by injection H2 as <-.
  - apply od_append_keys in H2. congruence.
Qed.

Lemma analyze_loop_keys coordinates derivative sod groups elements st st' :
  for_each (analyze_element coordinates derivative sod groups) elements st = Ok st' →
  od_keys st'.1 = od_keys st.1.
Proof.
  apply (for_each_preserves (λ st st', od_keys st'.1 = od_keys st.1)).
  - done.
  - intros ? ? ? ? ?. congruence.
  - intros ? ? ? _. apply analyze_element_keys.
Qed.

Lemma declare_groups_keys (n : nat) groups idx (d0 : odict string pp_value) :
  idx + length groups ≤ n →
  (∀ j, idx ≤ j < n →
        (group_label j (String.length (py_str n)) ∉ od_keys d0)
        ∧ (_group_svg_id (group_label j (String.length (py_str n))) ∉ od_keys d0)) →
  od_keys (declare_groups (String.length (py_str n)) idx groups d0)
  = od_keys d0 ++ group_keys (String.length (py_str n)) idx groups.
Proof.
  revert idx d0. induction groups as [|g groups IH]; intros idx d0 Hlen Hfresh;
    simpl in *; [by rewrite app_nil_r|].
  destruct (decide (getName g ≠ "marker")) as [Hg|Hg].
  - destruct (Hfresh idx ltac:(lia)) as [HL HS].
    assert (Hkeys : od_keys (od_set (od_set d0 (group_label idx (String.length (py_str n)))
                                       (PathList []))
                               (_group_svg_id (group_label idx (String.length (py_str n))))
                               (GroupName (getName g)))
                    = od_keys d0 ++ [group_label idx (String.length (py_str n));
                                     _group_svg_id (group_label idx
                                                      (String.length (py_str n)))]).
    { rewrite (od_set_keys_fresh (od_set d0 _ _)).
      - rewrite od_set_keys_fresh by done. by rewrite <- app_assoc.
      - rewrite od_set_keys_fresh by done.
        rewrite elem_of_app, list_elem_of_singleton. intros [?|E]; [done|].
        symmetry in E. revert E. apply group_label_not_svg_id; lia. }
    rewrite IH; [by rewrite Hkeys, <- app_assoc|lia|].
    intros j Hj. destruct (Hfresh j ltac:(lia)) as [HLj HSj].
    rewrite Hkeys. rewrite !elem_of_app, !elem_of_cons, !elem_of_nil. split.
    + intros [?|[E|[E|[]]]]; [done| |].
      * apply group_label_inj in E; lia.
      * revert E. apply group_label_not_svg_id; lia.
    + intros [?|[E|[E|[]]]]; [done| |].
      * symmetry in E. revert E. apply group_label_not_svg_id; lia.
      * apply group_svg_id_inj in E; lia.
  - rewrite IH; [done|lia|]. intros j Hj. apply Hfresh. lia.
Qed.

(** X11. The keys of the sampler's dictionary, in order: "ungrouped", then for
    every group not called "marker", in the order of the group list, its label
    followed by its SVG identifier. *)
Theorem analyze_elements_keys (region : Region) (cf : string)
    (pp : odict string pp_value) (e : nat) (es : list nat) :
  findMeshByDimension3 region = Some (e :: es) →
  _analyze_elements region cf = Ok pp →
  od_keys pp
  = "ungrouped"
    :: group_keys (String.length (py_str (length (get_group_list region)))) 0
         (get_group_list region).
Proof.
  intros Hmesh H. unfold _analyze_elements in H. rewrite Hmesh in H.
  apply res_bind_Ok in H as ([pp' assigned] & H & Hdel).
  assert (pp' = pp) as -> by (by destruct assigned; [injection Hdel|]).
  apply analyze_loop_keys in H. simpl in H. rewrite H.
  rewrite (declare_groups_keys (length (get_group_list region)));
    [done|simpl; lia|].
  intros j Hj. unfold od_keys. simpl. rewrite !list_elem_of_singleton. split.
  - apply group_label_not_ungrouped.
  - apply group_svg_id_not_ungrouped. lia.
Qed.

Lemma analyze_elements_keys_witness :
  ∃ pp, _analyze_elements three_element_scene "coordinates" = Ok pp
        ∧ od_keys pp
          = ["ungrouped"; "group_1"; "nerve_feature_1"; "group_2"; "nerve_feature_2"].
Proof.
  destruct (_analyze_elements three_element_scene "coordinates") as [pp| |] eqn:E;
    [|vm_compute in E; discriminate..].
  exists pp. split; [done|].
  exact (analyze_elements_keys three_element_scene "coordinates" pp 1 [2; 3]
           eq_refl E).
Defined.

(** ** The Bezier data *)



Lemma bezier_samples_loop (l : list line_path_points) (acc r : list bezier) :
  for_each (λ acc curve_pts,
              b ←? _calculate_bezier_curve curve_pts.1 curve_pts.2;
              Ok (acc ++ [b])) l acc = Ok r →
  ∃ bs, r = acc ++ bs
        ∧ Forall2 (λ s b, _calculate_bezier_curve s.1 s.2 = Ok b) l bs.
Proof.
  revert acc. induction l as [|s l IH]; intros acc H; simpl in H.
  - injection H as <-. exists []. by rewrite app_nil_r.
  - apply res_bind_Ok in H as (acc1 & H1 & H2).
    apply res_bind_Ok in H1 as (b & Hb & [= <-]).
    apply IH in H2 as (bs & -> & HF). exists (b :: bs).
    rewrite <- app_assoc. split; [done|]. by constructor.
Qed.

Lemma bezier_of_samples_spec (l : list line_path_points) (bs : list bezier) :
  bezier_of_samples l = Ok bs →
  Forall2 (λ s b, _calculate_bezier_curve s.1 s.2 = Ok b) l bs.
Proof. intros (bs' & -> & H)%bezier_samples_loop. done. Qed.

Lemma bezier_loop_spec (l : odict string pp_value)
    (bez0 bez : odict string (list bezier)) :
  NoDup (od_keys l) → (∀ key, key ∈ od_keys l → key ∉ od_keys bez0) →
  for_each bezier_body l bez0 = Ok bez →
  ∃ new, bez = bez0 ++ new
         ∧ Forall2 (λ entry r,
                      r.1 = entry.1
                      ∧ ∃ samples, entry.2 = PathList samples
                          ∧ Forall2 (λ s b, _calculate_bezier_curve s.1 s.2 = Ok b)
                              samples r.2)
             (List.filter has_samples l) new.
Proof.
  revert bez0. induction l as [|[key v] l IH]; intros bez0 Hnd Hfresh H;
    simpl in H.
  - injection H as <-. exists []. by rewrite app_nil_r.
  - apply res_bind_Ok in H as (bez1 & H1 & H2).
    unfold od_keys in Hnd. simpl in Hnd. apply NoDup_cons in Hnd as [Hkey Hnd].
    unfold bezier_body in H1. simpl in H1. unfold has_samples at 1. simpl.
    destruct v as [[|x samples]|name].
    + injection H1 as <-. apply IH; [done| |done].
      intros k Hk. apply Hfresh. unfold od_keys. simpl. by right.
    + apply res_bind_Ok in H1 as (bs & Hbs & [= <-]).
      rewrite od_set_fresh in H2.
      2:{ apply od_get_None. apply Hfresh. unfold od_keys. simpl. left. }
      apply IH in H2 as (new & -> & HF); [|done|].
      * exists ((key, bs) :: new). rewrite <- app_assoc. split; [done|].
        constructor; [|done]. simpl. split; [done|].
        exists (x :: samples). split; [done|]. by apply bezier_of_samples_spec.
      * intros k Hk. unfold od_keys. rewrite map_app. simpl.
        rewrite elem_of_app, list_elem_of_singleton. intros [Hin| ->].
        -- revert Hin. apply Hfresh. unfold od_keys. simpl. by right.
        -- done.
    + injection H1 as <-. apply IH; [done| |done].
      intros k Hk. apply Hfresh. unfold od_keys. simpl. by right.
Qed.

(** X13. The Bezier data has one entry for every key of the sampler's dictionary
    that holds samples, in the same order, and under it one segment for every
    sample, in the same order. *)
Theorem bezier_control_points_spec (pp : odict string pp_value)
    (bez : odict string (list bezier)) :
  NoDup (od_keys pp) →
  _calculate_bezier_control_points pp = Ok bez →
  Forall2 (λ entry r,
             r.1 = entry.1
             ∧ ∃ samples, entry.2 = PathList samples
                 ∧ Forall2 (λ s b, _calculate_bezier_curve s.1 s.2 = Ok b)
                     samples r.2)
    (List.filter has_samples pp) bez.
Proof.
  intros Hnd H. apply bezier_loop_spec in H as (new & -> & HF); [done..|].
  intros key _ Hin. inversion Hin.
Qed.

Lemma bezier_control_points_spec_witness :
  ∃ bez, _calculate_bezier_control_points example_path_points = Ok bez
         ∧ Forall2 (λ entry r,
                      r.1 = entry.1
                      ∧ ∃ samples, entry.2 = PathList samples
                          ∧ Forall2 (λ s b, _calculate_bezier_curve s.1 s.2 = Ok b)
                              samples r.2)
             (List.filter has_samples example_path_points) bez.
Proof.
  destruct (_calculate_bezier_control_points example_path_points) as [bez| |] eqn:E;
    [|vm_compute in E; discriminate..].
  exists bez. split; [done|].
  apply (bezier_control_points_spec example_path_points bez); [|done].
  apply (bool_decide_unpack _). vm_compute. exact I.
Defined.

(** ** The SVG document *)

Lemma write_marker_circle svg m :
  write_marker svg m = svg ++ from_option (λ c, [c]) [] (marker_circle m).
Proof.
  unfold write_marker, marker_circle, py_index.
  destruct (marker_values m) as [|cx [|cy v]]; simpl; by rewrite ?app_nil_r.
Qed.

Lemma write_markers_circles markers svg :
  foldl write_marker svg markers = svg ++ omap marker_circle markers.
Proof.
  revert svg. induction markers as [|m markers IH]; intros svg; simpl.
  - by rewrite app_nil_r.
  - rewrite IH, write_marker_circle.
    destruct (marker_circle m); simpl; by rewrite <- ?app_assoc, ?app_nil_r.
Qed.

Lemma write_groups_paths fuel (l : odict string (list bezier)) svg0 svg :
  for_each (write_group fuel) l svg0 = Ok svg →
  ∃ paths, svg = svg0 ++ paths
           ∧ Forall2 (λ entry p,
                        ∃ connected_paths,
                          _connected_segments fuel entry.2 = Ok connected_paths
                          ∧ _write_connected_svg_bezier_path connected_paths
                              (if decide (entry.1 ≠ "ungrouped")
                               then Some entry.1 else None) = Ok p)
               l paths.
Proof.
  revert svg0. induction l as [|entry l IH]; intros svg0 H; simpl in H.
  - injection H as <-. exists []. by rewrite app_nil_r.
  - apply res_bind_Ok in H as (svg1 & H1 & H2).
    unfold write_group in H1.
    apply res_bind_Ok in H1 as (cs & Hcs & H1).
    apply res_bind_Ok in H1 as (p & Hp & [= <-]).
    apply IH in H2 as (paths & -> & HF). exists (p :: paths).
    rewrite <- app_assoc. split; [done|]. constructor; [|done]. by exists cs.
Qed.

(** X14. The document holds one path for every entry of the Bezier data, in the
    order of the entries, made from the connected paths of the entry, and then
    one circle for every marker with two coordinates, in the order of the
    markers. *)
Theorem write_into_svg_format_spec fuel (bezier_data : odict string (list bezier))
    (markers : list marker) (svg : list svg_element) :
  _write_into_svg_format fuel bezier_data markers = Ok svg →
  ∃ paths,
    svg = paths ++ omap marker_circle markers
    ∧ Forall2 (λ entry p,
                 ∃ connected_paths,
                   _connected_segments fuel entry.2 = Ok connected_paths
                   ∧ _write_connected_svg_bezier_path connected_paths
                       (if decide (entry.1 ≠ "ungrouped")
                        then Some entry.1 else None) = Ok p)
        bezier_data paths.
Proof.
  unfold _write_into_svg_format. intros H.
  apply res_bind_Ok in H as (svg1 & H1 & [= <-]).
  apply write_groups_paths in H1 as (paths & -> & HF). exists paths.
  by rewrite write_markers_circles.
Qed.

Lemma write_into_svg_format_spec_witness :
  ∃ svg paths,
    _write_into_svg_format 2 [("group_1", [straight 1 0 2 0])] [example_marker]
    = Ok svg
    ∧ svg = paths ++ omap marker_circle [example_marker]
    ∧ Forall2 (λ entry p,
                 ∃ connected_paths,
                   _connected_segments 2 entry.2 = Ok connected_paths
                   ∧ _write_connected_svg_bezier_path connected_paths
                       (if decide (entry.1 ≠ "ungrouped")
                        then Some entry.1 else None) = Ok p)
        [("group_1", [straight 1 0 2 0])] paths.
Proof.
  destruct (_write_into_svg_format 2 [("group_1", [straight 1 0 2 0])]
              [example_marker]) as [svg| |] eqn:E;
    [|vm_compute in E; discriminate..].
  destruct (write_into_svg_format_spec 2 [("group_1", [straight 1 0 2 0])]
              [example_marker] svg E) as (paths & H1 & H2).
  by exists svg, paths.
Defined.

(** ** Path commands *)

Lemma py_index_0 {A} (l : list A) x : py_index l 0 = Ok x → ∃ t, l = x :: t.
Proof. destruct l; simpl; [done|]. intros [= ->]. by eexists. Qed.

Lemma py_index_xy (v : vec) x y :
  py_index v 0 = Ok x → py_index v 1 = Ok y → ∃ t, v = x :: y :: t.
Proof.
  destruct v as [|a [|b t]]; simpl; try done.
  intros [= ->] [= ->]. by eexists.
Qed.

Lemma write_section_loop (sec : list bezier) (j : nat) (d d' : list path_cmd) :
  for_each (λ (d : list path_cmd) (jb : nat * bezier),
              let b := jb.2 in
              d ←? (if decide (jb.1 = 0) then
                      x ←? py_index (b0 b) 0; y ←? py_index (b0 b) 1;
                      Ok (d ++ [MoveTo x y])
                    else Ok d);
              x1 ←? py_index (b1 b) 0; y1 ←? py_index (b1 b) 1;
              x2 ←? py_index (b2 b) 0; y2 ←? py_index (b2 b) 1;
              x3 ←? py_index (b3 b) 0; y3 ←? py_index (b3 b) 1;
              Ok (d ++ [CurveTo x1 y1 x2 y2 x3 y3]))
    (enumerate_from (S j) sec) d = Ok d' →
  ∃ curves, Forall2 (λ b c, curve_to b = Some c) sec curves ∧ d' = d ++ curves.
Proof.
  revert j d. induction sec as [|b sec IH]; intros j d H; simpl in H.
  - injection H as <-. exists []. by rewrite app_nil_r.
  - apply res_bind_Ok in H as (d1 & H1 & H2).
    apply IH in H2 as (curves & HF & ->).
    cbn [fst snd] in H1.
    destruct (decide (S j = 0)) as [|_]; [lia|].
    rewrite ?res_bind_Ok_l in H1.
    apply res_bind_Ok in H1 as (x1 & Hx1 & H1).
    apply res_bind_Ok in H1 as (y1 & Hy1 & H1).
    apply res_bind_Ok in H1 as (x2 & Hx2 & H1).
    apply res_bind_Ok in H1 as (y2 & Hy2 & H1).
    apply res_bind_Ok in H1 as (x3 & Hx3 & H1).
    apply res_bind_Ok in H1 as (y3 & Hy3 & [= <-]).
    destruct (py_index_xy _ _ _ Hx1 Hy1) as (t1 & E1).
    destruct (py_index_xy _ _ _ Hx2 Hy2) as (t2 & E2).
    destruct (py_index_xy _ _ _ Hx3 Hy3) as (t3 & E3).
    exists (CurveTo x1 y1 x2 y2 x3 y3 :: curves). rewrite <- app_assoc.
    split; [|done]. constructor; [|done].
    unfold curve_to. by rewrite E1, E2, E3.
Qed.

Lemma write_section_spec (sec : list bezier) (d d' : list path_cmd) :
  write_section sec d = Ok d' →
  ∃ cmds, section_commands sec cmds ∧ d' = d ++ cmds.
Proof.
  unfold write_section, enumerate. destruct sec as [|b sec]; simpl.
  - intros [= <-]. exists []. by rewrite app_nil_r.
  - intros H. apply res_bind_Ok in H as (d1 & H1 & H2).
    apply write_section_loop in H2 as (curves & HF & ->).
    apply res_bind_Ok in H1 as (d0 & H0 & H1).
    apply res_bind_Ok in H0 as (x & Hx & H0).
    apply res_bind_Ok in H0 as (y & Hy & [= <-]).
    apply res_bind_Ok in H1 as (x1 & Hx1 & H1).
    apply res_bind_Ok in H1 as (y1 & Hy1 & H1).
    apply res_bind_Ok in H1 as (x2 & Hx2 & H1).
    apply res_bind_Ok in H1 as (y2 & Hy2 & H1).
    apply res_bind_Ok in H1 as (x3 & Hx3 & H1).
    apply res_bind_Ok in H1 as (y3 & Hy3 & [= <-]).
    destruct (py_index_xy _ _ _ Hx Hy) as (t0 & E0).
    destruct (py_index_xy _ _ _ Hx1 Hy1) as (t1 & E1).
    destruct (py_index_xy _ _ _ Hx2 Hy2) as (t2 & E2).
    destruct (py_index_xy _ _ _ Hx3 Hy3) as (t3 & E3).
    exists (MoveTo x y :: CurveTo x1 y1 x2 y2 x3 y3 :: curves).
    rewrite <- !app_assoc. split; [|done].
    exists (MoveTo x y), (CurveTo x1 y1 x2 y2 x3 y3 :: curves).
    unfold move_to. rewrite E0. split; [done|]. split; [|done].
    constructor; [|done]. unfold curve_to. by rewrite E1, E2, E3.
Qed.

Lemma write_sections_spec (paths : list (list bezier)) (d d' : list path_cmd) :
  for_each (λ d bezier_section, write_section bezier_section d) paths d = Ok d' →
  ∃ cmds, Forall2 section_commands paths cmds ∧ d' = d ++ concat cmds.
Proof.
  revert d. induction paths as [|sec paths IH]; intros d H; simpl in H.
  - injection H as <-. exists []. by rewrite app_nil_r.
  - apply res_bind_Ok in H as (d1 & H1 & H2).
    apply write_section_spec in H1 as (c & Hc & ->).
    apply IH in H2 as (cmds & HF & ->). exists (c :: cmds).
    simpl. rewrite <- app_assoc. split; [by constructor|done].
Qed.

(** X15. The path data is, for every connected path in turn, one move to the
    start of its first segment and then one curve for every segment; only a
    named group gets a title, and an unnamed one is grey. *)
Theorem write_connected_path_spec (bezier_path : list (list bezier))
    (group_name : option string) (e : svg_element) :
  _write_connected_svg_bezier_path bezier_path group_name = Ok e →
  ∃ cmds, Forall2 section_commands bezier_path cmds
          ∧ e = SvgPath (concat cmds)
                  match group_name with None => "grey" | Some _ => "#01136e" end
                  (centreline_title <$> group_name).
Proof.
  unfold _write_connected_svg_bezier_path. intros H.
  apply res_bind_Ok in H as (d & Hd & [= <-]).
  apply write_sections_spec in Hd as (cmds & HF & ->). exists cmds.
  split; [done|]. by destruct group_name.
Qed.

Lemma write_connected_path_spec_witness :
  ∃ e cmds,
    _write_connected_svg_bezier_path [[straight 0 0 1 0; straight 1 0 2 0]]
      (Some "group_1") = Ok e
    ∧ Forall2 section_commands [[straight 0 0 1 0; straight 1 0 2 0]] cmds
    ∧ e = SvgPath (concat cmds) "#01136e" (Some (centreline_title "group_1")).
Proof.
  destruct (_write_connected_svg_bezier_path
              [[straight 0 0 1 0; straight 1 0 2 0]] (Some "group_1"))
    as [e| |] eqn:E; [|vm_compute in E; discriminate..].
  destruct (write_connected_path_spec _ _ e E) as (cmds & H1 & H2).
  by exists e, cmds.
Defined.

(** ** The view box *)

Lemma py_int_nonneg (x : Q) : (0 <= x)%Q → (0 ≤ py_int x)%Z.
Proof.
  destruct x as [n d]. unfold Qle, py_int. simpl. intros H.
  apply Z.quot_pos; lia.
Qed.

(** X16. When the document has a path and every box has its edges in order, the
    view box is at least twice the margin wide and high. *)
Theorem view_box_size (path_bboxes : list bbox_t) :
  path_bboxes ≠ [] →
  (∀ p, p ∈ path_bboxes → (xmin p <= xmax p ∧ ymin p <= ymax p)%Q) →
  let '(_, _, width, height) := view_box path_bboxes in
  (2 * view_margin ≤ width ∧ 2 * view_margin ≤ height)%Z.
Proof.
  intros Hne Hwf. unfold view_box.
  destruct path_bboxes as [|p l]; [done|].
  pose proof (bbox_fold_bounds (p :: l) bbox_init) as [_ Hb].
  specialize (Hb p ltac:(left)). specialize (Hwf p ltac:(left)).
  destruct (foldl bbox_step bbox_init (p :: l)) as [[[a0 a1] a2] a3].
  unfold xmin, xmax, ymin, ymax in Hb, Hwf. simpl in Hb, Hwf.
  unfold view_box_of.
  assert (0 ≤ py_int (a1 - a0 + (1 # 2)))%Z by (apply py_int_nonneg; lra).
  assert (0 ≤ py_int (a3 - a2 + (1 # 2)))%Z by (apply py_int_nonneg; lra).
  lia.
Qed.

Lemma view_box_size_witness :
  let '(_, _, width, height) := view_box [(1 # 2, 1, 0, 1)%Q] in
  (2 * view_margin ≤ width ∧ 2 * view_margin ≤ height)%Z.
Proof.
  apply (view_box_size [(1 # 2, 1, 0, 1)%Q]); [done|].
  intros p ->%list_elem_of_singleton. vm_compute. split; discriminate.
Defined.

(** ** The reverse map *)

Lemma reverse_loop_outcome (data : csv_rows) (m : gmap string string) :
  for_each reverse_body data (m, false)
  = if decide (Forall (λ row, 2 ≤ length row) data)
    then Ok (foldl (λ m row, match row with
                             | v :: k :: _ => <[k := v]> m
                             | _ => m
                             end) m data, false)
    else Raise IndexError.
Proof.
  revert m. induction data as [|row data IH]; intros m.
  - by rewrite decide_True.
  - destruct (decide (Forall (λ row, 2 ≤ length row) (row :: data))) as [HF|HF].
    + apply Forall_cons_1 in HF as [Hrow HF].
      destruct row as [|v [|k row]]; simpl in Hrow; try lia.
      simpl. by rewrite IH, decide_True.
    + destruct row as [|v [|k row]]; simpl; try done.
      rewrite IH, decide_False; [done|]. intros HF'. apply HF.
      constructor; [simpl; lia|done].
Qed.

(** X17. The first row is skipped whatever it holds; the reverse map takes the
    second column of every later row to its first column, later rows winning,
    and the function raises IndexError exactly when a later row has fewer than
    two columns. *)
Theorem reverse_map_outcome (rows : csv_rows) :
  _reverse_map_annotations rows
  = if decide (Forall (λ row, 2 ≤ length row) (tail rows))
    then Ok (reverse_map_of (tail rows))
    else Raise IndexError.
Proof.
  unfold _reverse_map_annotations, reverse_map_of. destruct rows as [|header data].
  - by rewrite decide_True.
  - change (for_each reverse_body (header :: data) (∅, true))
      with (for_each reverse_body data (∅, false)).
    rewrite reverse_loop_outcome. cbn [tail].
    by destruct (decide (Forall (λ row, 2 ≤ length row) data)).
Qed.

(** ** Label numbers of any width *)

Lemma group_number_any (i w : nat) :
  i + 1 < 10 ^ (w `max` String.length (py_str (i + 1)))
  ∧ _group_number i w = fixed (w `max` String.length (py_str (i + 1))) (i + 1).
Proof.
  destruct (py_str_length_bounds (i + 1) ltac:(lia)) as [Hlo Hhi].
  destruct (py_str_fixed (i + 1)) as (k & _ & _ & _ & E).
  assert (Hk : String.length (py_str (i + 1)) = k) by (by rewrite E, fixed_length).
  rewrite Hk in *. destruct (decide (w ≤ k)) as [Hw|Hw].
  - rewrite Nat.max_r by done. split; [done|].
    unfold _group_number, rjust. rewrite Hk.
    replace (w - k) with 0 by lia. simpl. by rewrite string_app_nil_l.
  - rewrite Nat.max_l by lia.
    assert (10 ^ k ≤ 10 ^ w) by (apply Nat.pow_le_mono_r; lia).
    split; [lia|]. unfold _group_number. apply rjust_py_str; lia.
Qed.

(** X18. Whatever the width, the label number is never truncated: it is made of
    decimal digits, reads [index + 1], is as long as the longer of the width and
    the plain numeral, and the SVG identifier of its label is "nerve_feature_"
    followed by it. *)
Theorem group_number_any_width (i w : nat) :
  parse_nat (_group_number i w) = i + 1
  ∧ digits_only (_group_number i w) = true
  ∧ String.length (_group_number i w) = w `max` String.length (py_str (i + 1))
  ∧ _group_svg_id (group_label i w) = "nerve_feature_" +:+ _group_number i w.
Proof.
  destruct (group_number_any i w) as [Hlt E].
  assert (Hd : digits_only (_group_number i w) = true)
    by (rewrite E; apply fixed_digits_only).
  split; [rewrite E; by apply parse_fixed|]. split; [done|].
  split; [rewrite E; apply fixed_length|].
  unfold group_label. by apply group_svg_id_digits.
Qed.

(** ** The features of the export *)

Lemma centreline_loop_svg_ids pp rm (l : odict string pp_value) st st' :
  for_each (centreline_body pp rm) l st = Ok st' →
  ∀ key, is_Some (st'.1 !! key) →
         is_Some (st.1 !! key) ∨ _is_group_svg_id key = true.
Proof.
  revert st. induction l as [|entry l IH]; intros st H key Hkey; simpl in H.
  - injection H as <-. by left.
  - apply res_bind_Ok in H as (st1 & H1 & H2).
    destruct (IH _ H2 key Hkey) as [Hs|Hs]; [|by right].
    apply centreline_body_Ok in H1 as [[_ ->]|(Hid & label & _ & E)]; [by left|].
    rewrite E in Hs. destruct (decide (key = entry.1)) as [->|Hne].
    + by right.
    + rewrite lookup_insert_ne in Hs by done. by left.
Qed.

Lemma centreline_features_svg_id pp rm fs names key f :
  centreline_features pp rm = Ok (fs, names) → fs !! key = Some f →
  _is_group_svg_id key = true.
Proof.
  rewrite centreline_features_unfold. intros H Hf.
  destruct (centreline_loop_svg_ids _ _ _ _ _ H key) as [Hs|Hs]; [by eexists| |done].
  simpl in Hs. rewrite lookup_empty in Hs. by destruct Hs.
Qed.

Lemma marker_id_not_svg_id (s : string) :
  _is_group_svg_id ("marker_" +:+ s) = false.
Proof. reflexivity. Qed.

Lemma analyze_elements_no_mesh region cf pp :
  (findMeshByDimension3 region = None ∨ findMeshByDimension3 region = Some []) →
  _analyze_elements region cf = Ok pp → pp = [].
Proof.
  unfold _analyze_elements. intros [-> | ->] [= <-]; done.
Qed.

Section export_features.
Variable svg_path_bboxes : list svg_element → list bbox_t.
Variable randint : nat → nat.

(** X19. The exported properties: no network; one feature for every marker,
    coloured orange; when the mesh has elements, one centreline feature for
    every group not called "marker", under its SVG identifier and labelled with
    the group's name; and nothing else. *)
Theorem export_features_spec (fuel : nat) (region : Region)
    (csv : option csv_rows) (r : export_result) :
  export_flatmapsvg_from_scene svg_path_bboxes randint fuel region csv = Ok r →
  let gl := get_group_list region in
  let sod := String.length (py_str (length gl)) in
  let markers := _calculate_markers randint region in
  networks (exported_properties r) = []
  ∧ (∀ m, m ∈ markers →
       ∃ m', m' ∈ markers ∧ marker_id m' = marker_id m
             ∧ features (exported_properties r) !! marker_id m
               = Some (MarkerFeature (marker_name m') (marker_onto_id m') "orange"))
  ∧ (∀ e es i g, findMeshByDimension3 region = Some (e :: es) →
       gl !! i = Some g → getName g ≠ "marker" →
       ∃ models, features (exported_properties r) !! (_group_svg_id (group_label i sod))
                 = Some (Centreline (GroupName (getName g)) models))
  ∧ (∀ key f, features (exported_properties r) !! key = Some f →
       (∃ m, m ∈ markers ∧ marker_id m = key
             ∧ f = MarkerFeature (marker_name m) (marker_onto_id m) "orange")
       ∨ (∃ i g models, gl !! i = Some g ∧ getName g ≠ "marker"
                        ∧ key = _group_svg_id (group_label i sod)
                        ∧ f = Centreline (GroupName (getName g)) models)).
Proof.
  intros H gl sod markers.
  apply export_Ok in H
    as (pp & bez & rm & fs & names & Hpp & _ & _ & _ & _ & Hfs & -> & ->).
  fold markers. split; [done|]. split; [|split].
  - intros m Hm. by apply marker_features_marker.
  - intros e es i g Hmesh Hi Hg.
    destruct (analyze_elements_shape region "coordinates" pp e es Hmesh Hpp)
      as (_ & Hgroups & _).
    destruct (Hgroups i g Hi Hg) as [_ Hname]. fold gl sod in Hname.
    exists (models_of rm (GroupName (getName g))).
    rewrite marker_features_other.
    + eapply centreline_features_lookup; [done..|].
      apply group_svg_id_is_svg_id. by eapply lookup_lt_Some.
    + intros m (node & Hid)%calculate_markers_ids E.
      pose proof (group_svg_id_is_svg_id (length gl) i
                    ltac:(by eapply lookup_lt_Some)) as Hsvg.
      fold sod in Hsvg. rewrite <- E, Hid in Hsvg.
      by rewrite marker_id_not_svg_id in Hsvg.
  - intros key f Hf.
    destruct (decide (key ∈ map marker_id markers)) as [Hin|Hnot].
    + left. apply list_elem_of_fmap in Hin as (m & -> & Hm).
      destruct (marker_features_marker fs markers m Hm) as (m' & Hm' & Eid & E).
      exists m'. split; [done|]. split; [done|]. congruence.
    + right. rewrite marker_features_other in Hf.
      2:{ intros m Hm <-. apply Hnot. apply list_elem_of_fmap. by exists m. }
      pose proof (centreline_features_svg_id _ _ _ _ _ _ Hfs Hf) as Hsvg.
      destruct (centreline_features_only _ _ _ _ _ _ Hfs Hf) as (label & Hl & ->).
      destruct (findMeshByDimension3 region) as [[|e es]|] eqn:Hmesh.
      * apply analyze_elements_no_mesh in Hpp as ->; [done|by right].
      * destruct (analyze_elements_shape region "coordinates" pp e es Hmesh Hpp)
          as (_ & _ & _ & Honly).
        destruct (Honly key label Hl)
          as [[-> _]|(i & g & Hi & Hg & [[-> _]|[-> ->]])].
        -- done.
        -- by rewrite group_label_is_not_svg_id in Hsvg.
        -- by exists i, g, (models_of rm (GroupName (getName g))).
      * apply analyze_elements_no_mesh in Hpp as ->; [done|by left].
Qed.

(** X20. The exported document: one path for every key of the sampler's
    dictionary that holds samples, in the order of the dictionary, grey and
    untitled for "ungrouped" and titled with the key's SVG identifier otherwise;
    then one circle for every marker with two coordinates. *)
Theorem export_document_spec (fuel : nat) (region : Region)
    (csv : option csv_rows) (r : export_result) :
  export_flatmapsvg_from_scene svg_path_bboxes randint fuel region csv = Ok r →
  ∃ pp paths,
    _analyze_elements region "coordinates" = Ok pp
    ∧ exported_svg r
      = paths ++ omap marker_circle (_calculate_markers randint region)
    ∧ Forall2 (λ entry p,
                 ∃ d, p = SvgPath d
                            (if decide (entry.1 = "ungrouped")
                             then "grey" else "#01136e")
                            (if decide (entry.1 = "ungrouped")
                             then None else Some (centreline_title entry.1)))
        (List.filter has_samples pp) paths.
Proof.
  intros H.
  apply export_Ok in H
    as (pp & bez & rm & fs & names & Hpp & Hbez & Hsvg & _).
  assert (Hnd : NoDup (od_keys pp)).
  { destruct (findMeshByDimension3 region) as [[|e es]|] eqn:Hmesh.
    - apply analyze_elements_no_mesh in Hpp as ->; [constructor|by right].
    - by destruct (analyze_elements_shape region "coordinates" pp e es Hmesh Hpp).
    - apply analyze_elements_no_mesh in Hpp as ->; [constructor|by left]. }
  unfold _calculate_bezier_control_points in Hbez.
  apply bezier_loop_spec in Hbez as (new & -> & Hbez);
    [|done|intros key _ Hin; inversion Hin].
  unfold _write_into_svg_format in Hsvg.
  apply res_bind_Ok in Hsvg as (svg1 & Hsvg & Hr).
  apply write_groups_paths in Hsvg as (paths & -> & HF).
  rewrite write_markers_circles in Hr. injection Hr as Hr.
  exists pp, paths. split; [done|]. split; [done|].
  clear Hr. simpl in HF. revert paths HF.
  induction Hbez as [|entry b l bez' [Hkey _] _ IH]; intros paths HF.
  - apply Forall2_nil_inv_l in HF as ->. constructor.
  - apply Forall2_cons_inv_l in HF as (p & paths' & (cs & _ & Hp) & HF & ->).
    constructor; [|by apply IH].
    unfold _write_connected_svg_bezier_path in Hp.
    apply res_bind_Ok in Hp as (d & _ & [= <-]).
    exists d. rewrite Hkey.
    destruct (decide (entry.1 ≠ "ungrouped")) as [Hne|He].
    + by rewrite !decide_False.
    + apply dec_stable in He. by rewrite !decide_True.
Qed.
End export_features.

Lemma export_document_spec_witness :
  ∃ r pp paths,
    export_flatmapsvg_from_scene three_element_bboxes (λ _, 42) 5
      three_element_scene None = Ok r
    ∧ _analyze_elements three_element_scene "coordinates" = Ok pp
    ∧ exported_svg r
      = paths ++ omap marker_circle
                   (_calculate_markers (λ _, 42) three_element_scene)
    ∧ Forall2 (λ entry p,
                 ∃ d, p = SvgPath d
                            (if decide (entry.1 = "ungrouped")
                             then "grey" else "#01136e")
                            (if decide (entry.1 = "ungrouped")
                             then None else Some (centreline_title entry.1)))
        (List.filter has_samples pp) paths.
Proof.
  destruct (export_flatmapsvg_from_scene three_element_bboxes (λ _, 42) 5
              three_element_scene None) as [r| |] eqn:E;
    [|vm_compute in E; discriminate..].
  destruct (export_document_spec three_element_bboxes (λ _, 42) 5
              three_element_scene None r E) as (pp & paths & H1 & H2 & H3).
  by exists r, pp, paths.
Defined.

Lemma export_features_spec_witness :
  ∃ r, export_flatmapsvg_from_scene three_element_bboxes (λ _, 42) 5
         three_element_scene None = Ok r
       ∧ networks (exported_properties r) = []
       ∧ ∀ key f, features (exported_properties r) !! key = Some f →
           (∃ m, m ∈ _calculate_markers (λ _, 42) three_element_scene
                 ∧ marker_id m = key
                 ∧ f = MarkerFeature (marker_name m) (marker_onto_id m) "orange")
           ∨ (∃ i g models, get_group_list three_element_scene !! i = Some g
                            ∧ getName g ≠ "marker"
                            ∧ key = _group_svg_id (group_label i 1)
                            ∧ f = Centreline (GroupName (getName g)) models).
Proof.
  destruct (export_flatmapsvg_from_scene three_element_bboxes (λ _, 42) 5
              three_element_scene None) as [r| |] eqn:E;
    [|vm_compute in E; discriminate..].
  exists r. split; [done|].
  destruct (export_features_spec three_element_bboxes (λ _, 42) 5
              three_element_scene None r E) as (H1 & _ & _ & H4).
  by split.
Defined.

(** ** Marker identifiers *)

Lemma parse_py_str (n : nat) : parse_nat (py_str n) = n.
Proof.
  destruct (py_str_fixed n) as (k & _ & Hlt & _ & ->). by apply parse_fixed.
Qed.

Lemma py_str_inj (n m : nat) : py_str n = py_str m → n = m.
Proof. intros H. rewrite <- (parse_py_str n), <- (parse_py_str m). by rewrite H. Qed.

Lemma marker_features_NoDup (fs : gmap string feature) (markers : list marker)
    (m : marker) :
  NoDup (map marker_id markers) → m ∈ markers →
  marker_features fs markers !! marker_id m
  = Some (MarkerFeature (marker_name m) (marker_onto_id m) "orange").
Proof.
  unfold marker_features. revert fs.
  induction markers as [|m0 markers IH]; intros fs Hnd Hm; [inversion Hm|].
  simpl in Hnd. apply NoDup_cons in Hnd as [Hm0 Hnd]. simpl.
  apply elem_of_cons in Hm as [->|Hm].
  - fold (marker_features
            (<[marker_id m0 := MarkerFeature (marker_name m0) (marker_onto_id m0)
                                 "orange"]> fs) markers).
    rewrite marker_features_other; [by rewrite lookup_insert_eq|].
    intros m' Hm' E. apply Hm0. rewrite <- E. apply list_elem_of_fmap. by exists m'.
  - by apply IH.
Qed.

Lemma map_imap_ids (g : nat → string) (nodes : list nat)
    (f : nat → nat → marker) :
  (∀ j node, marker_id (f j node) = g node) →
  map marker_id (imap f nodes) = map g nodes.
Proof.
  revert f. induction nodes as [|node nodes IH]; intros f Hf; simpl; [done|].
  rewrite Hf. f_equal. apply IH. intros j n. apply Hf.
Qed.

(** X21. Distinct datapoints give markers with distinct identifiers, one marker
    for every datapoint, so that every marker keeps its own feature. *)
Theorem calculate_markers_distinct (randint : nat → nat) (region : Region)
    (nodes : list nat) :
  markers_group region = Some nodes → NoDup nodes →
  length (_calculate_markers randint region) = length nodes
  ∧ map marker_id (_calculate_markers randint region)
    = map (λ node, "marker_" +:+ py_str node) nodes
  ∧ NoDup (map marker_id (_calculate_markers randint region))
  ∧ ∀ fs m, m ∈ _calculate_markers randint region →
      marker_features fs (_calculate_markers randint region) !! marker_id m
      = Some (MarkerFeature (marker_name m) (marker_onto_id m) "orange").
Proof.
  intros Hg Hnd. rewrite (calculate_markers_spec _ _ _ Hg).
  set (markers := imap _ nodes).
  assert (Hids : map marker_id markers
                 = map (λ node, "marker_" +:+ py_str node) nodes).
  { by apply map_imap_ids. }
  assert (Hnd' : NoDup (map marker_id markers)).
  { rewrite Hids.
    change (NoDup ((λ node, "marker_" +:+ py_str node) <$> nodes)).
    apply NoDup_fmap_2; [|done].
    intros a b E%string_app_inv_head. by apply py_str_inj. }
  split; [apply length_imap|]. split; [done|]. split; [done|].
  intros fs m Hm. by apply marker_features_NoDup.
Qed.

Lemma calculate_markers_distinct_witness :
  length (_calculate_markers (λ _, 42) three_element_scene) = length [7; 8]
  ∧ map marker_id (_calculate_markers (λ _, 42) three_element_scene)
    = map (λ node, "marker_" +:+ py_str node) [7; 8]
  ∧ NoDup (map marker_id (_calculate_markers (λ _, 42) three_element_scene))
  ∧ ∀ fs m, m ∈ _calculate_markers (λ _, 42) three_element_scene →
      marker_features fs (_calculate_markers (λ _, 42) three_element_scene)
        !! marker_id m
      = Some (MarkerFeature (marker_name m) (marker_onto_id m) "orange").
Proof.
  apply (calculate_markers_distinct (λ _, 42) three_element_scene [7; 8]);
    [reflexivity|].
  apply (bool_decide_unpack _). vm_compute. exact I.
Defined.
